(** * one_time_download: metadata fetch with cache, and stream download

    A shallow embedding of [main.go]: the format-id check, the metadata
    fetcher [fetchVideoMetaData] with its Redis cache, and the [/submit]
    and [/download] handlers.  Go strings are byte strings ([string], one
    [ascii] per byte).  The effects of the program (Redis, the [yt-dlp]
    process, the HTTP response writer) are threaded explicitly. *)

From Stdlib Require Import ZArith NArith Ascii String List Bool Lia.
From stdpp Require Import gmap strings.



(** ** Bytes *)

Definition byte_le (a b : ascii) : bool := (N_of_ascii a <=? N_of_ascii b)%N.

(** [lo <= c && c <= hi] on bytes. *)
Definition byte_in (lo hi c : ascii) : bool := byte_le lo c && byte_le c hi.

Fixpoint bytes (s : string) : list ascii :=
  match s with
  | EmptyString => []
  | String c s' => c :: bytes s'
  end.

Fixpoint len (s : string) : nat :=
  match s with
  | EmptyString => 0
  | String _ s' => S (len s')
  end.

(** ** The regular expression of [formatIDRegex]

    The fragment of Go's [regexp/syntax] operators that the pattern of
    line 64 parses to, with a backtracking matcher.  Without the [m] flag,
    [^] is [OpBeginText] and [$] is [OpEndText].  The class holds ASCII
    ranges only, and no byte of a multi-byte UTF-8 sequence is ASCII, so
    matching byte by byte accepts the same strings as matching rune by
    rune. *)

Module regexp.

Inductive Regexp : Type :=
| OpEmptyMatch
| OpCharClass (ranges : list (ascii * ascii))
| OpBeginText
| OpEndText
| OpConcat (r1 r2 : Regexp)
| OpAlternate (r1 r2 : Regexp)
| OpStar (r : Regexp)
| OpPlus (r : Regexp).

Definition inClass (ranges : list (ascii * ascii)) (c : ascii) : bool :=
  existsb (fun lh => byte_in (fst lh) (snd lh) c) ranges.

(** Repetition: every further iteration has to consume input. *)
Fixpoint star_loop (step : bool -> string -> (bool -> string -> bool) -> bool)
    (n : nat) (bot : bool) (s : string) (k : bool -> string -> bool) : bool :=
  k bot s ||
  match n with
  | O => false
  | S n' =>
      step bot s (fun b s' => (len s' <? len s)%nat && star_loop step n' b s' k)
  end.

(** [matchFrom r bot s k]: [r] matches a prefix of [s] and the
    continuation [k] accepts what is left; [bot] says that [s] starts at
    the beginning of the text. *)
Fixpoint matchFrom (r : Regexp) (bot : bool) (s : string)
    (k : bool -> string -> bool) {struct r} : bool :=
  match r with
  | OpEmptyMatch => k bot s
  | OpCharClass ranges =>
      match s with
      | String c s' => inClass ranges c && k false s'
      | EmptyString => false
      end
  | OpBeginText => bot && k bot s
  | OpEndText =>
      match s with
      | EmptyString => k bot s
      | String _ _ => false
      end
  | OpConcat r1 r2 => matchFrom r1 bot s (fun b s' => matchFrom r2 b s' k)
  | OpAlternate r1 r2 => matchFrom r1 bot s k || matchFrom r2 bot s k
  | OpStar r1 => star_loop (matchFrom r1) (len s) bot s k
  | OpPlus r1 =>
      matchFrom r1 bot s (fun b s' => star_loop (matchFrom r1) (len s') b s' k)
  end.

(** An unanchored search: a match may start at any position. *)
Fixpoint search (r : Regexp) (bot : bool) (s : string) : bool :=
  matchFrom r bot s (fun _ _ => true) ||
  match s with
  | String _ s' => search r false s'
  | EmptyString => false
  end.

Definition MatchString (r : Regexp) (s : string) : bool := search r true s.

End regexp.

Import regexp.

(** [regexp.MustCompile(`^[a-zA-Z0-9+_-]+$`)] *)
Definition formatIDRegex : Regexp :=
  OpConcat OpBeginText
    (OpConcat
       (OpPlus (OpCharClass
          [("a", "z"); ("A", "Z"); ("0", "9"); ("+", "+"); ("_", "_"); ("-", "-")]%char))
       OpEndText).

Definition isValidFormatID (id : string) : bool :=
  negb (String.eqb id "") && MatchString formatIDRegex id.

(** The set of characters the specification names: [A-Za-z0-9+_-]. *)
Definition pattern_char (c : ascii) : Prop :=
  (65 <= N_of_ascii c <= 90)%N \/ (97 <= N_of_ascii c <= 122)%N \/
  (48 <= N_of_ascii c <= 57)%N \/ c = "+"%char \/ c = "_"%char \/ c = "-"%char.

(** The language of [^[A-Za-z0-9+_-]+$]: one or more such characters. *)
Definition matches_pattern (s : string) : Prop :=
  s <> EmptyString /\ Forall pattern_char (bytes s).

(** ** Go values

    A byte as the integer it holds, and [byte(x)], the conversion that
    keeps the low eight bits. *)

Local Open Scope Z_scope.

Definition b2z (c : ascii) : Z := Z.of_N (N_of_ascii c).
Definition z2b (z : Z) : ascii := ascii_of_N (Z.to_N (z mod 256)).

(** [s[n:]] for [n <= len(s)]. *)
Fixpoint drop_bytes (n : nat) (s : string) : string :=
  match n, s with
  | S n', String _ s' => drop_bytes n' s'
  | _, _ => s
  end.

(** [s[:n]] for [n <= len(s)]. *)
Fixpoint take_bytes (n : nat) (s : string) : string :=
  match n, s with
  | S n', String c s' => String c (take_bytes n' s')
  | _, _ => EmptyString
  end.

(** A slice is [nil] or holds elements; [len] is 0 for both [nil] and
    the empty slice, and [encoding/json] tells the two apart. *)
Inductive slice (A : Type) : Type :=
| nil_slice
| mk_slice (elems : list A).
Arguments nil_slice {A}.
Arguments mk_slice {A} elems.

Definition elems {A} (s : slice A) : list A :=
  match s with
  | nil_slice => []
  | mk_slice l => l
  end.

(** [append(s, x)] *)
Definition append {A} (s : slice A) (x : A) : slice A := mk_slice (elems s ++ [x]).

(** [int] is 64 bits wide on the platforms the program is built for. *)
Definition int64_min : Z := - 2 ^ 63.
Definition int64_max : Z := 2 ^ 63 - 1.
Definition is_int64 (z : Z) : bool := (int64_min <=? z) && (z <=? int64_max).

(** ** [unicode/utf8] *)

Module utf8.

Definition RuneError : Z := 0xFFFD.
Definition MaxRune : Z := 0x10FFFF.
Definition RuneSelf : Z := 0x80.
Definition surrogateMin : Z := 0xD800.
Definition surrogateMax : Z := 0xDFFF.

Definition maskx : Z := 0x3F.
Definition mask2 : Z := 0x1F.
Definition mask3 : Z := 0x0F.
Definition mask4 : Z := 0x07.
Definition tx : Z := 0x80.
Definition t2 : Z := 0xC0.
Definition t3 : Z := 0xE0.
Definition t4 : Z := 0xF0.
Definition locb : Z := 0x80.
Definition hicb : Z := 0xBF.

(** The table [first] with [acceptRanges]: what the first byte of a
    sequence says about it. *)
Inductive firstInfo : Type :=
| AS                                (* ASCII *)
| XX                                (* invalid first byte *)
| SZ (size : nat) (lo hi : Z).      (* size, and the range of the second byte *)

Definition first (p0 : Z) : firstInfo :=
  if p0 <? 0x80 then AS
  else if p0 <? 0xC2 then XX
  else if p0 <? 0xE0 then SZ 2 locb hicb
  else if p0 =? 0xE0 then SZ 3 0xA0 hicb
  else if p0 <? 0xED then SZ 3 locb hicb
  else if p0 =? 0xED then SZ 3 locb 0x9F
  else if p0 <? 0xF0 then SZ 3 locb hicb
  else if p0 =? 0xF0 then SZ 4 0x90 hicb
  else if p0 <? 0xF4 then SZ 4 locb hicb
  else if p0 =? 0xF4 then SZ 4 locb 0x8F
  else XX.

(** [utf8.DecodeRune]: the first rune of [p] and its width in bytes;
    [(RuneError, 1)] for an invalid encoding. *)
Definition DecodeRune (p : string) : Z * nat :=
  match p with
  | EmptyString => (RuneError, 0%nat)
  | String c0 p1 =>
      let p0 := b2z c0 in
      match first p0 with
      | AS => (p0, 1%nat)
      | XX => (RuneError, 1%nat)
      | SZ sz lo hi =>
          match p1 with
          | EmptyString => (RuneError, 1%nat)
          | String c1 p2 =>
              let b1 := b2z c1 in
              if (len p <? sz)%nat then (RuneError, 1%nat)
              else if (b1 <? lo) || (hi <? b1) then (RuneError, 1%nat)
              else if (sz <=? 2)%nat then
                (Z.lor (Z.shiftl (Z.land p0 mask2) 6) (Z.land b1 maskx), 2%nat)
              else
                match p2 with
                | EmptyString => (RuneError, 1%nat)
                | String c2 p3 =>
                    let b2 := b2z c2 in
                    if (b2 <? locb) || (hicb <? b2) then (RuneError, 1%nat)
                    else if (sz <=? 3)%nat then
                      (Z.lor (Z.lor (Z.shiftl (Z.land p0 mask3) 12)
                                    (Z.shiftl (Z.land b1 maskx) 6))
                             (Z.land b2 maskx), 3%nat)
                    else
                      match p3 with
                      | EmptyString => (RuneError, 1%nat)
                      | String c3 _ =>
                          let b3 := b2z c3 in
                          if (b3 <? locb) || (hicb <? b3) then (RuneError, 1%nat)
                          else
                            (Z.lor (Z.lor (Z.lor (Z.shiftl (Z.land p0 mask4) 18)
                                                 (Z.shiftl (Z.land b1 maskx) 12))
                                          (Z.shiftl (Z.land b2 maskx) 6))
                                   (Z.land b3 maskx), 4%nat)
                      end
                end
          end
      end
  end.

(** [utf8.AppendRune(nil, r)]: the UTF-8 encoding of [r]; surrogates and
    values out of range are encoded as [RuneError]. *)
Definition EncodeRune (r : Z) : string :=
  let enc3 (r : Z) :=
    String (z2b (Z.lor t3 (Z.shiftr r 12)))
      (String (z2b (Z.lor tx (Z.land (Z.shiftr r 6) maskx)))
         (String (z2b (Z.lor tx (Z.land r maskx))) EmptyString)) in
  if (0 <=? r) && (r <=? 0x7F) then String (z2b r) EmptyString
  else if (0 <=? r) && (r <=? 0x7FF) then
    String (z2b (Z.lor t2 (Z.shiftr r 6)))
      (String (z2b (Z.lor tx (Z.land r maskx))) EmptyString)
  else if (r <? 0) || (MaxRune <? r) || ((surrogateMin <=? r) && (r <=? surrogateMax)) then
    enc3 RuneError
  else if r <=? 0xFFFF then enc3 r
  else
    String (z2b (Z.lor t4 (Z.shiftr r 18)))
      (String (z2b (Z.lor tx (Z.land (Z.shiftr r 12) maskx)))
         (String (z2b (Z.lor tx (Z.land (Z.shiftr r 6) maskx)))
            (String (z2b (Z.lor tx (Z.land r maskx))) EmptyString))).

(** [utf8.ValidString] *)
Fixpoint valid_fuel (fuel : nat) (s : string) : bool :=
  match fuel with
  | O => match s with EmptyString => true | _ => false end
  | S fuel' =>
      match s with
      | EmptyString => true
      | String _ _ =>
          let '(r, size) := DecodeRune s in
          if (r =? RuneError) && (size =? 1)%nat then false
          else valid_fuel fuel' (drop_bytes size s)
      end
  end.

Definition ValidString (s : string) : bool := valid_fuel (len s) s.

End utf8.

(** ** Errors

    A Go [error] value, told apart by where it comes from. *)

Inductive error : Type :=
| UrlError (msg : string)             (* [*url.Error], from [url.ParseRequestURI] *)
| RedisNil                            (* [redis.Nil]: the key does not exist *)
| RedisError (msg : string)           (* any other error of the Redis client *)
| ExecError (msg : string)            (* [*exec.Error]: the process did not start *)
| ExitError (code : Z)                (* [*exec.ExitError]: non-zero exit status *)
| SyntaxError                         (* [*json.SyntaxError] *)
| UnmarshalTypeError (value : string) (* [*json.UnmarshalTypeError] *)
| FormError (msg : string).           (* from [Request.ParseForm] *)

(** A result paired with an error, for the calls whose result is not used
    when the error is not nil. *)
Inductive result (A : Type) : Type :=
| Ok (a : A)
| Err (e : error).
Arguments Ok {A} a.
Arguments Err {A} e.

Definition result_bind {A B} (f : A -> result B) (m : result A) : result B :=
  match m with
  | Ok a => f a
  | Err e => Err e
  end.

#[global] Instance result_mbind : MBind result := @result_bind.
#[global] Instance result_mret : MRet result := @Ok.

Definition of_option {A} (e : error) (o : option A) : result A :=
  match o with
  | Some a => Ok a
  | None => Err e
  end.

(** ** [encoding/json]

    The encoder and the decoder at the types of the program: a scanner
    and parser for the JSON grammar, the quoting and unquoting of
    strings, and the mapping between objects and the fields of the
    structs by their [json] tags.  Not modelled: the text of the error
    messages. *)

Module json.

(** The double quote and the backslash. *)
Definition dq : ascii := "034".
Definition bsl : ascii := "092".

#[local] Unset Elimination Schemes.
Inductive Value : Type :=
| Null
| Bool (b : bool)
| Number (lit : string)       (* the literal, as written *)
| Str (s : string)            (* the string, unquoted *)
| Array (vs : list Value)
| Object (ms : list (string * Value)).
#[local] Set Elimination Schemes.

(** *** Strings: [appendString] with [escapeHTML] set *)

(** [hex[n]] for [0 <= n < 16], with [hex = "0123456789abcdef"]. *)
Definition hex (n : Z) : ascii := if n <? 10 then z2b (48 + n) else z2b (87 + n).

(** [htmlSafeSet]: the ASCII characters written as they are. *)
Definition htmlSafeSet (b : Z) : bool :=
  (0x20 <=? b) && (b <? 0x80) &&
  negb ((b =? 34) || (b =? 38) || (b =? 60) || (b =? 62) || (b =? 92)).

(** The escape written for an ASCII byte that is not in [htmlSafeSet]. *)
Definition escape (c : ascii) (k : string) : string :=
  let b := b2z c in
  if (b =? 92) || (b =? 34) then String bsl (String c k)
  else if b =? 8 then String bsl (String "b" k)
  else if b =? 12 then String bsl (String "f" k)
  else if b =? 10 then String bsl (String "n" k)
  else if b =? 13 then String bsl (String "r" k)
  else if b =? 9 then String bsl (String "t" k)
  else String bsl (String "u" (String "0" (String "0"
         (String (hex (Z.shiftr b 4)) (String (hex (Z.land b 0xF)) k))))).

Fixpoint appendString_loop (fuel : nat) (src : string) (k : string) : string :=
  match fuel with
  | O => k
  | S fuel' =>
      match src with
      | EmptyString => k
      | String c src' =>
          let b := b2z c in
          if b <? utf8.RuneSelf then
            if htmlSafeSet b then String c (appendString_loop fuel' src' k)
            else escape c (appendString_loop fuel' src' k)
          else
            let '(r, size) := utf8.DecodeRune src in
            if (r =? utf8.RuneError) && (size =? 1)%nat then
              String bsl (String "u" (String "f" (String "f" (String "f" (String "d"
                (appendString_loop fuel' src' k))))))
            else if (r =? 0x2028) || (r =? 0x2029) then
              String bsl (String "u" (String "2" (String "0" (String "2"
                (String (hex (Z.land r 0xF))
                   (appendString_loop fuel' (drop_bytes size src) k))))))
            else
              take_bytes size src +:+ appendString_loop fuel' (drop_bytes size src) k
      end
  end.

(** The quoted form of [src], followed by [k]. *)
Definition appendString (src : string) (k : string) : string :=
  String dq (appendString_loop (len src) src (String dq k)).

(** *** Strings: [unquote] *)

Definition hexval (c : ascii) : option Z :=
  let b := b2z c in
  if (48 <=? b) && (b <=? 57) then Some (b - 48)
  else if (97 <=? b) && (b <=? 102) then Some (b - 97 + 10)
  else if (65 <=? b) && (b <=? 70) then Some (b - 65 + 10)
  else None.

(** [getu4]: the value of a [\uXXXX] escape at the start of [s], or -1. *)
Definition getu4 (s : string) : Z :=
  match s with
  | String c0 (String c1 (String h1 (String h2 (String h3 (String h4 _))))) =>
      if Ascii.eqb c0 bsl && Ascii.eqb c1 "u" then
        match hexval h1, hexval h2, hexval h3, hexval h4 with
        | Some a, Some b, Some c, Some d => ((a * 16 + b) * 16 + c) * 16 + d
        | _, _, _, _ => -1
        end
      else -1
  | _ => -1
  end.

(** [utf16.IsSurrogate] and [utf16.DecodeRune] *)
Definition IsSurrogate (r : Z) : bool := (0xD800 <=? r) && (r <? 0xE000).
Definition utf16_DecodeRune (r1 r2 : Z) : Z :=
  if (0xD800 <=? r1) && (r1 <? 0xDC00) && (0xDC00 <=? r2) && (r2 <? 0xE000)
  then Z.lor (Z.shiftl (r1 - 0xD800) 10) (r2 - 0xDC00) + 0x10000
  else utf8.RuneError.

(** The byte an escape of one character stands for. *)
Definition simple_escape (e : ascii) : option ascii :=
  let b := b2z e in
  if (b =? 34) || (b =? 92) || (b =? 47) then Some e
  else if b =? 98 then Some "008"%char
  else if b =? 102 then Some "012"%char
  else if b =? 110 then Some "010"%char
  else if b =? 114 then Some "013"%char
  else if b =? 116 then Some "009"%char
  else None.

(** A string literal from behind its opening quote: the unquoted string
    and the input behind the closing quote.  Invalid UTF-8 and unpaired
    surrogates are replaced by U+FFFD. *)
Fixpoint scan_string (fuel : nat) (s : string) : option (string * string) :=
  match fuel with
  | O => None
  | S fuel' =>
      match s with
      | EmptyString => None
      | String c s' =>
          let b := b2z c in
          if Ascii.eqb c dq then Some (EmptyString, s')
          else if Ascii.eqb c bsl then
            match s' with
            | EmptyString => None
            | String e s'' =>
                if Ascii.eqb e "u" then
                  let rr := getu4 s in
                  if rr <? 0 then None
                  else if IsSurrogate rr then
                    let rr1 := getu4 (drop_bytes 6 s) in
                    let dec := utf16_DecodeRune rr rr1 in
                    if negb (dec =? utf8.RuneError) then
                      '(t, r) ← scan_string fuel' (drop_bytes 12 s);
                      Some (utf8.EncodeRune dec +:+ t, r)
                    else
                      '(t, r) ← scan_string fuel' (drop_bytes 6 s);
                      Some (utf8.EncodeRune utf8.RuneError +:+ t, r)
                  else
                    '(t, r) ← scan_string fuel' (drop_bytes 6 s);
                    Some (utf8.EncodeRune rr +:+ t, r)
                else
                  x ← simple_escape e;
                  '(t, r) ← scan_string fuel' s'';
                  Some (String x t, r)
            end
          else if b <? 0x20 then None
          else if b <? utf8.RuneSelf then
            '(t, r) ← scan_string fuel' s';
            Some (String c t, r)
          else
            let '(rr, size) := utf8.DecodeRune s in
            '(t, r) ← scan_string fuel' (drop_bytes size s);
            Some (utf8.EncodeRune rr +:+ t, r)
      end
  end.

(** *** The scanner and the parser *)

Definition isSpace (c : ascii) : bool :=
  Ascii.eqb c " " || Ascii.eqb c "009" || Ascii.eqb c "013" || Ascii.eqb c "010".

Fixpoint skip_space (s : string) : string :=
  match s with
  | String c s' => if isSpace c then skip_space s' else s
  | EmptyString => s
  end.

Definition isDigit (c : ascii) : bool := byte_in "0" "9" c.

(** The longest prefix of digits, and what follows it. *)
Fixpoint span_digits (s : string) : string * string :=
  match s with
  | String c s' =>
      if isDigit c then let '(ds, r) := span_digits s' in (String c ds, r)
      else (EmptyString, s)
  | EmptyString => (EmptyString, s)
  end.

(** The exponent of a number, if there is one. *)
Definition scan_exp (s : string) : option (string * string) :=
  match s with
  | String c s1 =>
      if Ascii.eqb c "e" || Ascii.eqb c "E" then
        let '(sign, s2) :=
          match s1 with
          | String c' s2 =>
              if Ascii.eqb c' "+" || Ascii.eqb c' "-" then (String c' EmptyString, s2)
              else (EmptyString, s1)
          | EmptyString => (EmptyString, s1)
          end in
        let '(ds, r) := span_digits s2 in
        match ds with
        | EmptyString => None
        | String _ _ => Some (String c (sign +:+ ds), r)
        end
      else Some (EmptyString, s)
  | EmptyString => Some (EmptyString, s)
  end.

(** The fraction of a number, if there is one. *)
Definition scan_frac (s : string) : option (string * string) :=
  match s with
  | String c s1 =>
      if Ascii.eqb c "." then
        let '(ds, r) := span_digits s1 in
        match ds with
        | EmptyString => None
        | String _ _ => Some (String c ds, r)
        end
      else Some (EmptyString, s)
  | EmptyString => Some (EmptyString, s)
  end.

(** A number literal and the input behind it: an optional minus sign,
    then a zero or a non-zero digit with further digits, then an optional
    fraction and an optional exponent. *)
Definition scan_number (s : string) : option (string * string) :=
  let '(sign, s1) :=
    match s with
    | String c s' => if Ascii.eqb c "-" then (String c EmptyString, s') else (EmptyString, s)
    | EmptyString => (EmptyString, s)
    end in
  '(int, s2) ←
    match s1 with
    | String c s' =>
        if Ascii.eqb c "0" then Some (String c EmptyString, s')
        else if isDigit c then
          let '(ds, r) := span_digits s' in Some (String c ds, r)
        else None
    | EmptyString => None
    end;
  '(frac, s3) ← scan_frac s2;
  '(exp, s4) ← scan_exp s3;
  Some (sign +:+ int +:+ frac +:+ exp, s4).

(** [s] without the prefix [p], when it starts with it. *)
Fixpoint strip_prefix (p s : string) : option string :=
  match p with
  | EmptyString => Some s
  | String c p' =>
      match s with
      | String d s' => if Ascii.eqb c d then strip_prefix p' s' else None
      | EmptyString => None
      end
  end.

(** [maxNestingDepth] *)
Definition maxNestingDepth : Z := 10000.

(** One value at the start of [s] (no leading space), at nesting depth
    [depth]: the value and the input behind it.  [parse_elements] and
    [parse_members] read from the first element, or member, to the
    closing bracket. *)
Fixpoint parse_value (fuel : nat) (depth : Z) (s : string) {struct fuel}
    : option (Value * string) :=
  match fuel with
  | O => None
  | S fuel' =>
      match s with
      | EmptyString => None
      | String c s' =>
          if Ascii.eqb c "{" then
            if maxNestingDepth <? depth + 1 then None
            else
              match skip_space s' with
              | String c1 s1 =>
                  if Ascii.eqb c1 "}" then Some (Object [], s1)
                  else
                    '(ms, r) ← parse_members fuel' (depth + 1) (String c1 s1);
                    Some (Object ms, r)
              | EmptyString => None
              end
          else if Ascii.eqb c "[" then
            if maxNestingDepth <? depth + 1 then None
            else
              match skip_space s' with
              | String c1 s1 =>
                  if Ascii.eqb c1 "]" then Some (Array [], s1)
                  else
                    '(vs, r) ← parse_elements fuel' (depth + 1) (String c1 s1);
                    Some (Array vs, r)
              | EmptyString => None
              end
          else if Ascii.eqb c dq then
            '(t, r) ← scan_string (len s') s';
            Some (Str t, r)
          else if Ascii.eqb c "t" then
            r ← strip_prefix "rue" s'; Some (Bool true, r)
          else if Ascii.eqb c "f" then
            r ← strip_prefix "alse" s'; Some (Bool false, r)
          else if Ascii.eqb c "n" then
            r ← strip_prefix "ull" s'; Some (Null, r)
          else if Ascii.eqb c "-" || isDigit c then
            '(lit, r) ← scan_number s;
            Some (Number lit, r)
          else None
      end
  end
with parse_elements (fuel : nat) (depth : Z) (s : string) {struct fuel}
    : option (list Value * string) :=
  match fuel with
  | O => None
  | S fuel' =>
      '(v, r) ← parse_value fuel' depth s;
      match skip_space r with
      | String c r1 =>
          if Ascii.eqb c "," then
            '(vs, r2) ← parse_elements fuel' depth (skip_space r1);
            Some (v :: vs, r2)
          else if Ascii.eqb c "]" then Some ([v], r1)
          else None
      | EmptyString => None
      end
  end
with parse_members (fuel : nat) (depth : Z) (s : string) {struct fuel}
    : option (list (string * Value) * string) :=
  match fuel with
  | O => None
  | S fuel' =>
      match s with
      | String c s' =>
          if Ascii.eqb c dq then
            '(key, r) ← scan_string (len s') s';
            match skip_space r with
            | String c1 r1 =>
                if Ascii.eqb c1 ":" then
                  '(v, r2) ← parse_value fuel' depth (skip_space r1);
                  match skip_space r2 with
                  | String c2 r3 =>
                      if Ascii.eqb c2 "," then
                        '(ms, r4) ← parse_members fuel' depth (skip_space r3);
                        Some ((key, v) :: ms, r4)
                      else if Ascii.eqb c2 "}" then Some ([(key, v)], r3)
                      else None
                  | EmptyString => None
                  end
                else None
            | EmptyString => None
            end
          else None
      | EmptyString => None
      end
  end.

(** [checkValid] and the scan of the whole input: one value, with space
    around it and nothing else. *)
Definition parse (data : string) : option Value :=
  '(v, r) ← parse_value (S (2 * len data)) 0 (skip_space data);
  match skip_space r with
  | EmptyString => Some v
  | String _ _ => None
  end.

(** *** The encoder *)

(** The members and the elements are written with commas between them
    and no space. *)
Definition print_elements (print : Value -> string -> string)
    : list Value -> string -> string :=
  fix elements (vs : list Value) (k : string) : string :=
    match vs with
    | [] => k
    | v :: vs' =>
        print v match vs' with
                | [] => k
                | _ :: _ => String "," (elements vs' k)
                end
    end.

Definition print_members (print : Value -> string -> string)
    : list (string * Value) -> string -> string :=
  fix members (ms : list (string * Value)) (k : string) : string :=
    match ms with
    | [] => k
    | (key, v) :: ms' =>
        appendString key (String ":"
          (print v match ms' with
                   | [] => k
                   | _ :: _ => String "," (members ms' k)
                   end))
    end.

(** The text of [v], followed by [k]. *)
Fixpoint print (v : Value) (k : string) : string :=
  match v with
  | Null => "null" +:+ k
  | Bool true => "true" +:+ k
  | Bool false => "false" +:+ k
  | Number lit => lit +:+ k
  | Str s => appendString s k
  | Array vs => String "[" (print_elements print vs (String "]" k))
  | Object ms => String "{" (print_members print ms (String "}" k))
  end.

(** *** Integers: [strconv.FormatInt] and [strconv.ParseInt], base 10 *)

Fixpoint format_digits (fuel : nat) (n : Z) (acc : string) : string :=
  match fuel with
  | O => acc
  | S fuel' =>
      let acc' := String (z2b (48 + n mod 10)) acc in
      if n <? 10 then acc' else format_digits fuel' (n / 10) acc'
  end.

Definition FormatInt (i : Z) : string :=
  if i <? 0 then String "-" (format_digits (S (Z.to_nat (Z.log2 (- i)))) (- i) EmptyString)
  else format_digits (S (Z.to_nat (Z.log2 i))) i EmptyString.

Fixpoint digits_val (s : string) (acc : Z) : option Z :=
  match s with
  | EmptyString => Some acc
  | String c s' => if isDigit c then digits_val s' (acc * 10 + (b2z c - 48)) else None
  end.

(** [strconv.ParseInt(s, 10, 64)]; [None] for a syntax or a range error. *)
Definition ParseInt (s : string) : option Z :=
  let '(neg, ds) :=
    match s with
    | String c s' =>
        if Ascii.eqb c "-" then (true, s')
        else if Ascii.eqb c "+" then (false, s')
        else (false, s)
    | EmptyString => (false, s)
    end in
  match ds with
  | EmptyString => None
  | String _ _ =>
      n ← digits_val ds 0;
      let i := if neg : bool then - n else n in
      if is_int64 i then Some i else None
  end.

(** *** Decoding into the fields of a struct *)

(** [foldName]: the key of the case-insensitive match.  ASCII letters go
    to upper case.  Of the runes outside ASCII, U+017F and U+212A fold to
    the letters S and K; every other one folds to a rune outside ASCII,
    which is left as it is here: it differs from every rune of a field
    name of this program either way. *)
Definition foldRune (r : Z) : Z :=
  if r =? 0x17F then 83 else if r =? 0x212A then 75 else r.

Fixpoint foldName_loop (fuel : nat) (s : string) : string :=
  match fuel with
  | O => EmptyString
  | S fuel' =>
      match s with
      | EmptyString => EmptyString
      | String c s' =>
          let b := b2z c in
          if b <? utf8.RuneSelf then
            String (if (97 <=? b) && (b <=? 122) then z2b (b - 32) else c)
              (foldName_loop fuel' s')
          else
            let '(r, n) := utf8.DecodeRune s in
            utf8.EncodeRune (foldRune r) +:+ foldName_loop fuel' (drop_bytes n s)
      end
  end.

Definition foldName (s : string) : string := foldName_loop (len s) s.

(** What the error reports as the JSON value. *)
Definition kind (v : Value) : string :=
  match v with
  | Null => "null"
  | Bool _ => "bool"
  | Number _ => "number"
  | Str _ => "string"
  | Array _ => "array"
  | Object _ => "object"
  end.

(** The decoder writes into a value that is already there; [null]
    leaves a string, a number, a boolean and a struct as they are. *)
Definition decode_string (cur : string) (v : Value) : result string :=
  match v with
  | Null => Ok cur
  | Str s => Ok s
  | _ => Err (UnmarshalTypeError (kind v))
  end.

Definition decode_int (cur : Z) (v : Value) : result Z :=
  match v with
  | Null => Ok cur
  | Number lit => of_option (UnmarshalTypeError ("number " +:+ lit)) (ParseInt lit)
  | _ => Err (UnmarshalTypeError (kind v))
  end.

Definition decode_bool (cur : bool) (v : Value) : result bool :=
  match v with
  | Null => Ok cur
  | Bool b => Ok b
  | _ => Err (UnmarshalTypeError (kind v))
  end.

(** The elements of an array go into the elements the slice already
    has, where it has them, and into zero values behind them.  (Go takes
    an element behind the length from the backing array when the capacity
    allows it; such an element is taken as zero here.  It differs only for
    a key that occurs three times in one object.) *)
Fixpoint decode_elems {A} (dec : A -> Value -> result A) (zero : A)
    (cur : list A) (vs : list Value) : result (list A) :=
  match vs with
  | [] => Ok []
  | v :: vs' =>
      x ← dec (hd zero cur) v;
      xs ← decode_elems dec zero (tl cur) vs';
      Ok (x :: xs)
  end.

Definition decode_slice {A} (dec : A -> Value -> result A) (zero : A)
    (cur : slice A) (v : Value) : result (slice A) :=
  match v with
  | Null => Ok nil_slice
  | Array vs => xs ← decode_elems dec zero (elems cur) vs; Ok (mk_slice xs)
  | _ => Err (UnmarshalTypeError (kind v))
  end.

(** A field: the name in its [json] tag, and how a value is decoded
    into it. *)
Definition Field (T : Type) : Type := (string * (T -> Value -> result T))%type.

(** The field a key names: the one with exactly that name, or else the
    first one that equals it under case folding. *)
Definition find_field {T} (fields : list (Field T)) (key : string)
    : option (T -> Value -> result T) :=
  match find (fun f => String.eqb (fst f) key) fields with
  | Some f => Some (snd f)
  | None =>
      match find (fun f => String.eqb (foldName (fst f)) (foldName key)) fields with
      | Some f => Some (snd f)
      | None => None
      end
  end.

(** The members of an object in their order; one that names no field is
    skipped. *)
Fixpoint decode_members {T} (fields : list (Field T)) (cur : T)
    (ms : list (string * Value)) : result T :=
  match ms with
  | [] => Ok cur
  | (key, v) :: ms' =>
      match find_field fields key with
      | Some dec => cur' ← dec cur v; decode_members fields cur' ms'
      | None => decode_members fields cur ms'
      end
  end.

Definition decode_struct {T} (fields : list (Field T)) (cur : T) (v : Value) : result T :=
  match v with
  | Null => Ok cur
  | Object ms => decode_members fields cur ms
  | _ => Err (UnmarshalTypeError (kind v))
  end.

(*JSON-MORE*)
End json.

(** ** The data of the program *)

(** [VideoResponse], with the element type of [Medias]. *)
Record Media : Type := {
  FormatID : string;          (* json: format_id *)
  Quality : string;           (* json: quality *)
  Width : Z;                  (* json: width *)
  Height : Z;                 (* json: height *)
  Ext : string                (* json: ext *)
}.

Record VideoResponse : Type := {
  URL : string;               (* json: url *)
  Source : string;            (* json: source *)
  ID : string;                (* json: id *)
  Author : string;            (* json: author *)
  Title : string;             (* json: title *)
  Thumbnail : string;         (* json: thumbnail *)
  Medias : slice Media;       (* json: medias *)
  Error : bool                (* json: error *)
}.

(** [YTDLPOutput], with the element type of [Formats]. *)
Module YTDLP.

Record FormatEntry : Type := {
  FormatID : string;          (* json: format_id *)
  Ext : string;               (* json: ext *)
  Format : string;            (* json: format *)
  Width : Z;                  (* json: width *)
  Height : Z;                 (* json: height *)
  Acodec : string;            (* json: acodec *)
  Vcodec : string;            (* json: vcodec *)
  FPS : Z;                    (* json: fps *)
  Filesize : Z                (* json: filesize *)
}.

Record YTDLPOutput : Type := {
  ID : string;                (* json: id *)
  Title : string;             (* json: title *)
  Uploader : string;          (* json: uploader *)
  Thumbnail : string;         (* json: thumbnail *)
  WebpageURL : string;        (* json: webpage_url *)
  Formats : slice FormatEntry (* json: formats *)
}.

Definition zeroFormat : FormatEntry :=
  {| FormatID := ""; Ext := ""; Format := ""; Width := 0; Height := 0;
     Acodec := ""; Vcodec := ""; FPS := 0; Filesize := 0 |}.

Definition zero : YTDLPOutput :=
  {| ID := ""; Title := ""; Uploader := ""; Thumbnail := ""; WebpageURL := "";
     Formats := nil_slice |}.

Definition format_fields : list (json.Field FormatEntry) :=
  [ ("format_id", fun f v => x ← json.decode_string (FormatID f) v;
       Ok {| FormatID := x; Ext := Ext f; Format := Format f; Width := Width f;
             Height := Height f; Acodec := Acodec f; Vcodec := Vcodec f;
             FPS := FPS f; Filesize := Filesize f |});
    ("ext", fun f v => x ← json.decode_string (Ext f) v;
       Ok {| FormatID := FormatID f; Ext := x; Format := Format f; Width := Width f;
             Height := Height f; Acodec := Acodec f; Vcodec := Vcodec f;
             FPS := FPS f; Filesize := Filesize f |});
    ("format", fun f v => x ← json.decode_string (Format f) v;
       Ok {| FormatID := FormatID f; Ext := Ext f; Format := x; Width := Width f;
             Height := Height f; Acodec := Acodec f; Vcodec := Vcodec f;
             FPS := FPS f; Filesize := Filesize f |});
    ("width", fun f v => x ← json.decode_int (Width f) v;
       Ok {| FormatID := FormatID f; Ext := Ext f; Format := Format f; Width := x;
             Height := Height f; Acodec := Acodec f; Vcodec := Vcodec f;
             FPS := FPS f; Filesize := Filesize f |});
    ("height", fun f v => x ← json.decode_int (Height f) v;
       Ok {| FormatID := FormatID f; Ext := Ext f; Format := Format f; Width := Width f;
             Height := x; Acodec := Acodec f; Vcodec := Vcodec f;
             FPS := FPS f; Filesize := Filesize f |});
    ("acodec", fun f v => x ← json.decode_string (Acodec f) v;
       Ok {| FormatID := FormatID f; Ext := Ext f; Format := Format f; Width := Width f;
             Height := Height f; Acodec := x; Vcodec := Vcodec f;
             FPS := FPS f; Filesize := Filesize f |});
    ("vcodec", fun f v => x ← json.decode_string (Vcodec f) v;
       Ok {| FormatID := FormatID f; Ext := Ext f; Format := Format f; Width := Width f;
             Height := Height f; Acodec := Acodec f; Vcodec := x;
             FPS := FPS f; Filesize := Filesize f |});
    ("fps", fun f v => x ← json.decode_int (FPS f) v;
       Ok {| FormatID := FormatID f; Ext := Ext f; Format := Format f; Width := Width f;
             Height := Height f; Acodec := Acodec f; Vcodec := Vcodec f;
             FPS := x; Filesize := Filesize f |});
    ("filesize", fun f v => x ← json.decode_int (Filesize f) v;
       Ok {| FormatID := FormatID f; Ext := Ext f; Format := Format f; Width := Width f;
             Height := Height f; Acodec := Acodec f; Vcodec := Vcodec f;
             FPS := FPS f; Filesize := x |}) ].

Definition fields : list (json.Field YTDLPOutput) :=
  [ ("id", fun y v => x ← json.decode_string (ID y) v;
       Ok {| ID := x; Title := Title y; Uploader := Uploader y; Thumbnail := Thumbnail y;
             WebpageURL := WebpageURL y; Formats := Formats y |});
    ("title", fun y v => x ← json.decode_string (Title y) v;
       Ok {| ID := ID y; Title := x; Uploader := Uploader y; Thumbnail := Thumbnail y;
             WebpageURL := WebpageURL y; Formats := Formats y |});
    ("uploader", fun y v => x ← json.decode_string (Uploader y) v;
       Ok {| ID := ID y; Title := Title y; Uploader := x; Thumbnail := Thumbnail y;
             WebpageURL := WebpageURL y; Formats := Formats y |});
    ("thumbnail", fun y v => x ← json.decode_string (Thumbnail y) v;
       Ok {| ID := ID y; Title := Title y; Uploader := Uploader y; Thumbnail := x;
             WebpageURL := WebpageURL y; Formats := Formats y |});
    ("webpage_url", fun y v => x ← json.decode_string (WebpageURL y) v;
       Ok {| ID := ID y; Title := Title y; Uploader := Uploader y; Thumbnail := Thumbnail y;
             WebpageURL := x; Formats := Formats y |});
    ("formats", fun y v =>
       x ← json.decode_slice (json.decode_struct format_fields) zeroFormat (Formats y) v;
       Ok {| ID := ID y; Title := Title y; Uploader := Uploader y; Thumbnail := Thumbnail y;
             WebpageURL := WebpageURL y; Formats := x |}) ].

(** [json.Unmarshal(output, &ytdlpData)], with [ytdlpData] zero. *)
Definition Unmarshal (data : string) : result YTDLPOutput :=
  match json.parse data with
  | None => Err SyntaxError
  | Some v => json.decode_struct fields zero v
  end.

End YTDLP.

Definition zeroMedia : Media :=
  {| FormatID := ""; Quality := ""; Width := 0; Height := 0; Ext := "" |}.

Definition zeroVideoResponse : VideoResponse :=
  {| URL := ""; Source := ""; ID := ""; Author := ""; Title := ""; Thumbnail := "";
     Medias := nil_slice; Error := false |}.

Definition media_fields : list (json.Field Media) :=
  [ ("format_id", fun m v => x ← json.decode_string (FormatID m) v;
       Ok {| FormatID := x; Quality := Quality m; Width := Width m; Height := Height m;
             Ext := Ext m |});
    ("quality", fun m v => x ← json.decode_string (Quality m) v;
       Ok {| FormatID := FormatID m; Quality := x; Width := Width m; Height := Height m;
             Ext := Ext m |});
    ("width", fun m v => x ← json.decode_int (Width m) v;
       Ok {| FormatID := FormatID m; Quality := Quality m; Width := x; Height := Height m;
             Ext := Ext m |});
    ("height", fun m v => x ← json.decode_int (Height m) v;
       Ok {| FormatID := FormatID m; Quality := Quality m; Width := Width m; Height := x;
             Ext := Ext m |});
    ("ext", fun m v => x ← json.decode_string (Ext m) v;
       Ok {| FormatID := FormatID m; Quality := Quality m; Width := Width m;
             Height := Height m; Ext := x |}) ].

Definition setMedias (r : VideoResponse) (ms : slice Media) : VideoResponse :=
  {| URL := URL r; Source := Source r; ID := ID r; Author := Author r; Title := Title r;
     Thumbnail := Thumbnail r; Medias := ms; Error := Error r |}.

Definition response_fields : list (json.Field VideoResponse) :=
  [ ("url", fun r v => x ← json.decode_string (URL r) v;
       Ok {| URL := x; Source := Source r; ID := ID r; Author := Author r; Title := Title r;
             Thumbnail := Thumbnail r; Medias := Medias r; Error := Error r |});
    ("source", fun r v => x ← json.decode_string (Source r) v;
       Ok {| URL := URL r; Source := x; ID := ID r; Author := Author r; Title := Title r;
             Thumbnail := Thumbnail r; Medias := Medias r; Error := Error r |});
    ("id", fun r v => x ← json.decode_string (ID r) v;
       Ok {| URL := URL r; Source := Source r; ID := x; Author := Author r; Title := Title r;
             Thumbnail := Thumbnail r; Medias := Medias r; Error := Error r |});
    ("author", fun r v => x ← json.decode_string (Author r) v;
       Ok {| URL := URL r; Source := Source r; ID := ID r; Author := x; Title := Title r;
             Thumbnail := Thumbnail r; Medias := Medias r; Error := Error r |});
    ("title", fun r v => x ← json.decode_string (Title r) v;
       Ok {| URL := URL r; Source := Source r; ID := ID r; Author := Author r; Title := x;
             Thumbnail := Thumbnail r; Medias := Medias r; Error := Error r |});
    ("thumbnail", fun r v => x ← json.decode_string (Thumbnail r) v;
       Ok {| URL := URL r; Source := Source r; ID := ID r; Author := Author r;
             Title := Title r; Thumbnail := x; Medias := Medias r; Error := Error r |});
    ("medias", fun r v =>
       x ← json.decode_slice (json.decode_struct media_fields) zeroMedia (Medias r) v;
       Ok (setMedias r x));
    ("error", fun r v => x ← json.decode_bool (Error r) v;
       Ok {| URL := URL r; Source := Source r; ID := ID r; Author := Author r;
             Title := Title r; Thumbnail := Thumbnail r; Medias := Medias r; Error := x |}) ].

(** [json.Unmarshal([]byte(cacheData), &v)], with [v] zero. *)
Definition Unmarshal (data : string) : result VideoResponse :=
  match json.parse data with
  | None => Err SyntaxError
  | Some v => json.decode_struct response_fields zeroVideoResponse v
  end.

(** What [json.Marshal] writes for a [VideoResponse]: the fields in the
    order of their declaration under the names of their tags, a nil slice
    as [null]. *)
Definition encode_Media (m : Media) : json.Value :=
  json.Object
    [ ("format_id", json.Str (FormatID m));
      ("quality", json.Str (Quality m));
      ("width", json.Number (json.FormatInt (Width m)));
      ("height", json.Number (json.FormatInt (Height m)));
      ("ext", json.Str (Ext m)) ].

Definition encode_Medias (ms : slice Media) : json.Value :=
  match ms with
  | nil_slice => json.Null
  | mk_slice l => json.Array (map encode_Media l)
  end.

Definition encode_VideoResponse (r : VideoResponse) : json.Value :=
  json.Object
    [ ("url", json.Str (URL r));
      ("source", json.Str (Source r));
      ("id", json.Str (ID r));
      ("author", json.Str (Author r));
      ("title", json.Str (Title r));
      ("thumbnail", json.Str (Thumbnail r));
      ("medias", encode_Medias (Medias r));
      ("error", json.Bool (Error r)) ].

(** [json.Marshal(videoResp)]; it has no error at this type. *)
Definition Marshal (r : VideoResponse) : string :=
  json.print (encode_VideoResponse r) EmptyString.

(** ** [strings] *)

Module strings.

Fixpoint Contains (s substr : string) : bool :=
  match json.strip_prefix substr s with
  | Some _ => true
  | None =>
      match s with
      | EmptyString => false
      | String _ s' => Contains s' substr
      end
  end.

Definition HasSuffix (s suffix : string) : bool :=
  (len suffix <=? len s)%nat && String.eqb (drop_bytes (len s - len suffix) s) suffix.

(** [strings.Split(s, sep)] for a separator that is not empty. *)
Fixpoint Split_loop (fuel : nat) (s sep cur : string) : list string :=
  match fuel with
  | O => [cur +:+ s]
  | S fuel' =>
      match json.strip_prefix sep s with
      | Some r => cur :: Split_loop fuel' r sep EmptyString
      | None =>
          match s with
          | EmptyString => [cur]
          | String c s' => Split_loop fuel' s' sep (cur +:+ String c EmptyString)
          end
      end
  end.

Definition Split (s sep : string) : list string := Split_loop (S (len s)) s sep EmptyString.

(** [strings.ReplaceAll(s, old, new)] for an [old] that is not empty. *)
Fixpoint ReplaceAll_loop (fuel : nat) (s old new : string) : string :=
  match fuel with
  | O => s
  | S fuel' =>
      match json.strip_prefix old s with
      | Some r => new +:+ ReplaceAll_loop fuel' r old new
      | None =>
          match s with
          | EmptyString => EmptyString
          | String c s' => String c (ReplaceAll_loop fuel' s' old new)
          end
      end
  end.

Definition ReplaceAll (s old new : string) : string := ReplaceAll_loop (S (len s)) s old new.

End strings.

(** ** The world around the program *)

(** What the program does to the outside, in the order it does it. *)
Inductive event : Type :=
| RedisGet (key : string)
| RedisSet (key value : string) (expiration : Z)
| Exec (name : string) (args : list string).

(** The Redis store, a value with its expiration under each key, and
    the trace of the events so far. *)
Record World : Type := {
  redis : gmap string (string * Z);
  trace : list event
}.

(** [parsedURL], as far as the program reads it. *)
Record url_URL : Type := {
  Scheme : string;
  Host : string
}.

(** What the program does not decide: the standard library's URL parser,
    [utils.ValidateURL] (a package of this repository whose source is not
    at hand), the text of an error, the processes that are run and the
    failures of the Redis client. *)
Inductive process_error : Type :=
| NotStarted (msg : string)
| ExitStatus (code : Z).

Record Env : Type := {
  (* the URL, or the message of the error *)
  ParseRequestURI : string -> url_URL + string;
  ValidateURL : string -> bool;
  ErrorText : error -> string;
  (* the chunks a process writes to its standard output, and the error
     of [Run] and [Output] *)
  RunProcess : string -> list string -> list string * option process_error;
  (* the message of a failure of the Redis client, other than a missing
     key *)
  RedisGetErr : string -> option string;
  RedisSetErr : string -> option string
}.

Definition exec_error (e : process_error) : error :=
  match e with
  | NotStarted msg => ExecError msg
  | ExitStatus code => ExitError code
  end.

(** [time.Minute], in nanoseconds. *)
Definition Minute : Z := 60 * 1000000000.

(** *** The HTTP side *)

(** The format strings of the three [Fprintf] calls of the [/submit]
    handler; their text is not reproduced. *)
Inductive Template : Type := submitHead | submitOption | submitTail.

(** What is written to the response body: bytes, or a format string
    with its arguments. *)
Inductive chunk : Type :=
| Bytes (data : string)
| Printf (format : Template) (args : list string).

Record ResponseWriter : Type := {
  header : gmap string string;
  (* the status and the header as sent, once they are *)
  sent : option (Z * gmap string string);
  body : list chunk
}.

Definition newResponseWriter : ResponseWriter :=
  {| header := ∅; sent := None; body := [] |}.

Definition Header_Set (key value : string) (w : ResponseWriter) : ResponseWriter :=
  {| header := <[key := value]> (header w); sent := sent w; body := body w |}.

Definition Header_Del (key : string) (w : ResponseWriter) : ResponseWriter :=
  {| header := delete key (header w); sent := sent w; body := body w |}.

(** The status is sent once; a later call changes nothing. *)
Definition WriteHeader (code : Z) (w : ResponseWriter) : ResponseWriter :=
  match sent w with
  | Some _ => w
  | None => {| header := header w; sent := Some (code, header w); body := body w |}
  end.

(** The first write sends status 200 when no status was sent. *)
Definition Write (c : chunk) (w : ResponseWriter) : ResponseWriter :=
  let w' := WriteHeader 200 w in
  {| header := header w'; sent := sent w'; body := body w' ++ [c] |}.

Definition StatusBadRequest : Z := 400.
Definition StatusInternalServerError : Z := 500.

(** [http.Error] *)
Definition http_Error (msg : string) (code : Z) (w : ResponseWriter) : ResponseWriter :=
  let w1 := Header_Del "Content-Length" w in
  let w2 := Header_Set "Content-Type" "text/plain; charset=utf-8" w1 in
  let w3 := Header_Set "X-Content-Type-Options" "nosniff" w2 in
  let w4 := WriteHeader code w3 in
  Write (Bytes (msg +:+ String "010" EmptyString)) w4.

(** The request, as far as the handlers read it. *)
Record Request : Type := {
  ParseFormErr : option string;         (* the error of [r.ParseForm()] *)
  Form : list (string * string);        (* the form values, once parsed *)
  Query : list (string * string)        (* [r.URL.Query()] *)
}.

(** The first value under [key], or the empty string. *)
Fixpoint Get (vs : list (string * string)) (key : string) : string :=
  match vs with
  | [] => EmptyString
  | (k, v) :: vs' => if String.eqb k key then v else Get vs' key
  end.

Definition FormValue (r : Request) (key : string) : string := Get (Form r) key.

(** How a handler ends. *)
Inductive outcome : Type :=
| Returned
| Panicked (msg : string).

(** ** The program *)

Section Program.

Context (env : Env).

Definition log (e : event) (w : World) : World :=
  {| redis := redis w; trace := trace w ++ [e] |}.

(** [rdb.Get(ctx, key).Result()].  Reading leaves the entry, and its
    expiration, as it is. *)
Definition rdb_Get (key : string) (w : World) : World * result string :=
  let w' := log (RedisGet key) w in
  match RedisGetErr env key with
  | Some msg => (w', Err (RedisError msg))
  | None =>
      match redis w !! key with
      | Some (value, _) => (w', Ok value)
      | None => (w', Err RedisNil)
      end
  end.

(** [rdb.Set(ctx, key, value, expiration)]; the program does not look at
    the result. *)
Definition rdb_Set (key value : string) (expiration : Z) (w : World) : World * option error :=
  let w' := log (RedisSet key value expiration) w in
  match RedisSetErr env key with
  | Some msg => (w', Some (RedisError msg))
  | None =>
      ({| redis := <[key := (value, expiration)]> (redis w'); trace := trace w' |}, None)
  end.

(** [exec.Command(name, args...).Output()] *)
Definition cmd_Output (name : string) (args : list string) (w : World)
    : World * (string * option error) :=
  let '(chunks, err) := RunProcess env name args in
  (log (Exec name args) w,
   (fold_right String.append EmptyString chunks, exec_error <$> err)).

(** [cmd.Run()] with [cmd.Stdout = w]: what the process writes goes to
    the response as it comes. *)
Definition cmd_Run (name : string) (args : list string) (rw : ResponseWriter) (w : World)
    : World * ResponseWriter * option error :=
  let '(chunks, err) := RunProcess env name args in
  (log (Exec name args) w, fold_left (fun rw c => Write (Bytes c) rw) chunks rw,
   exec_error <$> err).

(** The body of the loop of lines 244 to 264. *)
Definition appendMedia (videoResp : VideoResponse) (f : YTDLP.FormatEntry) : VideoResponse :=
  if String.eqb (YTDLP.FormatID f) "" then videoResp
  else if String.eqb (YTDLP.Vcodec f) "none" && String.eqb (YTDLP.Acodec f) "none"
  then videoResp
  else
    setMedias videoResp
      (append (Medias videoResp)
         {| FormatID := YTDLP.FormatID f;
            Quality := YTDLP.Format f;
            Width := YTDLP.Width f;
            Height := YTDLP.Height f;
            Ext := YTDLP.Ext f |}).

(** Lines 236 to 264: the response built from the output of the tool. *)
Definition buildResponse (ytdlpData : YTDLP.YTDLPOutput) : VideoResponse :=
  let videoResp :=
    {| URL := YTDLP.WebpageURL ytdlpData;
       Source := "";
       ID := YTDLP.ID ytdlpData;
       Author := YTDLP.Uploader ytdlpData;
       Title := YTDLP.Title ytdlpData;
       Thumbnail := YTDLP.Thumbnail ytdlpData;
       Medias := nil_slice;
       Error := false |} in
  fold_left appendMedia (elems (YTDLP.Formats ytdlpData)) videoResp.

(** [fetchVideoMetaData]: the pointer and the error it returns, [None]
    for [nil]. *)
Definition fetchVideoMetaData (videoURL : string) (w : World)
    : World * (option VideoResponse * option error) :=
  match ParseRequestURI env videoURL with
  | inr msg => (w, (None, Some (UrlError msg)))
  | inl parsedURL =>
      if String.eqb (Scheme parsedURL) "" || String.eqb (Host parsedURL) "" then
        (* [return nil, err], where [err] is nil *)
        (w, (None, None))
      else
        let cacheKey := "video_meta:" +:+ videoURL in
        let '(w1, cached) := rdb_Get cacheKey w in
        let hit :=
          match cached with
          | Ok cacheData =>
              match Unmarshal cacheData with
              | Ok v => Some v
              | Err _ => None
              end
          | Err _ => None
          end in
        match hit with
        | Some v => (w1, (Some v, None))
        | None =>
            let '(w2, (output, err)) := cmd_Output "yt-dlp" ["-j"; videoURL] w1 in
            match err with
            | Some e => (w2, (None, Some e))
            | None =>
                match YTDLP.Unmarshal output with
                | Err e => (w2, (None, Some e))
                | Ok ytdlpData =>
                    let videoResp := buildResponse ytdlpData in
                    let cacheData := Marshal videoResp in
                    let '(w3, _) := rdb_Set cacheKey cacheData (5 * Minute) w2 in
                    (w3, (Some videoResp, None))
                end
            end
        end
  end.

(** The label of one option, lines 132 to 150. *)
Definition optionLabel (media : Media) : string :=
  let label := Quality media in
  if strings.Contains label "video only" || strings.Contains label "audio only" then
    let parts := strings.Split label " " in
    let res :=
      match find (fun p => strings.HasSuffix p "p" || strings.Contains p "x") parts with
      | Some p => p
      | None => EmptyString
      end in
    let res := if String.eqb res "" then json.FormatInt (Height media) +:+ "p" else res in
    if strings.Contains (Quality media) "audio only" then "Audio only" else res
  else label.

(** The handler of [/submit]. *)
Definition submitHandler (r : Request) (rw : ResponseWriter) (w : World)
    : World * ResponseWriter * outcome :=
  match ParseFormErr r with
  | Some _ => (w, http_Error "Error Parsing Form" StatusBadRequest rw, Returned)
  | None =>
      let videoURL := FormValue r "videoURL" in
      if String.eqb videoURL "" || negb (ValidateURL env videoURL) then
        (w, http_Error "Invalid or unsupported video URL" StatusBadRequest rw, Returned)
      else
        let '(w1, (videoData, err)) := fetchVideoMetaData videoURL w in
        match err with
        | Some e =>
            (w1, http_Error ("Error fetching video meta data: " +:+ ErrorText env e)
                   StatusInternalServerError rw, Returned)
        | None =>
            match videoData with
            | None =>
                (* [videoData.Title] on a nil pointer *)
                (w1, rw, Panicked "invalid memory address or nil pointer dereference")
            | Some videoData =>
                let sanitizedTitle := strings.ReplaceAll (Title videoData) "/" "-" in
                (* the arguments of the first [Fprintf] are evaluated
                   before anything is written *)
                match elems (Medias videoData) with
                | [] => (w1, rw, Panicked "index out of range [0] with length 0")
                | media0 :: _ =>
                    let rw1 :=
                      Write (Printf submitHead
                               [FormatID media0; URL videoData; Thumbnail videoData;
                                Title videoData; Author videoData]) rw in
                    let rw2 :=
                      fold_left
                        (fun rw media =>
                           Write (Printf submitOption [FormatID media; optionLabel media]) rw)
                        (elems (Medias videoData)) rw1 in
                    let rw3 := Write (Printf submitTail [sanitizedTitle]) rw2 in
                    (w1, rw3, Returned)
                end
            end
        end
  end.

(** The handler of [/download]. *)
Definition downloadHandler (r : Request) (rw : ResponseWriter) (w : World)
    : World * ResponseWriter * outcome :=
  let pageURL := Get (Query r) "url" in
  if String.eqb pageURL "" then
    (w, http_Error "Missing video page URL" StatusBadRequest rw, Returned)
  else
    let formatID := Get (Query r) "format" in
    if negb (isValidFormatID formatID) then
      (w, http_Error "Invalid format" StatusBadRequest rw, Returned)
    else
      let fileName := Get (Query r) "filename" in
      let fileName := if String.eqb fileName "" then "video.mp4" else fileName in
      let rw1 :=
        Header_Set "Content-Disposition"
          ("attachment; filename=" +:+ String json.dq (fileName +:+ String json.dq EmptyString))
          rw in
      let rw2 := Header_Set "Content-Type" "video/mp4" rw1 in
      let '(w1, rw3, err) :=
        cmd_Run "yt-dlp"
          ["-f"; formatID; "--merge-output-format"; "mp4"; "--prefer-ffmpeg";
           "--no-mtime"; "-o"; "-"; pageURL] rw2 w in
      match err with
      | Some _ =>
          (w1, http_Error "Failed to download video" StatusInternalServerError rw3, Returned)
      | None => (w1, rw3, Returned)
      end.

End Program.

(** ** The words of the specification *)

(** The error kinds of the specification are told apart by where the Go
    error comes from: [InvalidURL] from the URL parser,
    [ExtractionFailed] from running the tool, [MalformedMetadata] from
    decoding its output. *)
Definition InvalidURL (e : error) : Prop :=
  match e with UrlError _ => True | _ => False end.

Definition ExtractionFailed (e : error) : Prop :=
  match e with ExecError _ | ExitError _ => True | _ => False end.

Definition MalformedMetadata (e : error) : Prop :=
  match e with SyntaxError | UnmarshalTypeError _ => True | _ => False end.

(** An entry of the raw format list is kept when it has a format id
    and a stream: a codec is absent when the tool reports it as
    [none]. *)
Definition kept (f : YTDLP.FormatEntry) : bool :=
  negb (String.eqb (YTDLP.FormatID f) "") &&
  negb (String.eqb (YTDLP.Vcodec f) "none" && String.eqb (YTDLP.Acodec f) "none").

Definition mediaOf (f : YTDLP.FormatEntry) : Media :=
  {| FormatID := YTDLP.FormatID f;
     Quality := YTDLP.Format f;
     Width := YTDLP.Width f;
     Height := YTDLP.Height f;
     Ext := YTDLP.Ext f |}.

(** The URL passes the check of lines 212 to 215. *)
Definition accepted_url (env : Env) (videoURL : string) : Prop :=
  exists u, ParseRequestURI env videoURL = inl u /\ Scheme u <> "" /\ Host u <> "".

Definition cacheKey (videoURL : string) : string := "video_meta:" +:+ videoURL.

(** The lookup gives a payload that decodes to [v]: a cache hit. *)
Definition cache_hit (env : Env) (w : World) (videoURL : string) (v : VideoResponse) : Prop :=
  RedisGetErr env (cacheKey videoURL) = None /\
  exists payload expiration,
    redis w !! cacheKey videoURL = Some (payload, expiration) /\
    Unmarshal payload = Ok v.

(** The lookup gives nothing to return: the client fails, the key is
    missing, or the payload does not decode. *)
Definition cache_miss (env : Env) (w : World) (videoURL : string) : Prop :=
  (exists msg, RedisGetErr env (cacheKey videoURL) = Some msg) \/
  redis w !! cacheKey videoURL = None \/
  (exists payload expiration e,
     redis w !! cacheKey videoURL = Some (payload, expiration) /\
     Unmarshal payload = Err e).

(** The output of the tool for [videoURL]. *)
Definition tool_output (env : Env) (videoURL : string) : string * option process_error :=
  let '(chunks, err) := RunProcess env "yt-dlp" ["-j"; videoURL] in
  (fold_right String.append EmptyString chunks, err).

(** What follows a lookup that gives nothing to return. *)
Definition after_miss (env : Env) (videoURL : string) (w : World)
    : World * (option VideoResponse * option error) :=
  let w2 := log (Exec "yt-dlp" ["-j"; videoURL]) (log (RedisGet (cacheKey videoURL)) w) in
  match tool_output env videoURL with
  | (_, Some e) => (w2, (None, Some (exec_error e)))
  | (output, None) =>
      match YTDLP.Unmarshal output with
      | Err e => (w2, (None, Some e))
      | Ok ytdlpData =>
          let videoResp := buildResponse ytdlpData in
          (fst (rdb_Set env (cacheKey videoURL) (Marshal videoResp) (5 * Minute) w2),
           (Some videoResp, None))
      end
  end.

(** A Unicode scalar value: a code point that is not a surrogate. *)
Definition scalar (r : Z) : Prop :=
  0 <= r <= 0x10FFFF /\ ~ (0xD800 <= r <= 0xDFFF).

(** Well-formed UTF-8: the encodings of scalar values, one after the
    other. *)
Inductive valid_utf8 : string -> Prop :=
| valid_nil : valid_utf8 EmptyString
| valid_rune r t : scalar r -> valid_utf8 t -> valid_utf8 (utf8.EncodeRune r +:+ t).

(** The values the encoder writes for the types of the program: the
    numbers are integers as [FormatInt] writes them, the strings and the
    keys are well-formed UTF-8. *)
Fixpoint encoded (v : json.Value) : Prop :=
  match v with
  | json.Null | json.Bool _ => True
  | json.Number lit => exists i, lit = json.FormatInt i
  | json.Str s => valid_utf8 s
  | json.Array vs => fold_right (fun v P => encoded v /\ P) True vs
  | json.Object ms =>
      fold_right (fun m P => valid_utf8 (fst m) /\ encoded (snd m) /\ P) True ms
  end.

(** The number of nodes of a value, and how deep it nests. *)
Fixpoint size (v : json.Value) : nat :=
  match v with
  | json.Array vs => S (fold_right (fun v n => S (size v + n)) 0%nat vs)
  | json.Object ms => S (fold_right (fun m n => S (size (snd m) + n)) 0%nat ms)
  | _ => 1%nat
  end.

Fixpoint height (v : json.Value) : Z :=
  match v with
  | json.Array vs => 1 + fold_right (fun v n => Z.max (height v) n) 0 vs
  | json.Object ms => 1 + fold_right (fun m n => Z.max (height (snd m)) n) 0 ms
  | _ => 0
  end.

Fixpoint all_digits (s : string) : Prop :=
  match s with
  | EmptyString => True
  | String c s' => json.isDigit c = true /\ all_digits s'
  end.

(** What may follow a number: not a character that continues it. *)
Definition number_end (k : string) : Prop :=
  match k with
  | EmptyString => True
  | String c _ =>
      json.isDigit c = false /\ c <> "."%char /\ c <> "e"%char /\ c <> "E"%char
  end.

(** The parser reads the text of [v] back, with enough fuel and room to
    nest, whatever follows it. *)
Definition parses (v : json.Value) : Prop :=
  forall f d k,
    (size v <= f)%nat -> 0 <= d -> d + height v <= json.maxNestingDepth ->
    number_end k ->
    json.parse_value f d (json.print v k) = Some (v, k).

(** The same for the output of the tool, once decoded. *)
Definition well_formed_Format (f : YTDLP.FormatEntry) : bool :=
  utf8.ValidString (YTDLP.FormatID f) && utf8.ValidString (YTDLP.Ext f) &&
  utf8.ValidString (YTDLP.Format f) && is_int64 (YTDLP.Width f) &&
  is_int64 (YTDLP.Height f) && utf8.ValidString (YTDLP.Acodec f) &&
  utf8.ValidString (YTDLP.Vcodec f) && is_int64 (YTDLP.FPS f) &&
  is_int64 (YTDLP.Filesize f).

Definition well_formed_output (y : YTDLP.YTDLPOutput) : bool :=
  utf8.ValidString (YTDLP.ID y) && utf8.ValidString (YTDLP.Title y) &&
  utf8.ValidString (YTDLP.Uploader y) && utf8.ValidString (YTDLP.Thumbnail y) &&
  utf8.ValidString (YTDLP.WebpageURL y) &&
  forallb well_formed_Format (elems (YTDLP.Formats y)).

(** A response that Go can hold and whose strings are text: the integers
    are in the range of [int], the strings are valid UTF-8. *)
Definition well_formed_Media (m : Media) : bool :=
  utf8.ValidString (FormatID m) && utf8.ValidString (Quality m) &&
  is_int64 (Width m) && is_int64 (Height m) && utf8.ValidString (Ext m).

Definition well_formed (r : VideoResponse) : bool :=
  utf8.ValidString (URL r) && utf8.ValidString (Source r) && utf8.ValidString (ID r) &&
  utf8.ValidString (Author r) && utf8.ValidString (Title r) &&
  utf8.ValidString (Thumbnail r) && forallb well_formed_Media (elems (Medias r)).

(** The strings of a value are valid UTF-8. *)
Fixpoint text_ok (v : json.Value) : Prop :=
  match v with
  | json.Str s => valid_utf8 s
  | json.Array vs => fold_right (fun v P => text_ok v /\ P) True vs
  | json.Object ms => fold_right (fun m P => text_ok (snd m) /\ P) True ms
  | _ => True
  end.

(** The worlds the server can be in: it starts with an empty store, it
    serves requests, and entries of the store expire.  Nothing else
    writes to the store. *)
Inductive reachable : World -> Prop :=
| reachable_init : reachable {| redis := ∅; trace := [] |}
| reachable_fetch env videoURL w :
    reachable w -> reachable (fst (fetchVideoMetaData env videoURL w))
| reachable_submit env r rw w :
    reachable w -> reachable (fst (fst (submitHandler env r rw w)))
| reachable_download env r rw w :
    reachable w -> reachable (fst (fst (downloadHandler env r rw w)))
| reachable_expire key w :
    reachable w -> reachable {| redis := delete key (redis w); trace := trace w |}.

(** A payload that a fetch has written: the encoding of the response
    built from an output of the tool. *)
Definition written_by_fetch (payload : string) : Prop :=
  exists out ytdlpData,
    YTDLP.Unmarshal out = Ok ytdlpData /\ payload = Marshal (buildResponse ytdlpData).

Definition cache_inv (w : World) : Prop :=
  forall key payload expiration,
    redis w !! key = Some (payload, expiration) -> written_by_fetch payload.

(** A media of the response stands for an entry of the raw list that has
    a stream: a video codec or an audio codec that is not [none]. *)
Definition has_stream (ytdlpData : YTDLP.YTDLPOutput) (m : Media) : Prop :=
  exists f, In f (elems (YTDLP.Formats ytdlpData)) /\ m = mediaOf f /\
            (YTDLP.Vcodec f <> "none" \/ YTDLP.Acodec f <> "none").

(** ** Worlds for the examples *)

Module Example.

Fixpoint take_until (stop : ascii -> bool) (s : string) : string :=
  match s with
  | String c s' => if stop c then EmptyString else String c (take_until stop s')
  | EmptyString => EmptyString
  end.

(** A stand-in for [url.ParseRequestURI] on the inputs of the examples:
    an [https] URL with its host, a path that starts with a slash, which
    has no scheme and no host, and the error for anything else. *)
Definition parse (s : string) : url_URL + string :=
  match json.strip_prefix "https://" s with
  | Some r =>
      inl {| Scheme := "https";
             Host := take_until (fun c => Ascii.eqb c "/" || Ascii.eqb c "?") r |}
  | None =>
      match json.strip_prefix "/" s with
      | Some _ => inl {| Scheme := ""; Host := "" |}
      | None => inr "invalid URI for request"
      end
  end.

(** The tool writes [chunks] and ends with [err]; Redis works. *)
Definition env (chunks : list string) (err : option process_error) : Env :=
  {| ParseRequestURI := parse;
     ValidateURL := fun _ => true;
     ErrorText := fun _ => "error";
     RunProcess := fun _ _ => (chunks, err);
     RedisGetErr := fun _ => None;
     RedisSetErr := fun _ => None |}.

(** The same, with a Redis that fails every write. *)
Definition env_no_write (chunks : list string) (err : option process_error) : Env :=
  {| ParseRequestURI := parse;
     ValidateURL := fun _ => true;
     ErrorText := fun _ => "error";
     RunProcess := fun _ _ => (chunks, err);
     RedisGetErr := fun _ => None;
     RedisSetErr := fun _ => Some "connection refused" |}.

Definition init : World := {| redis := ∅; trace := [] |}.

Definition page : string := "https://example.com/watch?v=abc".

(** Single quotes stand for double quotes in the texts below. *)
Fixpoint q (s : string) : string :=
  match s with
  | String c s' => String (if Ascii.eqb c "'" then json.dq else c) (q s')
  | EmptyString => EmptyString
  end.

(** The output of the scenario of the specification. *)
Definition demo : string :=
  q ("{'id':'abc','title':'Demo','uploader':'Me'," +:+
     "'webpage_url':'https://example.com/watch?v=abc','thumbnail':'http://x/img.jpg'," +:+
     "'formats':[{'format_id':'18','ext':'mp4','format':'360p','width':640," +:+
     "'height':360,'acodec':'aac','vcodec':'h264'}," +:+
     "{'format_id':'','ext':'mp4','format':'bad'}]}").

(** An output whose only format has no stream. *)
Definition no_stream : string :=
  q ("{'id':'abc','title':'Demo','webpage_url':'https://example.com/watch?v=abc'," +:+
     "'formats':[{'format_id':'sb0','ext':'mhtml','format':'storyboard'," +:+
     "'acodec':'none','vcodec':'none'}]}").

(** What [demo] and [no_stream] decode to. *)
Definition demo_output : YTDLP.YTDLPOutput :=
  {| YTDLP.ID := "abc"; YTDLP.Title := "Demo"; YTDLP.Uploader := "Me";
     YTDLP.Thumbnail := "http://x/img.jpg";
     YTDLP.WebpageURL := "https://example.com/watch?v=abc";
     YTDLP.Formats :=
       mk_slice
         [ {| YTDLP.FormatID := "18"; YTDLP.Ext := "mp4"; YTDLP.Format := "360p";
              YTDLP.Width := 640; YTDLP.Height := 360; YTDLP.Acodec := "aac";
              YTDLP.Vcodec := "h264"; YTDLP.FPS := 0; YTDLP.Filesize := 0 |};
           {| YTDLP.FormatID := ""; YTDLP.Ext := "mp4"; YTDLP.Format := "bad";
              YTDLP.Width := 0; YTDLP.Height := 0; YTDLP.Acodec := "";
              YTDLP.Vcodec := ""; YTDLP.FPS := 0; YTDLP.Filesize := 0 |} ] |}.

Definition no_stream_output : YTDLP.YTDLPOutput :=
  {| YTDLP.ID := "abc"; YTDLP.Title := "Demo"; YTDLP.Uploader := "";
     YTDLP.Thumbnail := "";
     YTDLP.WebpageURL := "https://example.com/watch?v=abc";
     YTDLP.Formats :=
       mk_slice
         [ {| YTDLP.FormatID := "sb0"; YTDLP.Ext := "mhtml"; YTDLP.Format := "storyboard";
              YTDLP.Width := 0; YTDLP.Height := 0; YTDLP.Acodec := "none";
              YTDLP.Vcodec := "none"; YTDLP.FPS := 0; YTDLP.Filesize := 0 |} ] |}.

(** The response of the scenario. *)
Definition demo_response : VideoResponse :=
  {| URL := "https://example.com/watch?v=abc";
     Source := "";
     ID := "abc";
     Author := "Me";
     Title := "Demo";
     Thumbnail := "http://x/img.jpg";
     Medias := mk_slice [ {| FormatID := "18"; Quality := "360p"; Width := 640;
                             Height := 360; Ext := "mp4" |} ];
     Error := false |}.

(** A response with a title that is not valid UTF-8: the byte 0xFF. *)
Definition bad_title : VideoResponse :=
  {| URL := ""; Source := ""; ID := ""; Author := ""; Title := String "255" EmptyString;
     Thumbnail := ""; Medias := nil_slice; Error := false |}.

(** A request of [/download] with these query values. *)
Definition download_request (pageURL formatID : string) : Request :=
  {| ParseFormErr := None; Form := [];
     Query := [("url", pageURL); ("format", formatID)] |}.

(** A request of [/submit] with this form value. *)
Definition submit_request (videoURL : string) : Request :=
  {| ParseFormErr := None; Form := [("videoURL", videoURL)]; Query := [] |}.

End Example.

(** ** More words for the statements *)

(** The arguments of the tool for a download, lines 186 to 194. *)
Definition downloadArgs (formatID pageURL : string) : list string :=
  ["-f"; formatID; "--merge-output-format"; "mp4"; "--prefer-ffmpeg"; "--no-mtime";
   "-o"; "-"; pageURL].

(** The header of a download, lines 183 and 184, over the header [h]. *)
Definition downloadHeader (fileName : string) (h : gmap string string) : gmap string string :=
  <["Content-Type" := "video/mp4"]>
    (<["Content-Disposition" :=
         "attachment; filename=" +:+ String json.dq (fileName +:+ String json.dq EmptyString)]> h).

(** The header that [http.Error] sends, over the header [h]. *)
Definition errorHeader (h : gmap string string) : gmap string string :=
  <["X-Content-Type-Options" := "nosniff"]>
    (<["Content-Type" := "text/plain; charset=utf-8"]> (delete "Content-Length" h)).

(** The line that [http.Error] writes. *)
Definition errorLine (msg : string) : chunk := Bytes (msg +:+ String "010" EmptyString).

(** What the program is seen to do, event by event: it reads and writes
    the store under keys of the form [video_meta:URL] only, what it
    writes is the encoding of a response built from an output of the
    tool, kept for five minutes, and the only program it runs is the tool,
    to describe a page or to download a format whose id passed the
    check. *)
Definition expected_event (e : event) : Prop :=
  match e with
  | RedisGet key => exists videoURL, key = cacheKey videoURL
  | RedisSet key value expiration =>
      (exists videoURL, key = cacheKey videoURL) /\
      written_by_fetch value /\ expiration = 5 * Minute
  | Exec name args =>
      name = "yt-dlp" /\
      ((exists videoURL, args = ["-j"; videoURL]) \/
       (exists formatID pageURL,
          args = downloadArgs formatID pageURL /\
          isValidFormatID formatID = true /\ pageURL <> ""))
  end.

(** An entry of the store that a later fetch will return as it was
    built: the key is the key of a page, the entry is kept for five
    minutes, and the payload decodes to a response of which it is the
    encoding. *)
Definition store_inv (w : World) : Prop :=
  forall key payload expiration,
    redis w !! key = Some (payload, expiration) ->
    (exists videoURL, key = cacheKey videoURL) /\
    expiration = 5 * Minute /\
    exists v, Unmarshal payload = Ok v /\ Marshal v = payload.

(** The options that the [/submit] handler writes, one for each media. *)
Definition optionOf (media : Media) : chunk :=
  Printf submitOption [FormatID media; optionLabel media].

(** [s] has [sub] in it. *)
Definition substring (sub s : string) : Prop := exists a b, s = a +:+ sub +:+ b.

(** [strings.Join(elems, sep)]: the program does not call it; it tells
    what [strings.Split] gives. *)
Fixpoint Join (elems : list string) (sep : string) : string :=
  match elems with
  | [] => EmptyString
  | [a] => a
  | a :: rest => a +:+ sep +:+ Join rest sep
  end.

(** ** More worlds for the examples *)

Module Scenario.

(** An output of the tool with a format whose id has a character that
    the check of [/download] refuses. *)
Definition dash : string :=
  Example.q ("{'id':'abc','title':'A/B','uploader':'Me'," +:+
     "'webpage_url':'https://example.com/watch?v=abc','thumbnail':'http://x/img.jpg'," +:+
     "'formats':[{'format_id':'dash=1','ext':'mp4','format':'137 - 1920x1080 (video only)'," +:+
     "'width':1920,'height':1080,'acodec':'none','vcodec':'avc1'}]}").

Definition dash_media : Media :=
  {| FormatID := "dash=1"; Quality := "137 - 1920x1080 (video only)"; Width := 1920;
     Height := 1080; Ext := "mp4" |}.

Definition dash_response : VideoResponse :=
  {| URL := "https://example.com/watch?v=abc";
     Source := "";
     ID := "abc";
     Author := "Me";
     Title := "A/B";
     Thumbnail := "http://x/img.jpg";
     Medias := mk_slice [dash_media];
     Error := false |}.

(** A request of [/download] with a file name. *)
Definition download_request (pageURL formatID fileName : string) : Request :=
  {| ParseFormErr := None; Form := [];
     Query := [("url", pageURL); ("filename", fileName); ("format", formatID)] |}.

(** A world in which the store holds the response of the first scenario
    for its page. *)
Definition cached : World :=
  {| redis := {[ cacheKey Example.page := (Marshal Example.demo_response, 5 * Minute) ]};
     trace := [] |}.

(** An environment whose [utils.ValidateURL] lets through the page of
    the examples and nothing else. *)
Definition env_strict (chunks : list string) (err : option process_error) : Env :=
  {| ParseRequestURI := Example.parse;
     ValidateURL := String.eqb Example.page;
     ErrorText := fun _ => "error";
     RunProcess := fun _ _ => (chunks, err);
     RedisGetErr := fun _ => None;
     RedisSetErr := fun _ => None |}.

End Scenario.

(** * Proofs *)

(** ** The format-id check *)

Lemma byte_in_spec lo hi c :
  byte_in lo hi c = true <-> (N_of_ascii lo <= N_of_ascii c <= N_of_ascii hi)%N.
Proof.
  unfold byte_in, byte_le.
  rewrite andb_true_iff, !N.leb_le. tauto.
Qed.

Lemma byte_single a c : byte_in a a c = true <-> c = a.
Proof.
  rewrite byte_in_spec. split.
  - intros [H1 H2]. rewrite <- (ascii_N_embedding c), <- (ascii_N_embedding a).
    f_equal. lia.
  - intros ->. lia.
Qed.

Lemma inClass_formatID c :
  inClass [("a", "z"); ("A", "Z"); ("0", "9"); ("+", "+"); ("_", "_"); ("-", "-")]%char c = true
  <-> pattern_char c.
Proof.
  unfold inClass, pattern_char. cbn [existsb fst snd].
  rewrite !orb_true_iff, !byte_single, !byte_in_spec.
  change (N_of_ascii "a") with 97%N. change (N_of_ascii "z") with 122%N.
  change (N_of_ascii "A") with 65%N. change (N_of_ascii "Z") with 90%N.
  change (N_of_ascii "0") with 48%N. change (N_of_ascii "9") with 57%N.
  intuition discriminate.
Qed.

Lemma star_loop_class ranges n b s :
  (len s <= n)%nat ->
  star_loop (matchFrom (OpCharClass ranges)) n b s
    (fun b' s' => matchFrom OpEndText b' s' (fun _ _ => true))
  = forallb (inClass ranges) (bytes s).
Proof.
  revert b s. induction n as [|n IH]; intros b [|c s] Hn; cbn in *; try reflexivity; try lia.
  destruct (inClass ranges c); cbn; [|reflexivity].
  rewrite Nat.leb_refl. cbn. apply IH. lia.
Qed.

Lemma search_not_bot r s : search (OpConcat OpBeginText r) false s = false.
Proof. induction s as [|c s IH]; cbn; auto. Qed.

Lemma MatchString_formatID s :
  MatchString formatIDRegex s =
  match s with
  | EmptyString => false
  | String _ _ =>
      forallb (inClass [("a", "z"); ("A", "Z"); ("0", "9"); ("+", "+"); ("_", "_"); ("-", "-")]%char)
        (bytes s)
  end.
Proof.
  unfold MatchString, formatIDRegex. destruct s as [|c s]; [reflexivity|].
  cbn [search]. rewrite search_not_bot, orb_false_r.
  cbn [matchFrom andb bytes forallb]. f_equal.
  apply star_loop_class. lia.
Qed.

Lemma isValidFormatID_spec s : isValidFormatID s = true <-> matches_pattern s.
Proof.
  unfold isValidFormatID, matches_pattern. rewrite MatchString_formatID.
  destruct s as [|c s].
  - cbn. split; [discriminate | intros [H _]; congruence].
  - change (negb (String c s =? "")%string) with true. cbn [andb].
    rewrite forallb_forall, Forall_forall. split.
    + intros H. split; [discriminate|]. intros x Hx.
      apply inClass_formatID, H. by apply list_elem_of_In.
    + intros [_ H] x Hx. apply inClass_formatID, H. by apply list_elem_of_In.
Qed.

(** C2: [isValidFormatID] returns true on every string of the language of
    [^[A-Za-z0-9+_-]+$], and false on every string that holds a character
    outside the set and on the empty string. *)
Theorem isValidFormatID_pattern :
  (forall s, matches_pattern s -> isValidFormatID s = true) /\
  (forall s, Exists (fun c => ~ pattern_char c) (bytes s) -> isValidFormatID s = false) /\
  isValidFormatID "" = false.
Proof.
  split; [|split].
  - intros s H. by apply isValidFormatID_spec.
  - intros s H. apply not_true_is_false. intros Hv.
    apply isValidFormatID_spec in Hv as [_ Hall].
    apply Exists_exists in H as (c & Hc & Hn). rewrite Forall_forall in Hall. auto.
  - reflexivity.
Qed.

(** ** The metadata fetcher, path by path *)

Section Fetch.

Context (env : Env).

Lemma fetch_unparsed videoURL w msg :
  ParseRequestURI env videoURL = inr msg ->
  fetchVideoMetaData env videoURL w = (w, (None, Some (UrlError msg))).
Proof. intros H. unfold fetchVideoMetaData. by rewrite H. Qed.

Lemma fetch_no_scheme_or_host videoURL w u :
  ParseRequestURI env videoURL = inl u ->
  Scheme u = "" \/ Host u = "" ->
  fetchVideoMetaData env videoURL w = (w, (None, None)).
Proof.
  intros H Hu. unfold fetchVideoMetaData. rewrite H.
  destruct Hu as [-> | ->]; [reflexivity|].
  by rewrite String.eqb_refl, orb_true_r.
Qed.

Lemma accepted_url_check videoURL :
  accepted_url env videoURL ->
  exists u, ParseRequestURI env videoURL = inl u /\
            (String.eqb (Scheme u) "" || String.eqb (Host u) "") = false.
Proof.
  intros (u & Hp & Hs & Hh). exists u. split; [done|].
  apply orb_false_iff. split; by apply String.eqb_neq.
Qed.

Lemma fetch_hit videoURL w v :
  accepted_url env videoURL ->
  cache_hit env w videoURL v ->
  fetchVideoMetaData env videoURL w = (log (RedisGet (cacheKey videoURL)) w, (Some v, None)).
Proof.
  intros (u & Hp & Hc)%accepted_url_check (Hg & payload & ex & Hl & Hv).
  unfold fetchVideoMetaData, rdb_Get. fold (cacheKey videoURL).
  by rewrite Hp, Hc, Hg, Hl, Hv.
Qed.

Lemma fetch_miss videoURL w :
  accepted_url env videoURL ->
  cache_miss env w videoURL ->
  fetchVideoMetaData env videoURL w = after_miss env videoURL w.
Proof.
  intros (u & Hp & Hc)%accepted_url_check Hm.
  unfold fetchVideoMetaData, after_miss, tool_output, rdb_Get, cmd_Output.
  fold (cacheKey videoURL). rewrite Hp, Hc.
  assert (Hrest : forall w1 : World,
    (let '(w2, (output, err)) :=
       let '(chunks, err) := RunProcess env "yt-dlp" ["-j"; videoURL] in
       (log (Exec "yt-dlp" ["-j"; videoURL]) w1,
        (fold_right String.append EmptyString chunks, exec_error <$> err)) in
     match err with
     | Some e => (w2, (None, Some e))
     | None =>
         match YTDLP.Unmarshal output with
         | Err e => (w2, (None, Some e))
         | Ok ytdlpData =>
             let videoResp := buildResponse ytdlpData in
             let cacheData := Marshal videoResp in
             let '(w3, _) := rdb_Set env (cacheKey videoURL) cacheData (5 * Minute) w2 in
             (w3, (Some videoResp, None))
         end
     end) =
    (let w2 := log (Exec "yt-dlp" ["-j"; videoURL]) w1 in
     match (let '(chunks, err) := RunProcess env "yt-dlp" ["-j"; videoURL] in
            (fold_right String.append EmptyString chunks, err)) with
     | (_, Some e) => (w2, (None, Some (exec_error e)))
     | (output, None) =>
         match YTDLP.Unmarshal output with
         | Err e => (w2, (None, Some e))
         | Ok ytdlpData =>
             let videoResp := buildResponse ytdlpData in
             (fst (rdb_Set env (cacheKey videoURL) (Marshal videoResp) (5 * Minute) w2),
              (Some videoResp, None))
         end
     end)).
  { intros w1. destruct (RunProcess env "yt-dlp" ["-j"; videoURL]) as [chunks [e|]]; cbn.
    - reflexivity.
    - destruct (YTDLP.Unmarshal _); [|reflexivity]. cbn.
      by destruct (rdb_Set _ _ _ _ _). }
  destruct Hm as [(msg & Hg) | [Hn | (payload & ex & e & Hl & He)]].
  - rewrite Hg. apply Hrest.
  - rewrite Hn. destruct (RedisGetErr env (cacheKey videoURL)); apply Hrest.
  - destruct (RedisGetErr env (cacheKey videoURL)); [apply Hrest|].
    rewrite Hl, He. apply Hrest.
Qed.

End Fetch.

(** ** The examples *)

Lemma page_accepted chunks err : accepted_url (Example.env chunks err) Example.page.
Proof.
  eexists. split; [reflexivity|]. split; vm_compute; discriminate.
Qed.

Lemma page_accepted_no_write chunks err :
  accepted_url (Example.env_no_write chunks err) Example.page.
Proof.
  eexists. split; [reflexivity|]. split; vm_compute; discriminate.
Qed.

Lemma init_miss env videoURL : cache_miss env Example.init videoURL.
Proof. right. left. apply lookup_empty. Qed.

(** ** The claims on the fetcher *)

(** C4: on a cache hit whose payload decodes, [fetchVideoMetaData]
    returns the decoded value at once: the only thing it does is the read
    under the key ["video_meta:" + URL]; the tool is not run, nothing is
    written, and the store, expirations included, is as it was. *)
Theorem fetch_cache_hit env videoURL w v :
  accepted_url env videoURL ->
  cache_hit env w videoURL v ->
  exists w',
    fetchVideoMetaData env videoURL w = (w', (Some v, None)) /\
    trace w' = trace w ++ [RedisGet ("video_meta:" +:+ videoURL)] /\
    redis w' = redis w.
Proof.
  intros Ha Hh. eexists. split; [by apply fetch_hit|]. split; reflexivity.
Qed.

(** C5, what the code does: an input that does not parse is rejected
    with the error of the parser, before anything else is done; an input
    that parses with an empty scheme or an empty host is rejected too, but
    with a nil error next to the nil result. *)
Theorem fetch_rejected_url env videoURL w :
  (forall msg, ParseRequestURI env videoURL = inr msg ->
     fetchVideoMetaData env videoURL w = (w, (None, Some (UrlError msg))) /\
     InvalidURL (UrlError msg)) /\
  (forall u, ParseRequestURI env videoURL = inl u ->
     Scheme u = "" \/ Host u = "" ->
     fetchVideoMetaData env videoURL w = (w, (None, None))).
Proof.
  split.
  - intros msg H. split; [by apply fetch_unparsed | exact I].
  - intros u H Hu. by eapply fetch_no_scheme_or_host.
Qed.

(** C6, as amended: after a lookup that gives nothing to return, a tool
    that does not start or exits non-zero makes the fetch fail with the
    error of the process; a tool that exits with status zero and no output
    makes it fail with the syntax error of the JSON decoder, the error of
    an output that cannot be decoded. *)
Theorem fetch_tool_failure env videoURL w :
  accepted_url env videoURL ->
  cache_miss env w videoURL ->
  (forall out e, tool_output env videoURL = (out, Some e) ->
     exists w', fetchVideoMetaData env videoURL w = (w', (None, Some (exec_error e))) /\
                ExtractionFailed (exec_error e)) /\
  (tool_output env videoURL = (EmptyString, None) ->
     exists w', fetchVideoMetaData env videoURL w = (w', (None, Some SyntaxError)) /\
                MalformedMetadata SyntaxError /\ ~ ExtractionFailed SyntaxError).
Proof.
  intros Ha Hm. split.
  - intros out e Ht. eexists. split.
    + rewrite fetch_miss by done. unfold after_miss. rewrite Ht. reflexivity.
    + by destruct e.
  - intros Ht. eexists. split; [|split; [exact I | intros []]].
    rewrite fetch_miss by done. unfold after_miss. rewrite Ht. reflexivity.
Qed.

(** C8: a fresh fetch that succeeds writes the encoded response under
    the key ["video_meta:" + URL] with an expiration of five minutes, and
    returns the response whether the write succeeds or fails. *)
Theorem fresh_fetch_writes_cache env videoURL w out ytdlpData :
  accepted_url env videoURL ->
  cache_miss env w videoURL ->
  tool_output env videoURL = (out, None) ->
  YTDLP.Unmarshal out = Ok ytdlpData ->
  let key := "video_meta:" +:+ videoURL in
  let videoResp := buildResponse ytdlpData in
  exists w',
    fetchVideoMetaData env videoURL w = (w', (Some videoResp, None)) /\
    trace w' = trace w ++ [RedisGet key; Exec "yt-dlp" ["-j"; videoURL];
                           RedisSet key (Marshal videoResp) (5 * 60 * 1000000000)] /\
    (RedisSetErr env key = None ->
       redis w' = <[key := (Marshal videoResp, 5 * 60 * 1000000000)]> (redis w)) /\
    (forall msg, RedisSetErr env key = Some msg -> redis w' = redis w).
Proof.
  intros Ha Hm Ht Hy key videoResp. eexists. split; [|split; [|split]].
  - rewrite fetch_miss by done. unfold after_miss. rewrite Ht, Hy. reflexivity.
  - unfold rdb_Set. fold key. destruct (RedisSetErr env (cacheKey videoURL)); cbn;
      by rewrite <- !app_assoc.
  - intros Hs. unfold rdb_Set, cacheKey. fold key. by rewrite Hs.
  - intros msg Hs. unfold rdb_Set, cacheKey. fold key. by rewrite Hs.
Qed.

(** ** The format list *)

Lemma kept_spec f :
  kept f = true <->
  YTDLP.FormatID f <> "" /\ ~ (YTDLP.Vcodec f = "none" /\ YTDLP.Acodec f = "none").
Proof.
  unfold kept. rewrite andb_true_iff, !negb_true_iff, andb_false_iff.
  rewrite !String.eqb_neq. split.
  - intros [H1 [H2 | H2]]; split; auto; intros [? ?]; contradiction.
  - intros [H1 H2]. split; [done|].
    destruct (String.eqb_spec (YTDLP.Vcodec f) "none"); [|by left].
    destruct (String.eqb_spec (YTDLP.Acodec f) "none"); [|by right].
    exfalso. auto.
Qed.

Lemma appendMedia_kept r f :
  appendMedia r f = if kept f then setMedias r (append (Medias r) (mediaOf f)) else r.
Proof.
  unfold appendMedia, kept.
  destruct (String.eqb (YTDLP.FormatID f) ""); [reflexivity|].
  by destruct (String.eqb (YTDLP.Vcodec f) "none" && String.eqb (YTDLP.Acodec f) "none").
Qed.

Lemma fold_appendMedia fs r :
  elems (Medias (fold_left appendMedia fs r)) =
  elems (Medias r) ++ map mediaOf (List.filter kept fs).
Proof.
  revert r. induction fs as [|f fs IH]; intros r; cbn [fold_left List.filter map].
  - by rewrite app_nil_r.
  - rewrite IH, appendMedia_kept. destruct (kept f); [|reflexivity].
    cbn. by rewrite <- app_assoc.
Qed.

Lemma buildResponse_elems ytdlpData :
  elems (Medias (buildResponse ytdlpData)) =
  map mediaOf (List.filter kept (elems (YTDLP.Formats ytdlpData))).
Proof. unfold buildResponse. by rewrite fold_appendMedia. Qed.

(** C3: the formats of the response are the entries of the raw list that
    have a format id and are not without both codecs, each turned into a
    media, in the order of the raw list: an entry with an empty
    [format_id] is left out, an entry whose [vcodec] and [acodec] are both
    [none] is left out, every other entry is there. *)
Theorem buildResponse_formats ytdlpData :
  elems (Medias (buildResponse ytdlpData)) =
  map mediaOf (List.filter kept (elems (YTDLP.Formats ytdlpData))) /\
  (forall f, kept f = false <->
     YTDLP.FormatID f = "" \/ (YTDLP.Vcodec f = "none" /\ YTDLP.Acodec f = "none")).
Proof.
  split.
  - apply buildResponse_elems.
  - intros f. unfold kept.
    rewrite andb_false_iff, !negb_false_iff, andb_true_iff, !String.eqb_eq. tauto.
Qed.

(** ** The handlers *)

(** C10: when the fetch succeeds on an output of the tool whose format
    list is empty or has no entry that is kept, the response has no
    medias, and the [/submit] handler, which reads [Medias[0]] without a
    check of the length, panics with an index out of range before it
    writes anything. *)
Theorem submit_index_out_of_range env r rw w videoURL out ytdlpData :
  ParseFormErr r = None ->
  FormValue r "videoURL" = videoURL ->
  videoURL <> "" ->
  ValidateURL env videoURL = true ->
  accepted_url env videoURL ->
  cache_miss env w videoURL ->
  tool_output env videoURL = (out, None) ->
  YTDLP.Unmarshal out = Ok ytdlpData ->
  List.filter kept (elems (YTDLP.Formats ytdlpData)) = [] ->
  exists w' videoData,
    fetchVideoMetaData env videoURL w = (w', (Some videoData, None)) /\
    elems (Medias videoData) = [] /\
    submitHandler env r rw w = (w', rw, Panicked "index out of range [0] with length 0").
Proof.
  intros Hf Hv Hne Hval Ha Hm Ht Hy Hk.
  assert (Hfetch : fetchVideoMetaData env videoURL w =
    (fst (rdb_Set env (cacheKey videoURL) (Marshal (buildResponse ytdlpData)) (5 * Minute)
            (log (Exec "yt-dlp" ["-j"; videoURL]) (log (RedisGet (cacheKey videoURL)) w))),
     (Some (buildResponse ytdlpData), None))).
  { rewrite fetch_miss by done. unfold after_miss. by rewrite Ht, Hy. }
  assert (Hnil : elems (Medias (buildResponse ytdlpData)) = []).
  { by rewrite buildResponse_elems, Hk. }
  eexists _, _. split; [exact Hfetch|]. split; [exact Hnil|].
  unfold submitHandler. rewrite Hf, Hv, Hval.
  apply String.eqb_neq in Hne. rewrite Hne. cbn [orb negb].
  rewrite Hfetch. by rewrite Hnil.
Qed.

Lemma downloadHandler_invalid env r rw w :
  isValidFormatID (Get (Query r) "format") = false ->
  downloadHandler env r rw w =
  (w,
   if String.eqb (Get (Query r) "url") ""
   then http_Error "Missing video page URL" StatusBadRequest rw
   else http_Error "Invalid format" StatusBadRequest rw,
   Returned).
Proof.
  intros Hbad. unfold downloadHandler.
  destruct (String.eqb (Get (Query r) "url") ""); [reflexivity|]. by rewrite Hbad.
Qed.

(** C1, as amended: a format id that fails the check never reaches the
    tool: the handler returns with the world as it was, nothing run and
    nothing looked up.  When the page URL is not empty the response is the
    error [Invalid format] with status 400; when it is empty the handler
    has answered [Missing video page URL] before it looks at the format. *)
Theorem download_invalid_format env r rw w :
  isValidFormatID (Get (Query r) "format") = false ->
  exists rw',
    downloadHandler env r rw w = (w, rw', Returned) /\
    (Get (Query r) "url" <> "" ->
       rw' = http_Error "Invalid format" StatusBadRequest rw) /\
    (Get (Query r) "url" = "" ->
       rw' = http_Error "Missing video page URL" StatusBadRequest rw).
Proof.
  intros Hbad. rewrite downloadHandler_invalid by done.
  eexists. split; [reflexivity|].
  destruct (String.eqb_spec (Get (Query r) "url") ""); split; congruence.
Qed.

(** The tool is run by the [/download] handler only behind the check. *)
Lemma download_exec_checked env r rw w w' rw' o :
  downloadHandler env r rw w = (w', rw', o) ->
  w' <> w ->
  isValidFormatID (Get (Query r) "format") = true.
Proof.
  intros Hd Hw. destruct (isValidFormatID (Get (Query r) "format")) eqn:Hv; [done|].
  rewrite downloadHandler_invalid in Hd by done. congruence.
Qed.

(** ** Bits and bytes *)

Lemma lor_add x k b :
  0 <= k -> x mod 2 ^ k = 0 -> 0 <= b < 2 ^ k -> Z.lor x b = x + b.
Proof.
  intros Hk Hx Hb.
  assert (Hland : Z.land x b = 0).
  { apply Z.bits_inj'. intros n Hn. rewrite Z.land_spec, Z.bits_0.
    destruct (Z.ltb_spec n k).
    - rewrite (Z.div_mod x (2 ^ k)) by lia. rewrite Hx, Z.add_0_r, Z.mul_comm.
      by rewrite Z.mul_pow2_bits_low.
    - destruct (Z.eq_dec b 0) as [-> | Hb0]; [by rewrite Z.bits_0, andb_false_r|].
      rewrite (Z.bits_above_log2 b n), andb_false_r; [done | lia |].
      apply Z.lt_le_trans with k; [|done]. apply Z.log2_lt_pow2; lia. }
  rewrite <- Z.lxor_lor by done. symmetry. by apply Z.add_nocarry_lxor.
Qed.

Lemma b2z_range c : 0 <= b2z c < 256.
Proof.
  unfold b2z. pose proof (N_ascii_bounded c). lia.
Qed.

Lemma z2b_b2z c : z2b (b2z c) = c.
Proof.
  unfold z2b. rewrite Z.mod_small by apply b2z_range.
  unfold b2z. by rewrite N2Z.id, ascii_N_embedding.
Qed.

Lemma b2z_z2b z : 0 <= z < 256 -> b2z (z2b z) = z.
Proof.
  intros Hz. unfold b2z, z2b. rewrite Z.mod_small by done.
  rewrite N_ascii_embedding by lia. lia.
Qed.

Lemma b2z_inj c d : b2z c = b2z d -> c = d.
Proof. intros H. by rewrite <- (z2b_b2z c), <- (z2b_b2z d), H. Qed.

Lemma eqb_b2z c d : Ascii.eqb c d = (b2z c =? b2z d).
Proof.
  destruct (Ascii.eqb_spec c d) as [-> | Hne].
  - by rewrite Z.eqb_refl.
  - symmetry. apply Z.eqb_neq. intros H. by apply Hne, b2z_inj.
Qed.

Ltac to_arith :=
  unfold utf8.maskx, utf8.mask2, utf8.mask3, utf8.mask4,
    utf8.tx, utf8.t2, utf8.t3, utf8.t4 in *;
  change 0x3F with (Z.ones 6) in *; change 0x1F with (Z.ones 5) in *;
  change 0x0F with (Z.ones 4) in *; change 0x07 with (Z.ones 3) in *;
  rewrite ?Z.land_ones, ?Z.shiftl_mul_pow2, ?Z.shiftr_div_pow2 in * by lia;
  change (2 ^ 3) with 8 in *; change (2 ^ 4) with 16 in *; change (2 ^ 5) with 32 in *;
  change (2 ^ 6) with 64 in *; change (2 ^ 12) with 4096 in *;
  change (2 ^ 18) with 262144 in *.

Lemma decode2_encode p0 b1 :
  0xC2 <= p0 <= 0xDF -> 0x80 <= b1 <= 0xBF ->
  let r := Z.lor (Z.shiftl (Z.land p0 utf8.mask2) 6) (Z.land b1 utf8.maskx) in
  0x80 <= r <= 0x7FF /\
  Z.lor utf8.t2 (Z.shiftr r 6) = p0 /\
  Z.lor utf8.tx (Z.land r utf8.maskx) = b1.
Proof.
  intros H0 H1 r. subst r. to_arith.
  rewrite (lor_add _ 6) by (change (2 ^ 6) with 64; Z.div_mod_to_equations; lia).
  set (r := p0 mod 32 * 64 + b1 mod 64).
  assert (Hr : r = (p0 - 192) * 64 + (b1 - 128)) by (subst r; Z.div_mod_to_equations; lia).
  rewrite (lor_add 192 6), (lor_add 128 6)
    by (change (2 ^ 6) with 64; Z.div_mod_to_equations; lia).
  Z.div_mod_to_equations. lia.
Qed.
Lemma decode3_encode p0 b1 b2 :
  0xE0 <= p0 <= 0xEF -> 0x80 <= b1 <= 0xBF -> 0x80 <= b2 <= 0xBF ->
  (p0 = 0xE0 -> 0xA0 <= b1) -> (p0 = 0xED -> b1 <= 0x9F) ->
  let r := Z.lor (Z.lor (Z.shiftl (Z.land p0 utf8.mask3) 12)
                        (Z.shiftl (Z.land b1 utf8.maskx) 6))
                 (Z.land b2 utf8.maskx) in
  0x800 <= r <= 0xFFFF /\ ~ (0xD800 <= r <= 0xDFFF) /\
  Z.lor utf8.t3 (Z.shiftr r 12) = p0 /\
  Z.lor utf8.tx (Z.land (Z.shiftr r 6) utf8.maskx) = b1 /\
  Z.lor utf8.tx (Z.land r utf8.maskx) = b2.
Proof.
  intros H0 H1 H2 HE0 HED r. subst r. to_arith.
  rewrite (lor_add (p0 mod 16 * 4096) 12) by (change (2 ^ 12) with 4096; Z.div_mod_to_equations; lia).
  rewrite (lor_add _ 6) by (change (2 ^ 6) with 64; Z.div_mod_to_equations; lia).
  set (r := p0 mod 16 * 4096 + b1 mod 64 * 64 + b2 mod 64).
  assert (Hr : r = (p0 - 224) * 4096 + (b1 - 128) * 64 + (b2 - 128))
    by (subst r; Z.div_mod_to_equations; lia).
  rewrite (lor_add 224 4) by (change (2 ^ 4) with 16; Z.div_mod_to_equations; lia).
  rewrite !(lor_add 128 6) by (change (2 ^ 6) with 64; Z.div_mod_to_equations; lia).
  Z.div_mod_to_equations. lia.
Qed.

Lemma decode4_encode p0 b1 b2 b3 :
  0xF0 <= p0 <= 0xF4 -> 0x80 <= b1 <= 0xBF -> 0x80 <= b2 <= 0xBF -> 0x80 <= b3 <= 0xBF ->
  (p0 = 0xF0 -> 0x90 <= b1) -> (p0 = 0xF4 -> b1 <= 0x8F) ->
  let r := Z.lor (Z.lor (Z.lor (Z.shiftl (Z.land p0 utf8.mask4) 18)
                               (Z.shiftl (Z.land b1 utf8.maskx) 12))
                        (Z.shiftl (Z.land b2 utf8.maskx) 6))
                 (Z.land b3 utf8.maskx) in
  0x10000 <= r <= 0x10FFFF /\
  Z.lor utf8.t4 (Z.shiftr r 18) = p0 /\
  Z.lor utf8.tx (Z.land (Z.shiftr r 12) utf8.maskx) = b1 /\
  Z.lor utf8.tx (Z.land (Z.shiftr r 6) utf8.maskx) = b2 /\
  Z.lor utf8.tx (Z.land r utf8.maskx) = b3.
Proof.
  intros H0 H1 H2 H3 HF0 HF4 r. subst r. to_arith.
  rewrite (lor_add (p0 mod 8 * 262144) 18)
    by (change (2 ^ 18) with 262144; Z.div_mod_to_equations; lia).
  rewrite (lor_add (p0 mod 8 * 262144 + b1 mod 64 * 4096) 12) by (change (2 ^ 12) with 4096; Z.div_mod_to_equations; lia).
  rewrite (lor_add _ 6) by (change (2 ^ 6) with 64; Z.div_mod_to_equations; lia).
  set (r := p0 mod 8 * 262144 + b1 mod 64 * 4096 + b2 mod 64 * 64 + b3 mod 64).
  assert (Hr : r = (p0 - 240) * 262144 + (b1 - 128) * 4096 + (b2 - 128) * 64 + (b3 - 128))
    by (subst r; Z.div_mod_to_equations; lia).
  rewrite (lor_add 240 3) by (change (2 ^ 3) with 8; Z.div_mod_to_equations; lia).
  rewrite !(lor_add 128 6) by (change (2 ^ 6) with 64; Z.div_mod_to_equations; lia).
  Z.div_mod_to_equations. lia.
Qed.

Lemma encode2_decode r :
  0x80 <= r <= 0x7FF ->
  let p0 := Z.lor utf8.t2 (Z.shiftr r 6) in
  let b1 := Z.lor utf8.tx (Z.land r utf8.maskx) in
  0xC2 <= p0 <= 0xDF /\ 0x80 <= b1 <= 0xBF /\
  Z.lor (Z.shiftl (Z.land p0 utf8.mask2) 6) (Z.land b1 utf8.maskx) = r.
Proof.
  intros Hr p0 b1. subst p0 b1. to_arith.
  rewrite (lor_add 192 6), (lor_add 128 6)
    by (change (2 ^ 6) with 64; Z.div_mod_to_equations; lia).
  rewrite (lor_add _ 6) by (change (2 ^ 6) with 64; Z.div_mod_to_equations; lia).
  Z.div_mod_to_equations. lia.
Qed.

Lemma encode3_decode r :
  0x800 <= r <= 0xFFFF -> ~ (0xD800 <= r <= 0xDFFF) ->
  let p0 := Z.lor utf8.t3 (Z.shiftr r 12) in
  let b1 := Z.lor utf8.tx (Z.land (Z.shiftr r 6) utf8.maskx) in
  let b2 := Z.lor utf8.tx (Z.land r utf8.maskx) in
  0xE0 <= p0 <= 0xEF /\ 0x80 <= b1 <= 0xBF /\ 0x80 <= b2 <= 0xBF /\
  (p0 = 0xE0 -> 0xA0 <= b1) /\ (p0 = 0xED -> b1 <= 0x9F) /\
  Z.lor (Z.lor (Z.shiftl (Z.land p0 utf8.mask3) 12) (Z.shiftl (Z.land b1 utf8.maskx) 6))
        (Z.land b2 utf8.maskx) = r.
Proof.
  intros Hr Hs p0 b1 b2. subst p0 b1 b2. to_arith.
  rewrite (lor_add 224 4) by (change (2 ^ 4) with 16; Z.div_mod_to_equations; lia).
  rewrite !(lor_add 128 6) by (change (2 ^ 6) with 64; Z.div_mod_to_equations; lia).
  rewrite (lor_add (_ * 4096) 12) by (change (2 ^ 12) with 4096; Z.div_mod_to_equations; lia).
  rewrite (lor_add _ 6) by (change (2 ^ 6) with 64; Z.div_mod_to_equations; lia).
  Z.div_mod_to_equations. lia.
Qed.

Lemma encode4_decode r :
  0x10000 <= r <= 0x10FFFF ->
  let p0 := Z.lor utf8.t4 (Z.shiftr r 18) in
  let b1 := Z.lor utf8.tx (Z.land (Z.shiftr r 12) utf8.maskx) in
  let b2 := Z.lor utf8.tx (Z.land (Z.shiftr r 6) utf8.maskx) in
  let b3 := Z.lor utf8.tx (Z.land r utf8.maskx) in
  0xF0 <= p0 <= 0xF4 /\ 0x80 <= b1 <= 0xBF /\ 0x80 <= b2 <= 0xBF /\ 0x80 <= b3 <= 0xBF /\
  (p0 = 0xF0 -> 0x90 <= b1) /\ (p0 = 0xF4 -> b1 <= 0x8F) /\
  Z.lor (Z.lor (Z.lor (Z.shiftl (Z.land p0 utf8.mask4) 18)
                      (Z.shiftl (Z.land b1 utf8.maskx) 12))
               (Z.shiftl (Z.land b2 utf8.maskx) 6))
        (Z.land b3 utf8.maskx) = r.
Proof.
  intros Hr p0 b1 b2 b3. subst p0 b1 b2 b3. to_arith.
  rewrite (lor_add 240 3) by (change (2 ^ 3) with 8; Z.div_mod_to_equations; lia).
  rewrite !(lor_add 128 6) by (change (2 ^ 6) with 64; Z.div_mod_to_equations; lia).
  rewrite (lor_add (_ * 262144) 18)
    by (change (2 ^ 18) with 262144; Z.div_mod_to_equations; lia).
  rewrite (lor_add (_ * 262144 + _) 12)
    by (change (2 ^ 12) with 4096; Z.div_mod_to_equations; lia).
  rewrite (lor_add _ 6) by (change (2 ^ 6) with 64; Z.div_mod_to_equations; lia).
  Z.div_mod_to_equations. lia.
Qed.

(** ** UTF-8: decoding and encoding are inverse on valid sequences *)

#[local] Arguments String.append : simpl nomatch.

Ltac case_cmp :=
  repeat match goal with
  | |- context [?a =? ?b] => destruct (Z.eqb_spec a b); try lia
  | |- context [?a <? ?b] => destruct (Z.ltb_spec a b); try lia
  | |- context [?a <=? ?b] => destruct (Z.leb_spec a b); try lia
  end.

Ltac name_bytes :=
  cbv beta zeta;
  repeat match goal with
  | |- context [z2b ?x] =>
      tryif is_var x then fail else (let v := fresh "v" in set (v := x) in *; clearbody v)
  end.

Lemma first_AS p0 : p0 < 0x80 -> utf8.first p0 = utf8.AS.
Proof. intros H. unfold utf8.first. by case_cmp. Qed.

Lemma first_2 p0 : 0xC2 <= p0 <= 0xDF -> utf8.first p0 = utf8.SZ 2 utf8.locb utf8.hicb.
Proof. intros H. unfold utf8.first. by case_cmp. Qed.

Lemma first_3 p0 :
  0xE0 <= p0 <= 0xEF ->
  utf8.first p0 = utf8.SZ 3 (if p0 =? 0xE0 then 0xA0 else utf8.locb)
                            (if p0 =? 0xED then 0x9F else utf8.hicb).
Proof. intros H. unfold utf8.first. by case_cmp. Qed.

Lemma first_4 p0 :
  0xF0 <= p0 <= 0xF4 ->
  utf8.first p0 = utf8.SZ 4 (if p0 =? 0xF0 then 0x90 else utf8.locb)
                            (if p0 =? 0xF4 then 0x8F else utf8.hicb).
Proof. intros H. unfold utf8.first. by case_cmp. Qed.

Lemma first_inv p0 :
  match utf8.first p0 with
  | utf8.AS => p0 < 0x80
  | utf8.XX => 0x80 <= p0
  | utf8.SZ sz lo hi =>
      (sz = 2%nat /\ 0xC2 <= p0 <= 0xDF) \/
      (sz = 3%nat /\ 0xE0 <= p0 <= 0xEF) \/
      (sz = 4%nat /\ 0xF0 <= p0 <= 0xF4)
  end.
Proof. unfold utf8.first. case_cmp; auto 10. Qed.

Lemma len_app s t : len (s +:+ t) = (len s + len t)%nat.
Proof. induction s as [|c s IH]; cbn; [done | by rewrite IH]. Qed.

Lemma drop_bytes_app s t : drop_bytes (len s) (s +:+ t) = t.
Proof. induction s as [|c s IH]; cbn; [by destruct t | done]. Qed.

Lemma take_bytes_app s t : take_bytes (len s) (s +:+ t) = s.
Proof. induction s as [|c s IH]; cbn; [by destruct t | by rewrite IH]. Qed.

Lemma app_assoc_s (s t u : string) : (s +:+ t) +:+ u = s +:+ (t +:+ u).
Proof. induction s as [|c s IH]; cbn; [done | by rewrite IH]. Qed.

Lemma app_nil_r_s (s : string) : s +:+ "" = s.
Proof. induction s as [|c s IH]; cbn; [done | by rewrite IH]. Qed.

Lemma take_drop_bytes n s : take_bytes n s +:+ drop_bytes n s = s.
Proof.
  revert s. induction n as [|n IH]; intros [|c s]; cbn; try done. by rewrite IH.
Qed.

(** The encoding of a scalar value decodes to it. *)
Lemma DecodeRune_EncodeRune r t :
  scalar r ->
  utf8.DecodeRune (utf8.EncodeRune r +:+ t) = (r, len (utf8.EncodeRune r)) /\
  (1 <= len (utf8.EncodeRune r) <= 4)%nat /\
  (len (utf8.EncodeRune r) = 1%nat <-> r < 0x80).
Proof.
  intros [Hr Hs]. unfold utf8.EncodeRune, utf8.MaxRune, utf8.surrogateMin, utf8.surrogateMax.
  cbv beta zeta.
  destruct (Z.leb_spec 0 r); [|lia]. cbn [andb orb].
  destruct (Z.leb_spec r 0x7F).
  { cbn. rewrite b2z_z2b by lia. rewrite first_AS by lia. repeat split; (lia || done). }
  destruct (Z.leb_spec r 0x7FF).
  { destruct (encode2_decode r) as (Ea & Eb & Hd); [lia|].
    name_bytes. cbn. rewrite !b2z_z2b by lia. rewrite first_2 by done.
    unfold utf8.locb, utf8.hicb. case_cmp. cbn. rewrite Hd. repeat split; lia. }
  destruct (Z.ltb_spec r 0); [lia|]. destruct (Z.ltb_spec 0x10FFFF r); [lia|].
  cbn [orb].
  destruct (Z.leb_spec 0xD800 r); destruct (Z.leb_spec r 0xDFFF); try lia; cbn [andb];
    destruct (Z.leb_spec r 0xFFFF); try lia.
  all: first
    [ destruct (encode3_decode r) as (Ea & Eb & Ec & HE0 & HED & Hd); [lia | lia |];
      name_bytes; cbn; rewrite !b2z_z2b by lia; rewrite first_3 by done;
      unfold utf8.locb, utf8.hicb; case_cmp; cbn; rewrite Hd; repeat split; lia
    | destruct (encode4_decode r) as (Ea & Eb & Ec & Ed & HF0 & HF4 & Hd); [lia|];
      name_bytes; cbn; rewrite !b2z_z2b by lia; rewrite first_4 by done;
      unfold utf8.locb, utf8.hicb; case_cmp; cbn; rewrite Hd; repeat split; lia ].
Qed.

Lemma first_XX p0 : 0x80 <= p0 < 0xC2 \/ 0xF5 <= p0 -> utf8.first p0 = utf8.XX.
Proof. intros H. unfold utf8.first. by case_cmp. Qed.

Lemma EncodeRune_2 r :
  0x80 <= r <= 0x7FF ->
  utf8.EncodeRune r =
  String (z2b (Z.lor utf8.t2 (Z.shiftr r 6)))
    (String (z2b (Z.lor utf8.tx (Z.land r utf8.maskx))) "").
Proof. intros H. unfold utf8.EncodeRune. by case_cmp. Qed.

Lemma EncodeRune_3 r :
  0x800 <= r <= 0xFFFF -> ~ (0xD800 <= r <= 0xDFFF) ->
  utf8.EncodeRune r =
  String (z2b (Z.lor utf8.t3 (Z.shiftr r 12)))
    (String (z2b (Z.lor utf8.tx (Z.land (Z.shiftr r 6) utf8.maskx)))
       (String (z2b (Z.lor utf8.tx (Z.land r utf8.maskx))) "")).
Proof.
  intros H Hs.
  unfold utf8.EncodeRune, utf8.MaxRune, utf8.surrogateMin, utf8.surrogateMax.
  by case_cmp.
Qed.

Lemma EncodeRune_4 r :
  0x10000 <= r <= 0x10FFFF ->
  utf8.EncodeRune r =
  String (z2b (Z.lor utf8.t4 (Z.shiftr r 18)))
    (String (z2b (Z.lor utf8.tx (Z.land (Z.shiftr r 12) utf8.maskx)))
       (String (z2b (Z.lor utf8.tx (Z.land (Z.shiftr r 6) utf8.maskx)))
          (String (z2b (Z.lor utf8.tx (Z.land r utf8.maskx))) ""))).
Proof.
  intros H.
  unfold utf8.EncodeRune, utf8.MaxRune, utf8.surrogateMin, utf8.surrogateMax.
  by case_cmp.
Qed.

(** What [DecodeRune] finds at the start of a string that is not empty:
    an ASCII byte, an invalid sequence, or the encoding of a scalar value
    of two bytes or more. *)
Lemma DecodeRune_cases c s :
  (b2z c < 0x80 /\ utf8.DecodeRune (String c s) = (b2z c, 1%nat)) \/
  (0x80 <= b2z c /\ utf8.DecodeRune (String c s) = (utf8.RuneError, 1%nat)) \/
  (0x80 <= b2z c /\
   exists r t, scalar r /\ 0x80 <= r /\ String c s = utf8.EncodeRune r +:+ t).
Proof.
  pose proof (b2z_range c) as Hc.
  assert (Hcases : b2z c < 0x80 \/ (0x80 <= b2z c < 0xC2 \/ 0xF5 <= b2z c) \/
                   0xC2 <= b2z c <= 0xDF \/ 0xE0 <= b2z c <= 0xEF \/
                   0xF0 <= b2z c <= 0xF4) by lia.
  destruct Hcases as [H | [H | [H | [H | H]]]].
  - left. split; [done|]. cbn. by rewrite first_AS.
  - right. left. split; [lia|]. cbn. by rewrite first_XX.
  - right. cbn. rewrite first_2 by done.
    destruct s as [|c1 s1]; [left; split; [lia | done]|].
    pose proof (b2z_range c1) as Hc1. cbn. unfold utf8.locb, utf8.hicb.
    destruct (Z.ltb_spec (b2z c1) 128); [left; split; [lia | done]|].
    destruct (Z.ltb_spec 191 (b2z c1)); [left; split; [lia | done]|].
    right. split; [lia|].
    destruct (decode2_encode (b2z c) (b2z c1)) as (Hr & E0 & E1); [lia | lia |].
    match type of Hr with _ <= ?r <= _ => exists r, s1 end.
    split; [|split; [exact (proj1 Hr)|]].
    + split; lia.
    + rewrite EncodeRune_2 by done. rewrite E0, E1, !z2b_b2z. reflexivity.
  - right. cbn. rewrite first_3 by done.
    destruct s as [|c1 s1]; [left; split; [lia | done]|].
    pose proof (b2z_range c1) as Hc1. cbn. unfold utf8.locb, utf8.hicb.
    destruct s1 as [|c2 s2].
    { left. split; [lia|]. by repeat case_match. }
    pose proof (b2z_range c2) as Hc2. cbn.
    destruct ((b2z c1 <? (if b2z c =? 224 then 160 else 128))
              || ((if b2z c =? 237 then 159 else 191) <? b2z c1)) eqn:Hb1;
      [left; split; [lia | done]|].
    destruct (Z.ltb_spec (b2z c2) 128); [left; split; [lia | done]|].
    destruct (Z.ltb_spec 191 (b2z c2)); [left; split; [lia | done]|].
    right. split; [lia|].
    apply orb_false_iff in Hb1 as [Hlo Hhi].
    apply Z.ltb_ge in Hlo, Hhi.
    destruct (decode3_encode (b2z c) (b2z c1) (b2z c2)) as (Hr & Hs & E0 & E1 & E2);
      try (intros; destruct (Z.eqb_spec (b2z c) 224); destruct (Z.eqb_spec (b2z c) 237); lia).
    match type of Hr with _ <= ?r <= _ => exists r, s2 end. split; [|split].
    + split; [lia | lia].
    + lia.
    + rewrite EncodeRune_3 by done. rewrite E0, E1, E2, !z2b_b2z. reflexivity.
  - right. cbn. rewrite first_4 by done.
    destruct s as [|c1 s1]; [left; split; [lia | done]|].
    pose proof (b2z_range c1) as Hc1. cbn. unfold utf8.locb, utf8.hicb.
    destruct s1 as [|c2 s2].
    { left. split; [lia|]. by repeat case_match. }
    pose proof (b2z_range c2) as Hc2.
    destruct s2 as [|c3 s3].
    { left. split; [lia|]. cbn. by repeat case_match. }
    pose proof (b2z_range c3) as Hc3. cbn.
    destruct ((b2z c1 <? (if b2z c =? 240 then 144 else 128))
              || ((if b2z c =? 244 then 143 else 191) <? b2z c1)) eqn:Hb1;
      [left; split; [lia | done]|].
    destruct (Z.ltb_spec (b2z c2) 128); [left; split; [lia | done]|].
    destruct (Z.ltb_spec 191 (b2z c2)); [left; split; [lia | done]|].
    destruct (Z.ltb_spec (b2z c3) 128); [left; split; [lia | done]|].
    destruct (Z.ltb_spec 191 (b2z c3)); [left; split; [lia | done]|].
    right. split; [lia|].
    apply orb_false_iff in Hb1 as [Hlo Hhi].
    apply Z.ltb_ge in Hlo, Hhi.
    destruct (decode4_encode (b2z c) (b2z c1) (b2z c2) (b2z c3))
      as (Hr & E0 & E1 & E2 & E3);
      try (intros; destruct (Z.eqb_spec (b2z c) 240); destruct (Z.eqb_spec (b2z c) 244); lia).
    match type of Hr with _ <= ?r <= _ => exists r, s3 end. split; [|split].
    + split; lia.
    + lia.
    + rewrite EncodeRune_4 by done. rewrite E0, E1, E2, E3, !z2b_b2z. reflexivity.
Qed.

Lemma EncodeRune_ascii r : 0 <= r < 0x80 -> utf8.EncodeRune r = String (z2b r) "".
Proof. intros H. unfold utf8.EncodeRune. by case_cmp. Qed.

Lemma scalar_ascii c : b2z c < 0x80 -> scalar (b2z c).
Proof. pose proof (b2z_range c) as Hb. intros H. split; lia. Qed.

Lemma valid_ascii c t : b2z c < 0x80 -> valid_utf8 t -> valid_utf8 (String c t).
Proof.
  intros Hc Ht. pose proof (b2z_range c) as Hb.
  replace (String c t) with (utf8.EncodeRune (b2z c) +:+ t).
  - constructor; [by apply scalar_ascii | done].
  - rewrite EncodeRune_ascii by lia. by rewrite z2b_b2z.
Qed.

(** Whatever [r] is, what [EncodeRune] writes is the encoding of a
    scalar value. *)
Lemma EncodeRune_invalid r :
  r < 0 \/ 0x10FFFF < r \/ 0xD800 <= r <= 0xDFFF ->
  utf8.EncodeRune r = utf8.EncodeRune utf8.RuneError.
Proof.
  intros H. unfold utf8.EncodeRune at 1. cbv beta zeta.
  unfold utf8.MaxRune, utf8.surrogateMin, utf8.surrogateMax.
  assert (E1 : (0 <=? r) && (r <=? 0x7F) = false) by (apply andb_false_iff; lia).
  assert (E2 : (0 <=? r) && (r <=? 0x7FF) = false) by (apply andb_false_iff; lia).
  assert (E3 : (r <? 0) || (0x10FFFF <? r) || ((0xD800 <=? r) && (r <=? 0xDFFF)) = true).
  { rewrite !orb_true_iff, andb_true_iff. lia. }
  by rewrite E1, E2, E3.
Qed.

Lemma EncodeRune_scalar r : exists r', scalar r' /\ utf8.EncodeRune r = utf8.EncodeRune r'.
Proof.
  destruct (Z.ltb_spec r 0); [|destruct (Z.ltb_spec 0x10FFFF r);
    [|destruct (Z.leb_spec 0xD800 r); [destruct (Z.leb_spec r 0xDFFF)|]]].
  1,2,3: exists utf8.RuneError; split; [split; unfold utf8.RuneError; lia|];
    apply EncodeRune_invalid; lia.
  all: exists r; split; [split; lia | done].
Qed.

Lemma valid_EncodeRune r t : valid_utf8 t -> valid_utf8 (utf8.EncodeRune r +:+ t).
Proof.
  intros Ht. destruct (EncodeRune_scalar r) as (r' & Hs & ->). by constructor.
Qed.

Lemma len_EncodeRune_pos r : (1 <= len (utf8.EncodeRune r))%nat.
Proof.
  destruct (EncodeRune_scalar r) as (r' & Hs & ->).
  by destruct (DecodeRune_EncodeRune r' "" Hs) as (_ & [? _] & _).
Qed.

(** One step of a loop over the runes of a valid string. *)
Lemma DecodeRune_valid r t :
  scalar r ->
  exists c s,
    utf8.EncodeRune r +:+ t = String c s /\
    utf8.DecodeRune (String c s) = (r, len (utf8.EncodeRune r)) /\
    ((r =? utf8.RuneError) && (len (utf8.EncodeRune r) =? 1)%nat) = false /\
    drop_bytes (len (utf8.EncodeRune r)) (String c s) = t /\
    take_bytes (len (utf8.EncodeRune r)) (String c s) = utf8.EncodeRune r /\
    (r < 0x80 -> c = z2b r /\ s = t /\ b2z c = r) /\
    (0x80 <= r -> 0x80 <= b2z c).
Proof.
  intros Hs. destruct (DecodeRune_EncodeRune r t Hs) as (Hd & Hl & H1).
  destruct (utf8.EncodeRune r +:+ t) as [|c s] eqn:E.
  { pose proof (len_app (utf8.EncodeRune r) t) as Hlen. rewrite E in Hlen. cbn in Hlen. lia. }
  exists c, s. split; [done|]. split; [done|]. split; [|split; [|split; [|split]]].
  - apply andb_false_iff. destruct (Nat.eqb_spec (len (utf8.EncodeRune r)) 1) as [E1|]; [|by right].
    left. apply Z.eqb_neq. apply H1 in E1. unfold utf8.RuneError. lia.
  - rewrite <- E. apply drop_bytes_app.
  - rewrite <- E. apply take_bytes_app.
  - intros Hr. destruct Hs as [Hs _]. rewrite EncodeRune_ascii in E by lia.
    cbn in E. injection E as <- <-. rewrite b2z_z2b by lia. done.
  - intros Hr. destruct (DecodeRune_cases c s) as [[Hc Hd'] | [[Hc _] | [Hc _]]]; try done.
    rewrite Hd in Hd'. injection Hd' as ->. lia.
Qed.

Lemma valid_fuel_of_valid s :
  valid_utf8 s -> forall n, (len s <= n)%nat -> utf8.valid_fuel n s = true.
Proof.
  induction 1 as [|r t Hs Ht IH]; intros n Hn.
  - by destruct n.
  - destruct (DecodeRune_valid r t Hs) as (c & s & E & Hd & Hne & Hdrop & _).
    rewrite len_app in Hn. pose proof (len_EncodeRune_pos r).
    rewrite E. destruct n as [|n]; [lia|].
    cbn [utf8.valid_fuel]. rewrite Hd, Hne, Hdrop. apply IH. lia.
Qed.

Lemma valid_of_valid_fuel n s : utf8.valid_fuel n s = true -> valid_utf8 s.
Proof.
  revert s. induction n as [|n IH]; intros [|c s] H; try constructor; try done.
  cbn [utf8.valid_fuel] in H.
  destruct (DecodeRune_cases c s) as [[Hc Hd] | [[Hc Hd] | (Hc & r & t & Hs & Hr & E)]].
  - rewrite Hd in H. apply valid_ascii; [done|].
    destruct ((b2z c =? utf8.RuneError) && (1 =? 1)%nat); [done|]. by apply IH.
  - rewrite Hd in H. by rewrite Z.eqb_refl in H.
  - rewrite E in H |- *.
    destruct (DecodeRune_valid r t Hs) as (c' & s' & E' & Hd & Hne & Hdrop & _).
    rewrite E' in H. rewrite Hd, Hne, Hdrop in H.
    constructor; [done | by apply IH].
Qed.

Lemma ValidString_spec s : utf8.ValidString s = true <-> valid_utf8 s.
Proof.
  split; [apply valid_of_valid_fuel|]. intros H. by apply valid_fuel_of_valid.
Qed.

(** ** Strings: what is quoted is unquoted to itself *)

Lemma scan_string_ascii c f rest :
  b2z c < 0x80 ->
  json.scan_string (S f)
    (if json.htmlSafeSet (b2z c) then String c rest else json.escape c rest) =
  '(t, r) ← json.scan_string f rest; Some (String c t, r).
Proof.
  intros Hc.
  destruct c as [b0 b1 b2 b3 b4 b5 b6 [|]].
  { exfalso. revert Hc. destruct b0, b1, b2, b3, b4, b5, b6; vm_compute; congruence. }
  clear Hc.
  destruct b0, b1, b2, b3, b4, b5, b6; reflexivity.
Qed.

Lemma b2z_dq : b2z json.dq = 34.
Proof. reflexivity. Qed.

Lemma b2z_bsl : b2z json.bsl = 92.
Proof. reflexivity. Qed.

Lemma scan_string_rune f r rest :
  scalar r -> 0x80 <= r ->
  json.scan_string (S f) (utf8.EncodeRune r +:+ rest) =
  '(t, r') ← json.scan_string f rest; Some (utf8.EncodeRune r +:+ t, r').
Proof.
  intros Hs Hr.
  destruct (DecodeRune_valid r rest Hs) as (c & s & E & Hd & Hne & Hdrop & Htake & _ & Hc).
  specialize (Hc Hr). rewrite E. cbn [json.scan_string].
  rewrite !eqb_b2z, b2z_dq, b2z_bsl.
  destruct (Z.eqb_spec (b2z c) 34); [lia|]. destruct (Z.eqb_spec (b2z c) 92); [lia|].
  destruct (Z.ltb_spec (b2z c) 0x20); [lia|].
  unfold utf8.RuneSelf. destruct (Z.ltb_spec (b2z c) 0x80); [lia|].
  by rewrite Hd, Hdrop.
Qed.

Lemma scan_string_u202x f r rest :
  r = 0x2028 \/ r = 0x2029 ->
  json.scan_string (S f)
    (String json.bsl (String "u" (String "2" (String "0" (String "2"
       (String (json.hex (Z.land r 0xF)) rest)))))) =
  '(t, r') ← json.scan_string f rest; Some (utf8.EncodeRune r +:+ t, r').
Proof. intros [-> | ->]; reflexivity. Qed.

Lemma appendString_loop_nil f k : json.appendString_loop f "" k = k.
Proof. by destruct f. Qed.

Lemma scan_appendString s :
  valid_utf8 s ->
  forall f1 f2 k,
    (len s <= f1)%nat -> (len s < f2)%nat ->
    json.scan_string f2 (json.appendString_loop f1 s (String json.dq k)) = Some (s, k).
Proof.
  induction 1 as [|r t Hs Ht IH]; intros f1 f2 k H1 H2.
  - rewrite appendString_loop_nil. destruct f2 as [|f2]; [cbn in H2; lia|]. reflexivity.
  - destruct (DecodeRune_valid r t Hs) as (c & s & E & Hd & Hne & Hdrop & Htake & Hlo & Hhi).
    rewrite len_app in H1, H2. pose proof (len_EncodeRune_pos r) as Hpos.
    destruct f1 as [|f1]; [lia|]. destruct f2 as [|f2]; [lia|].
    rewrite E. cbn [json.appendString_loop]. unfold utf8.RuneSelf.
    destruct (Z.ltb_spec r 0x80) as [Hr | Hr].
    + destruct (Hlo Hr) as (-> & -> & Hb). rewrite Hb.
      destruct (Z.ltb_spec r 0x80); [|lia].
      assert (Hc : b2z (z2b r) < 0x80) by lia.
      pose proof (scan_string_ascii (z2b r) f2
                    (json.appendString_loop f1 t (String json.dq k)) Hc) as Hstep.
      rewrite Hb in Hstep.
      destruct (json.htmlSafeSet r); rewrite Hstep, IH by lia; reflexivity.
    + specialize (Hhi Hr). destruct (Z.ltb_spec (b2z c) 0x80); [lia|].
      rewrite Hd, Hne, Hdrop, Htake, <- E.
      destruct (Z.eqb_spec r 0x2028) as [N1 | N1].
      { cbn [orb]. rewrite scan_string_u202x by auto. rewrite IH by lia. reflexivity. }
      destruct (Z.eqb_spec r 0x2029) as [N2 | N2].
      { cbn [orb]. rewrite scan_string_u202x by auto. rewrite IH by lia. reflexivity. }
      cbn [orb]. rewrite scan_string_rune by done. rewrite IH by lia. reflexivity.
Qed.

(** ** Integers: what is formatted is parsed to itself *)

Lemma isDigit_spec c : json.isDigit c = true <-> 48 <= b2z c <= 57.
Proof.
  unfold json.isDigit. rewrite byte_in_spec. unfold b2z.
  change (N_of_ascii "0") with 48%N. change (N_of_ascii "9") with 57%N. lia.
Qed.

Lemma isDigit_digit n : 0 <= n < 10 -> json.isDigit (z2b (48 + n)) = true.
Proof. intros H. apply isDigit_spec. rewrite b2z_z2b; lia. Qed.

Lemma all_digits_app s t : all_digits s -> all_digits t -> all_digits (s +:+ t).
Proof. induction s as [|c s IH]; cbn; [done | intros [? ?] ?; auto]. Qed.

Lemma digits_val_app s t a :
  json.digits_val (s +:+ t) a = a' ← json.digits_val s a; json.digits_val t a'.
Proof.
  revert a. induction s as [|c s IH]; intros a; cbn; [done|].
  destruct (json.isDigit c); [apply IH | done].
Qed.

Lemma one_digit n :
  0 <= n < 10 ->
  all_digits (String (z2b (48 + n)) "") /\
  json.digits_val (String (z2b (48 + n)) "") 0 = Some n /\
  (n = 0 -> z2b (48 + n) = "0"%char /\ "" = "") /\
  (0 < n -> 49 <= b2z (z2b (48 + n)) <= 57).
Proof.
  intros Hn. split; [|split; [|split]].
  - split; [by apply isDigit_digit | done].
  - cbn. rewrite isDigit_digit by lia. rewrite b2z_z2b by lia. f_equal. lia.
  - by intros ->.
  - intros Hpos. rewrite b2z_z2b by lia. lia.
Qed.

Lemma format_digits_S f n acc :
  json.format_digits (S f) n acc =
  if n <? 10 then String (z2b (48 + n mod 10)) acc
  else json.format_digits f (n / 10) (String (z2b (48 + n mod 10)) acc).
Proof. reflexivity. Qed.

(** The digits of [n], least significant last, in front of [acc]. *)
Lemma format_digits_spec f n acc :
  0 <= n < 2 ^ Z.of_nat (S f) ->
  exists d ds,
    json.format_digits (S f) n acc = String d ds +:+ acc /\
    all_digits (String d ds) /\
    json.digits_val (String d ds) 0 = Some n /\
    (n = 0 -> d = "0"%char /\ ds = "") /\
    (0 < n -> 49 <= b2z d <= 57).
Proof.
  revert n acc. induction f as [|f IH]; intros n acc Hn; rewrite format_digits_S.
  all: rewrite Nat2Z.inj_succ in Hn.
  all: rewrite Z.pow_succ_r in Hn by apply Nat2Z.is_nonneg.
  all: assert (Hmod : 0 <= n mod 10 < 10) by (apply Z.mod_pos_bound; lia).
  all: destruct (Z.ltb_spec n 10) as [Hlt | Hge].
  - rewrite Z.mod_small by lia. exists (z2b (48 + n)), "".
    split; [done|]. apply one_digit. lia.
  - exfalso. change (2 ^ Z.of_nat 0) with 1 in Hn. lia.
  - rewrite Z.mod_small by lia. exists (z2b (48 + n)), "".
    split; [done|]. apply one_digit. lia.
  - assert (Hdiv : 0 <= n / 10 < 2 ^ Z.of_nat (S f)).
    { split; [apply Z.div_pos; lia|]. apply Z.div_lt_upper_bound; lia. }
    destruct (IH (n / 10) (String (z2b (48 + n mod 10)) acc) Hdiv)
      as (d & ds & E & Hall & Hval & _ & Hpos).
    exists d, (ds +:+ String (z2b (48 + n mod 10)) "").
    split; [|split; [|split; [|split]]].
    + rewrite E. cbn. f_equal. by rewrite app_assoc_s.
    + change (all_digits ((String d ds) +:+ String (z2b (48 + n mod 10)) "")).
      apply all_digits_app; [done|]. split; [by apply isDigit_digit | done].
    + change (json.digits_val ((String d ds) +:+ String (z2b (48 + n mod 10)) "") 0 = Some n).
      rewrite digits_val_app, Hval. cbn. rewrite isDigit_digit by lia.
      rewrite b2z_z2b by lia. f_equal. Z.div_mod_to_equations. lia.
    + lia.
    + intros _. apply Hpos. Z.div_mod_to_equations. lia.
Qed.

Lemma format_digits_nat n acc :
  0 <= n ->
  exists d ds,
    json.format_digits (S (Z.to_nat (Z.log2 n))) n acc = String d ds +:+ acc /\
    all_digits (String d ds) /\
    json.digits_val (String d ds) 0 = Some n /\
    (n = 0 -> d = "0"%char /\ ds = "") /\
    (0 < n -> 49 <= b2z d <= 57).
Proof.
  intros Hn. apply format_digits_spec. split; [done|].
  rewrite Nat2Z.inj_succ, Z2Nat.id by apply Z.log2_nonneg.
  destruct (Z.eq_dec n 0) as [-> | Hne]; [done|].
  apply Z.log2_spec. lia.
Qed.

Lemma ParseInt_FormatInt i : is_int64 i = true -> json.ParseInt (json.FormatInt i) = Some i.
Proof.
  intros Hi. unfold json.FormatInt.
  destruct (Z.ltb_spec i 0) as [Hneg | Hpos].
  - destruct (format_digits_nat (- i) "") as (d & ds & E & Hall & Hval & _ & _); [lia|].
    rewrite E, app_nil_r_s. unfold json.ParseInt.
    change (Ascii.eqb "-" "-") with true. cbv iota beta. rewrite Hval. cbn.
    rewrite Z.opp_involutive, Hi. done.
  - destruct (format_digits_nat i "") as (d & ds & E & Hall & Hval & _ & _); [lia|].
    rewrite E, app_nil_r_s. unfold json.ParseInt.
    destruct Hall as [Hd _]. apply isDigit_spec in Hd.
    rewrite !eqb_b2z. change (b2z "-") with 45. change (b2z "+") with 43.
    destruct (Z.eqb_spec (b2z d) 45); [lia|]. destruct (Z.eqb_spec (b2z d) 43); [lia|].
    rewrite Hval. cbn. by rewrite Hi.
Qed.

Lemma span_digits_app ds k :
  all_digits ds -> number_end k -> json.span_digits (ds +:+ k) = (ds, k).
Proof.
  intros Hds Hk. induction ds as [|c ds IH]; cbn.
  - destruct k as [|c k]; [done|]. cbn. destruct Hk as [-> _]. done.
  - destruct Hds as [-> Hds]. by rewrite IH.
Qed.

Lemma scan_frac_end k : number_end k -> json.scan_frac k = Some ("", k).
Proof.
  destruct k as [|c k]; [done|]. intros (_ & Hdot & _). cbn.
  by destruct (Ascii.eqb_spec c ".").
Qed.

Lemma scan_exp_end k : number_end k -> json.scan_exp k = Some ("", k).
Proof.
  destruct k as [|c k]; [done|]. intros (_ & _ & He & HE). cbn.
  destruct (Ascii.eqb_spec c "e"); [done|]. by destruct (Ascii.eqb_spec c "E").
Qed.

(** What [FormatInt] writes: an optional minus sign, then a single zero
    or digits that start with a digit that is not zero. *)
Lemma FormatInt_shape i :
  exists d ds,
    json.FormatInt i = (if i <? 0 then String "-" (String d ds) else String d ds) /\
    all_digits (String d ds) /\
    (b2z d = 48 -> ds = "").
Proof.
  unfold json.FormatInt. destruct (Z.ltb_spec i 0) as [Hneg | Hpos].
  - destruct (format_digits_nat (- i) "") as (d & ds & E & Hall & _ & _ & Hd); [lia|].
    exists d, ds. rewrite E, app_nil_r_s. split; [done|]. split; [done|].
    intros H0. specialize (Hd ltac:(lia)). lia.
  - destruct (format_digits_nat i "") as (d & ds & E & Hall & _ & Hz & Hd); [lia|].
    exists d, ds. rewrite E, app_nil_r_s. split; [done|]. split; [done|].
    intros H0. destruct (Z.eq_dec i 0) as [-> | Hne]; [by apply Hz|].
    specialize (Hd ltac:(lia)). lia.
Qed.

Lemma scan_digits_shape d ds k :
  all_digits (String d ds) -> (b2z d = 48 -> ds = "") -> number_end k ->
  json.scan_number (String d ds +:+ k) = Some (String d ds, k).
Proof.
  intros [Hd Hds] Hz Hk. pose proof Hd as Hd'. apply isDigit_spec in Hd'.
  assert (Hm : Ascii.eqb d "-" = false).
  { rewrite eqb_b2z. change (b2z "-") with 45. apply Z.eqb_neq. lia. }
  unfold json.scan_number. cbn [String.append]. rewrite Hm.
  destruct (Ascii.eqb d "0") eqn:E0.
  - rewrite eqb_b2z in E0. change (b2z "0") with 48 in E0. apply Z.eqb_eq in E0.
    rewrite (Hz E0). cbn. rewrite scan_frac_end by done. cbn.
    rewrite scan_exp_end by done. done.
  - rewrite Hd, span_digits_app by done. cbn.
    rewrite scan_frac_end by done. cbn. rewrite scan_exp_end by done. cbn.
    by rewrite !app_nil_r_s.
Qed.

Lemma scan_number_FormatInt i k :
  number_end k -> json.scan_number (json.FormatInt i +:+ k) = Some (json.FormatInt i, k).
Proof.
  intros Hk. destruct (FormatInt_shape i) as (d & ds & -> & Hall & Hz).
  destruct (i <? 0); [|by apply scan_digits_shape].
  destruct Hall as [Hd Hds]. pose proof Hd as Hd'. apply isDigit_spec in Hd'.
  unfold json.scan_number. cbn [String.append].
  change (Ascii.eqb "-" "-") with true. cbv iota beta.
  destruct (Ascii.eqb d "0") eqn:E0.
  - rewrite eqb_b2z in E0. change (b2z "0") with 48 in E0. apply Z.eqb_eq in E0.
    rewrite (Hz E0). cbn. rewrite scan_frac_end by done. cbn.
    rewrite scan_exp_end by done. done.
  - rewrite Hd, span_digits_app by done. cbn.
    rewrite scan_frac_end by done. cbn. rewrite scan_exp_end by done. cbn.
    by rewrite !app_nil_r_s.
Qed.

(** ** The parser reads what the encoder writes *)

Lemma Value_ind' (P : json.Value -> Prop) :
  P json.Null ->
  (forall b, P (json.Bool b)) ->
  (forall lit, P (json.Number lit)) ->
  (forall s, P (json.Str s)) ->
  (forall vs, Forall P vs -> P (json.Array vs)) ->
  (forall ms, Forall (fun m => P (snd m)) ms -> P (json.Object ms)) ->
  forall v, P v.
Proof.
  intros HNull HBool HNumber HStr HArray HObject.
  fix IH 1. intros [| b | lit | s | vs | ms].
  - exact HNull.
  - apply HBool.
  - apply HNumber.
  - apply HStr.
  - apply HArray. revert vs. fix IHvs 1. intros [|v vs].
    + constructor.
    + constructor; [apply IH | apply IHvs].
  - apply HObject. revert ms. fix IHms 1. intros [|[key v] ms].
    + constructor.
    + constructor; [apply IH | apply IHms].
Qed.

Lemma len_appendString_loop_ge f s k : (len k <= len (json.appendString_loop f s k))%nat.
Proof.
  revert s. induction f as [|f IH]; intros s; [done|]. cbn [json.appendString_loop].
  destruct s as [|c s]; [done|].
  destruct (b2z c <? utf8.RuneSelf).
  - destruct (json.htmlSafeSet (b2z c)).
    + cbn. specialize (IH s). lia.
    + unfold json.escape. specialize (IH s). repeat case_match; cbn; lia.
  - destruct (utf8.DecodeRune (String c s)) as [r n].
    pose proof (IH s). pose proof (IH (drop_bytes n (String c s))).
    repeat case_match; cbn [len]; rewrite ?len_app; lia.
Qed.

Lemma len_escape c k : (len k < len (json.escape c k))%nat.
Proof. unfold json.escape. repeat case_match; cbn; lia. Qed.

Lemma len_appendString_loop s :
  valid_utf8 s ->
  forall f k, (len s <= f)%nat -> (len s + len k <= len (json.appendString_loop f s k))%nat.
Proof.
  induction 1 as [|r t Hs Ht IH]; intros f k Hf.
  - rewrite appendString_loop_nil. cbn. lia.
  - destruct (DecodeRune_valid r t Hs) as (c & s & E & Hd & Hne & Hdrop & Htake & Hlo & Hhi).
    rewrite len_app in Hf |- *. pose proof (len_EncodeRune_pos r) as Hpos.
    destruct f as [|f]; [lia|]. rewrite E. cbn [json.appendString_loop].
    unfold utf8.RuneSelf. specialize (IH f).
    destruct (Z.ltb_spec (b2z c) 0x80) as [Hc | Hc].
    + destruct (Z.ltb_spec r 0x80) as [Hr | Hr]; [|specialize (Hhi Hr); lia].
      destruct (Hlo Hr) as (-> & -> & Hb).
      assert (Hl : len (utf8.EncodeRune r) = 1%nat).
      { destruct Hs as [Hs _]. by rewrite EncodeRune_ascii by lia. }
      destruct (json.htmlSafeSet (b2z (z2b r))).
      * cbn. specialize (IH k). lia.
      * pose proof (len_escape (z2b r) (json.appendString_loop f t k)).
        specialize (IH k). lia.
    + rewrite Hd, Hne, Hdrop, Htake.
      assert (Hl : (len (utf8.EncodeRune r) <= 4)%nat).
      { by destruct (DecodeRune_EncodeRune r "" Hs) as (_ & [_ ?] & _). }
      destruct ((r =? 8232) || (r =? 8233)).
      * cbn. specialize (IH k). lia.
      * rewrite len_app. specialize (IH k). lia.
Qed.

(** A quoted string is read back, whatever follows it. *)
Lemma scan_appendString_full s k :
  valid_utf8 s ->
  json.scan_string
    (len (json.appendString_loop (len s) s (String json.dq k)))
    (json.appendString_loop (len s) s (String json.dq k)) = Some (s, k).
Proof.
  intros Hs. apply scan_appendString; [done | done |].
  pose proof (len_appendString_loop s Hs (len s) (String json.dq k)). cbn in *. lia.
Qed.

Lemma parse_elements_S f d s :
  json.parse_elements (S f) d s =
  '(v, r) ← json.parse_value f d s;
  match json.skip_space r with
  | String c r1 =>
      if Ascii.eqb c "," then
        '(vs, r2) ← json.parse_elements f d (json.skip_space r1);
        Some (v :: vs, r2)
      else if Ascii.eqb c "]" then Some ([v], r1)
      else None
  | EmptyString => None
  end.
Proof. reflexivity. Qed.

Lemma parse_members_S f d c s' :
  json.parse_members (S f) d (String c s') =
  if Ascii.eqb c json.dq then
    '(key, r) ← json.scan_string (len s') s';
    match json.skip_space r with
    | String c1 r1 =>
        if Ascii.eqb c1 ":" then
          '(v, r2) ← json.parse_value f d (json.skip_space r1);
          match json.skip_space r2 with
          | String c2 r3 =>
              if Ascii.eqb c2 "," then
                '(ms, r4) ← json.parse_members f d (json.skip_space r3);
                Some ((key, v) :: ms, r4)
              else if Ascii.eqb c2 "}" then Some ([(key, v)], r3)
              else None
          | EmptyString => None
          end
        else None
    | EmptyString => None
    end
  else None.
Proof. reflexivity. Qed.

Lemma parse_value_Array f d s' :
  json.parse_value (S f) d (String "[" s') =
  if json.maxNestingDepth <? d + 1 then None
  else
    match json.skip_space s' with
    | String c1 s1 =>
        if Ascii.eqb c1 "]" then Some (json.Array [], s1)
        else
          '(vs, r) ← json.parse_elements f (d + 1) (String c1 s1);
          Some (json.Array vs, r)
    | EmptyString => None
    end.
Proof. reflexivity. Qed.

Lemma parse_value_Object f d s' :
  json.parse_value (S f) d (String "{" s') =
  if json.maxNestingDepth <? d + 1 then None
  else
    match json.skip_space s' with
    | String c1 s1 =>
        if Ascii.eqb c1 "}" then Some (json.Object [], s1)
        else
          '(ms, r) ← json.parse_members f (d + 1) (String c1 s1);
          Some (json.Object ms, r)
    | EmptyString => None
    end.
Proof. reflexivity. Qed.

Lemma parse_value_Str f d s' :
  json.parse_value (S f) d (String json.dq s') =
  '(t, r) ← json.scan_string (len s') s'; Some (json.Str t, r).
Proof. reflexivity. Qed.

(** Evaluates the bytes of the literal characters of a goal. *)
Ltac byte_lia :=
  repeat match goal with
  | |- context [b2z ?c] =>
      is_ground c; let v := eval vm_compute in (b2z c) in change (b2z c) with v
  end;
  lia.

Lemma parse_value_Number f d c s' :
  Ascii.eqb c "-" || json.isDigit c = true ->
  json.parse_value (S f) d (String c s') =
  '(lit, r) ← json.scan_number (String c s'); Some (json.Number lit, r).
Proof.
  intros Hc.
  assert (H : b2z c = 45 \/ 48 <= b2z c <= 57).
  { apply orb_true_iff in Hc as [Hc | Hc].
    - rewrite eqb_b2z in Hc. apply Z.eqb_eq in Hc. by left.
    - right. by apply isDigit_spec. }
  assert (E : forall x, b2z x <> 45 -> ~ 48 <= b2z x <= 57 -> Ascii.eqb c x = false).
  { intros x H1 H2. rewrite eqb_b2z. apply Z.eqb_neq. lia. }
  change (json.parse_value (S f) d (String c s')) with
    (if Ascii.eqb c "{" then
       if json.maxNestingDepth <? d + 1 then None
       else
         match json.skip_space s' with
         | String c1 s1 =>
             if Ascii.eqb c1 "}" then Some (json.Object [], s1)
             else '(ms, r) ← json.parse_members f (d + 1) (String c1 s1);
                  Some (json.Object ms, r)
         | EmptyString => None
         end
     else if Ascii.eqb c "[" then
       if json.maxNestingDepth <? d + 1 then None
       else
         match json.skip_space s' with
         | String c1 s1 =>
             if Ascii.eqb c1 "]" then Some (json.Array [], s1)
             else '(vs, r) ← json.parse_elements f (d + 1) (String c1 s1);
                  Some (json.Array vs, r)
         | EmptyString => None
         end
     else if Ascii.eqb c json.dq then
       '(t, r) ← json.scan_string (len s') s'; Some (json.Str t, r)
     else if Ascii.eqb c "t" then r ← json.strip_prefix "rue" s'; Some (json.Bool true, r)
     else if Ascii.eqb c "f" then r ← json.strip_prefix "alse" s'; Some (json.Bool false, r)
     else if Ascii.eqb c "n" then r ← json.strip_prefix "ull" s'; Some (json.Null, r)
     else if Ascii.eqb c "-" || json.isDigit c then
       '(lit, r) ← json.scan_number (String c s'); Some (json.Number lit, r)
     else None).
  rewrite !E by byte_lia. by rewrite Hc.
Qed.

(** The text of a value starts with a character that is neither space
    nor a closing bracket. *)
Lemma print_first v k :
  encoded v ->
  exists c rest,
    json.print v k = String c rest /\ json.isSpace c = false /\
    Ascii.eqb c "]" = false /\ Ascii.eqb c "}" = false.
Proof.
  destruct v as [| [|] | lit | s | vs | ms]; intros He; try by eexists _, _.
  destruct He as [i ->]. destruct (FormatInt_shape i) as (d & ds & -> & [Hd _] & _).
  apply isDigit_spec in Hd.
  assert (E : forall x, ~ 48 <= b2z x <= 57 -> Ascii.eqb d x = false).
  { intros x H2. rewrite eqb_b2z. apply Z.eqb_neq. lia. }
  cbn [json.print]. destruct (i <? 0); cbn [String.append]; eexists _, _.
  - by split.
  - split; [done|]. unfold json.isSpace. rewrite !E by byte_lia. done.
Qed.

Lemma skip_space_print v k : encoded v -> json.skip_space (json.print v k) = json.print v k.
Proof.
  intros He. destruct (print_first v k He) as (c & rest & -> & Hs & _).
  cbn. by rewrite Hs.
Qed.

Lemma number_end_comma k : number_end (String "," k).
Proof. repeat split; discriminate. Qed.

Lemma number_end_bracket k : number_end (String "]" k).
Proof. repeat split; discriminate. Qed.

Lemma number_end_brace k : number_end (String "}" k).
Proof. repeat split; discriminate. Qed.

Lemma parse_print_elements vs :
  Forall (fun v => encoded v -> parses v) vs ->
  fold_right (fun v P => encoded v /\ P) True vs ->
  vs <> [] ->
  forall f d k,
    (fold_right (fun v n => S (size v + n)) 0%nat vs <= f)%nat ->
    0 <= d ->
    d + fold_right (fun v n => Z.max (height v) n) 0 vs <= json.maxNestingDepth ->
    json.parse_elements f d (json.print_elements json.print vs (String "]" k)) = Some (vs, k).
Proof.
  induction 1 as [|v vs Hv Hvs IH]; intros He Hne f d k Hf Hd Hh; [done|].
  destruct He as [He Hes]. cbn [fold_right] in Hf, Hh.
  destruct f as [|f]; [lia|]. rewrite parse_elements_S.
  cbn [json.print_elements]. destruct vs as [|v' vs].
  - rewrite (Hv He) by (done || lia || apply number_end_bracket). reflexivity.
  - rewrite (Hv He) by (done || lia || apply number_end_comma).
    cbn [mbind option_bind]. change (json.skip_space (String "," ?x)) with (String "," x).
    change (Ascii.eqb "," ",") with true. cbv iota.
    fold (json.print_elements json.print).
    assert (Hskip : forall K,
      json.skip_space (json.print_elements json.print (v' :: vs) K) =
      json.print_elements json.print (v' :: vs) K).
    { intros K. cbn [json.print_elements]. apply skip_space_print. apply Hes. }
    rewrite Hskip. rewrite IH; [done | done | done | lia | done | lia].
Qed.

Lemma parse_print_members ms :
  Forall (fun m => encoded (snd m) -> parses (snd m)) ms ->
  fold_right (fun m P => valid_utf8 (fst m) /\ encoded (snd m) /\ P) True ms ->
  ms <> [] ->
  forall f d k,
    (fold_right (fun m n => S (size (snd m) + n)) 0%nat ms <= f)%nat ->
    0 <= d ->
    d + fold_right (fun m n => Z.max (height (snd m)) n) 0 ms <= json.maxNestingDepth ->
    json.parse_members f d (json.print_members json.print ms (String "}" k)) = Some (ms, k).
Proof.
  induction 1 as [|[key v] ms Hv Hms IH]; intros He Hne f d k Hf Hd Hh; [done|].
  destruct He as (Hkey & He & Hes). cbn [fold_right fst snd] in *.
  destruct f as [|f]; [lia|].
  cbn [json.print_members]. unfold json.appendString at 1.
  rewrite parse_members_S. change (Ascii.eqb json.dq json.dq) with true. cbv iota.
  rewrite (scan_appendString_full key _ Hkey). cbn [mbind option_bind].
  change (json.skip_space (String ":" ?x)) with (String ":" x).
  change (Ascii.eqb ":" ":") with true. cbv iota.
  rewrite skip_space_print by done.
  destruct ms as [|[key' v'] ms].
  - rewrite (Hv He) by (done || lia || apply number_end_brace). reflexivity.
  - rewrite (Hv He) by (done || lia || apply number_end_comma).
    cbn [mbind option_bind]. change (json.skip_space (String "," ?x)) with (String "," x).
    change (Ascii.eqb "," ",") with true. cbv iota.
    fold (json.print_members json.print).
    assert (Hskip : forall K,
      json.skip_space (json.print_members json.print ((key', v') :: ms) K) =
      json.print_members json.print ((key', v') :: ms) K).
    { intros K. reflexivity. }
    rewrite Hskip. rewrite IH; [done | done | done | lia | done | lia].
Qed.

Lemma parse_print v : encoded v -> parses v.
Proof.
  induction v as [| b | lit | s | vs IHvs | ms IHms] using Value_ind';
    intros He f d k Hf Hd Hh Hk; (destruct f as [|f]; [cbn in Hf; lia|]).
  - reflexivity.
  - by destruct b.
  - destruct He as [i ->]. cbn [json.print].
    pose proof (scan_number_FormatInt i k Hk) as Hscan.
    destruct (FormatInt_shape i) as (c & ds & E & [Hc _] & _).
    destruct (json.FormatInt i +:+ k) as [|c0 rest] eqn:E0.
    { rewrite E in E0. by destruct (i <? 0). }
    rewrite parse_value_Number; [by rewrite Hscan|].
    rewrite E in E0. destruct (i <? 0); cbn in E0; injection E0 as <- _; [done|].
    by rewrite Hc, orb_true_r.
  - cbn [json.print]. unfold json.appendString. rewrite parse_value_Str.
    by rewrite scan_appendString_full.
  - cbn [json.print]. rewrite parse_value_Array. cbn [size height] in Hf, Hh.
    assert (Hfold : 0 <= fold_right (fun v n => Z.max (height v) n) 0 vs).
    { clear. induction vs; cbn; lia. }
    destruct (Z.ltb_spec json.maxNestingDepth (d + 1)); [lia|].
    destruct vs as [|v vs]; [reflexivity|].
    assert (Hfirst : exists c1 s1,
      json.print_elements json.print (v :: vs) (String "]" k) = String c1 s1 /\
      json.isSpace c1 = false /\ Ascii.eqb c1 "]" = false).
    { cbn [json.print_elements].
      destruct (print_first v (match vs with [] => String "]" k
                               | _ :: _ => String "," (json.print_elements json.print vs
                                                        (String "]" k)) end))
        as (c1 & s1 & E & Hs & Hb & _); [apply He|]. by exists c1, s1. }
    destruct Hfirst as (c1 & s1 & E & Hs & Hb). rewrite E.
    cbn [json.skip_space]. rewrite Hs, Hb, <- E.
    rewrite parse_print_elements; [done | done | done | done | lia | lia | lia].
  - cbn [json.print]. rewrite parse_value_Object. cbn [size height] in Hf, Hh.
    assert (Hfold : 0 <= fold_right (fun m n => Z.max (height (snd m)) n) 0 ms).
    { clear. induction ms; cbn; lia. }
    destruct (Z.ltb_spec json.maxNestingDepth (d + 1)); [lia|].
    destruct ms as [|[key v] ms]; [reflexivity|].
    change (json.skip_space (json.print_members json.print ((key, v) :: ms) (String "}" k)))
      with (json.print_members json.print ((key, v) :: ms) (String "}" k)).
    change (json.print_members json.print ((key, v) :: ms) (String "}" k)) with
      (String json.dq (json.appendString_loop (len key) key (String json.dq (String ":"
         (json.print v match ms with
                       | [] => String "}" k
                       | _ :: _ => String "," (json.print_members json.print ms (String "}" k))
                       end))))) at 1.
    cbv iota. change (Ascii.eqb json.dq "}") with false. cbv iota.
    change (String json.dq (json.appendString_loop (len key) key (String json.dq (String ":"
         (json.print v match ms with
                       | [] => String "}" k
                       | _ :: _ => String "," (json.print_members json.print ms (String "}" k))
                       end))))) with
      (json.print_members json.print ((key, v) :: ms) (String "}" k)).
    rewrite parse_print_members; [done | done | done | done | lia | lia | lia].
Qed.

Lemma len_print v : encoded v -> forall k, (len k + size v <= len (json.print v k))%nat.
Proof.
  induction v as [| b | lit | s | vs IHvs | ms IHms] using Value_ind'; intros He k.
  - cbn. lia.
  - destruct b; cbn; lia.
  - destruct He as [i ->]. destruct (FormatInt_shape i) as (c & ds & E & _).
    cbn [json.print size]. rewrite len_app, E. destruct (i <? 0); cbn; lia.
  - cbn [json.print size]. unfold json.appendString. cbn [len].
    pose proof (len_appendString_loop_ge (len s) s (String json.dq k)). cbn in *. lia.
  - cbn [json.print size len].
    enough (H : (len k + fold_right (fun v n => S (size v + n)) 0 vs <=
                 len (json.print_elements json.print vs (String "]" k)))%nat) by lia.
    revert He. induction IHvs as [|v vs Hv Hvs IH]; intros He; [cbn; lia|].
    destruct He as [He Hes]. cbn [fold_right json.print_elements].
    destruct vs as [|v' vs].
    + specialize (Hv He (String "]" k)). cbn in *. lia.
    + specialize (IH Hes).
      specialize (Hv He (String "," (json.print_elements json.print (v' :: vs) (String "]" k)))).
      cbn [len] in Hv. cbn [fold_right] in *. lia.
  - cbn [json.print size len].
    enough (H : (len k + fold_right (fun m n => S (size (snd m) + n)) 0 ms <=
                 len (json.print_members json.print ms (String "}" k)))%nat) by lia.
    revert He. induction IHms as [|[key v] ms Hv Hvs IH]; intros He; [cbn; lia|].
    destruct He as (_ & He & Hes). cbn [fold_right json.print_members fst snd] in *.
    unfold json.appendString. cbn [len].
    match goal with
    | |- context [json.appendString_loop ?f ?s ?K] =>
        pose proof (len_appendString_loop_ge f s K) as Hk
    end.
    cbn [len] in Hk.
    destruct ms as [|[key' v'] ms].
    + specialize (Hv He (String "}" k)). cbn in *. lia.
    + specialize (IH Hes).
      specialize (Hv He (String ","
        (json.print_members json.print ((key', v') :: ms) (String "}" k)))).
      cbn [len] in Hv. cbn [fold_right] in *. lia.
Qed.

(** The whole text of an encoded value parses to the value. *)
Lemma parse_print_top v :
  encoded v -> height v <= json.maxNestingDepth -> json.parse (json.print v "") = Some v.
Proof.
  intros He Hh. unfold json.parse. rewrite skip_space_print by done.
  rewrite (parse_print v He); [done | | done | lia | done].
  pose proof (len_print v He ""). cbn in *. lia.
Qed.

(** ** The response: what is encoded is decoded to itself *)

Lemma decode_encode_Media m cur :
  is_int64 (Width m) = true -> is_int64 (Height m) = true ->
  json.decode_struct media_fields cur (encode_Media m) = Ok m.
Proof.
  destruct m as [fid q w h e]. cbn [Width Height]. intros Hw Hh.
  unfold encode_Media, json.decode_struct, media_fields.
  cbn -[json.FormatInt json.ParseInt].
  rewrite !ParseInt_FormatInt by done. reflexivity.
Qed.

Lemma decode_encode_Medias l cur :
  forallb well_formed_Media l = true ->
  json.decode_elems (json.decode_struct media_fields) zeroMedia cur (map encode_Media l) = Ok l.
Proof.
  revert cur. induction l as [|m l IH]; intros cur Hl; [done|].
  cbn [forallb] in Hl. apply andb_true_iff in Hl as [Hm Hl].
  unfold well_formed_Media in Hm. rewrite !andb_true_iff in Hm.
  destruct Hm as ((((_ & _) & Hw) & Hh) & _).
  cbn [map json.decode_elems]. rewrite decode_encode_Media by done.
  cbn [mbind result_mbind result_bind]. rewrite IH by done. reflexivity.
Qed.

Lemma decode_encode_VideoResponse r :
  forallb well_formed_Media (elems (Medias r)) = true ->
  json.decode_struct response_fields zeroVideoResponse (encode_VideoResponse r) = Ok r.
Proof.
  destruct r as [u s i a t th ms e]. cbn [Medias]. intros Hms.
  unfold encode_VideoResponse, json.decode_struct, response_fields.
  cbn -[json.decode_elems encode_Media].
  destruct ms as [|l]; cbn -[json.decode_elems encode_Media]; [reflexivity|].
  rewrite decode_encode_Medias by done. reflexivity.
Qed.

Lemma valid_key s : utf8.ValidString s = true -> valid_utf8 s.
Proof. apply ValidString_spec. Qed.

Lemma encoded_Media m : well_formed_Media m = true -> encoded (encode_Media m).
Proof.
  unfold well_formed_Media. rewrite !andb_true_iff.
  intros ((((Hf & Hq) & _) & _) & He). apply valid_key in Hf, Hq, He.
  cbn. repeat split; eauto using valid_key.
Qed.

Lemma encoded_Medias ms :
  forallb well_formed_Media (elems ms) = true -> encoded (encode_Medias ms).
Proof.
  destruct ms as [|l]; [done|]. cbn [elems encode_Medias encoded].
  induction l as [|m l IH]; [done|]. cbn [forallb map fold_right].
  rewrite andb_true_iff. intros [Hm Hl]. split; [by apply encoded_Media | by apply IH].
Qed.

Lemma encoded_VideoResponse r : well_formed r = true -> encoded (encode_VideoResponse r).
Proof.
  unfold well_formed. rewrite !andb_true_iff.
  intros ((((((Hu & Hs) & Hi) & Ha) & Ht) & Hth) & Hms).
  apply valid_key in Hu, Hs, Hi, Ha, Ht, Hth. apply encoded_Medias in Hms.
  cbn -[encode_Medias]. repeat split; eauto using valid_key.
Qed.

Lemma height_Medias ms : 0 <= height (encode_Medias ms) <= 2.
Proof.
  destruct ms as [|l]; [cbn; lia|]. cbn [encode_Medias height].
  enough (0 <= fold_right (fun v n => Z.max (height v) n) 0 (map encode_Media l) <= 1) by lia.
  induction l as [|m l IH]; cbn [map fold_right]; [lia|].
  change (height (encode_Media m)) with 1. lia.
Qed.

Lemma height_VideoResponse r : height (encode_VideoResponse r) <= json.maxNestingDepth.
Proof.
  pose proof (height_Medias (Medias r)) as H. unfold json.maxNestingDepth.
  cbn -[encode_Medias]. lia.
Qed.

Lemma Unmarshal_Marshal r : well_formed r = true -> Unmarshal (Marshal r) = Ok r.
Proof.
  intros Hr. unfold Unmarshal, Marshal.
  rewrite parse_print_top by (apply encoded_VideoResponse, Hr || apply height_VideoResponse).
  apply decode_encode_VideoResponse.
  unfold well_formed in Hr. by apply andb_true_iff in Hr as [_ ?].
Qed.

(** C9, as amended: for a response whose strings are valid UTF-8 (and
    whose integers are in the range of [int], as every one is in Go),
    decoding what [json.Marshal] writes gives the response back, field for
    field, the formats with their order and a nil slice as a nil slice. *)
Theorem marshal_unmarshal_roundtrip r :
  well_formed r = true -> Unmarshal (Marshal r) = Ok r.
Proof. apply Unmarshal_Marshal. Qed.

(** ** What the decoder gives is well formed *)

Lemma simple_escape_ascii e x : json.simple_escape e = Some x -> b2z x < 0x80.
Proof.
  unfold json.simple_escape. repeat case_match; intros [= <-]; try done.
  pose proof (b2z_range e). rewrite orb_true_iff in *. lia.
Qed.

Ltac bind_inv H :=
  match type of H with
  | (?m ≫= _) = Some _ =>
      let E := fresh "E" in
      destruct m as [[? ?]|] eqn:E; [cbn [mbind option_bind] in H | discriminate H]
  end.

Lemma scan_string_valid f s t r : json.scan_string f s = Some (t, r) -> valid_utf8 t.
Proof.
  revert s t r. induction f as [|f IH]; intros s t r H; [done|].
  cbn [json.scan_string] in H. destruct s as [|c s]; [done|].
  destruct (Ascii.eqb c json.dq); [injection H as <- <-; constructor|].
  destruct (Ascii.eqb c json.bsl).
  { destruct s as [|e s'']; [done|]. destruct (Ascii.eqb e "u").
    - destruct (_ <? 0); [done|].
      destruct (json.IsSurrogate _); [destruct (negb _)|];
        bind_inv H; injection H as <- <-;
        first [ apply valid_EncodeRune
              | match goal with
                | E : json.scan_string _ _ = Some (?t, _) |- _ =>
                    refine (valid_EncodeRune utf8.RuneError t _)
                end ];
        eapply IH; eassumption.
    - destruct (json.simple_escape e) as [x|] eqn:Ex; [|done].
      cbn [mbind option_bind] in H. bind_inv H. injection H as <- <-.
      eapply valid_ascii; [by eapply simple_escape_ascii | by eapply IH]. }
  destruct (b2z c <? 32); [done|].
  destruct (Z.ltb_spec (b2z c) utf8.RuneSelf).
  - bind_inv H. injection H as <- <-. apply valid_ascii; [done | by eapply IH].
  - destruct (utf8.DecodeRune (String c s)) as [rr size].
    bind_inv H. injection H as <- <-. apply valid_EncodeRune. eapply IH; eassumption.
Qed.

Lemma parse_value_S f d c s' :
  json.parse_value (S f) d (String c s') =
  if Ascii.eqb c "{" then
    if json.maxNestingDepth <? d + 1 then None
    else
      match json.skip_space s' with
      | String c1 s1 =>
          if Ascii.eqb c1 "}" then Some (json.Object [], s1)
          else '(ms, r) ← json.parse_members f (d + 1) (String c1 s1);
               Some (json.Object ms, r)
      | EmptyString => None
      end
  else if Ascii.eqb c "[" then
    if json.maxNestingDepth <? d + 1 then None
    else
      match json.skip_space s' with
      | String c1 s1 =>
          if Ascii.eqb c1 "]" then Some (json.Array [], s1)
          else '(vs, r) ← json.parse_elements f (d + 1) (String c1 s1);
               Some (json.Array vs, r)
      | EmptyString => None
      end
  else if Ascii.eqb c json.dq then
    '(t, r) ← json.scan_string (len s') s'; Some (json.Str t, r)
  else if Ascii.eqb c "t" then r ← json.strip_prefix "rue" s'; Some (json.Bool true, r)
  else if Ascii.eqb c "f" then r ← json.strip_prefix "alse" s'; Some (json.Bool false, r)
  else if Ascii.eqb c "n" then r ← json.strip_prefix "ull" s'; Some (json.Null, r)
  else if Ascii.eqb c "-" || json.isDigit c then
    '(lit, r) ← json.scan_number (String c s'); Some (json.Number lit, r)
  else None.
Proof. reflexivity. Qed.

Ltac bind_inv1 H :=
  match type of H with
  | (?m ≫= _) = Some _ =>
      let E := fresh "E" in
      destruct m as [?|] eqn:E; [cbn [mbind option_bind] in H | discriminate H]
  end.

Ltac string_inv H c r :=
  match type of H with
  | match ?x with EmptyString => _ | String _ _ => _ end = _ =>
      destruct x as [|c r]; [discriminate H|]
  end.

Lemma parse_text_ok f :
  (forall d s v r, json.parse_value f d s = Some (v, r) -> text_ok v) /\
  (forall d s vs r, json.parse_elements f d s = Some (vs, r) ->
     fold_right (fun v P => text_ok v /\ P) True vs) /\
  (forall d s ms r, json.parse_members f d s = Some (ms, r) ->
     fold_right (fun m P => text_ok (snd m) /\ P) True ms).
Proof.
  induction f as [|f (IHv & IHe & IHm)]; [by repeat split|].
  split; [|split].
  - intros d [|c s'] v r H; [done|]. rewrite parse_value_S in H.
    destruct (Ascii.eqb c "{").
    { destruct (_ <? _); [done|]. string_inv H c1 s1.
      destruct (Ascii.eqb c1 "}"); [by injection H as <- <-|].
      bind_inv H. injection H as <- <-. by eapply IHm. }
    destruct (Ascii.eqb c "[").
    { destruct (_ <? _); [done|]. string_inv H c1 s1.
      destruct (Ascii.eqb c1 "]"); [by injection H as <- <-|].
      bind_inv H. injection H as <- <-. by eapply IHe. }
    destruct (Ascii.eqb c json.dq).
    { bind_inv H. injection H as <- <-. by eapply scan_string_valid. }
    destruct (Ascii.eqb c "t"); [bind_inv1 H; by injection H as <- <-|].
    destruct (Ascii.eqb c "f"); [bind_inv1 H; by injection H as <- <-|].
    destruct (Ascii.eqb c "n"); [bind_inv1 H; by injection H as <- <-|].
    destruct (_ || _); [|done]. bind_inv H. by injection H as <- <-.
  - intros d s vs r H. rewrite parse_elements_S in H. bind_inv H.
    string_inv H c1 r1.
    destruct (Ascii.eqb c1 ",").
    + bind_inv H. injection H as <- <-. split; [by eapply IHv | by eapply IHe].
    + destruct (Ascii.eqb c1 "]"); [|done]. injection H as <- <-.
      split; [by eapply IHv | done].
  - intros d [|c s'] ms r H; [done|]. rewrite parse_members_S in H.
    destruct (Ascii.eqb c json.dq); [|done]. bind_inv H.
    string_inv H c1 r1.
    destruct (Ascii.eqb c1 ":"); [|done]. bind_inv H.
    string_inv H c2 r3.
    destruct (Ascii.eqb c2 ",").
    + bind_inv H. injection H as <- <-. split; [by eapply IHv | by eapply IHm].
    + destruct (Ascii.eqb c2 "}"); [|done]. injection H as <- <-.
      split; [by eapply IHv | done].
Qed.

Lemma parse_ok data v : json.parse data = Some v -> text_ok v.
Proof.
  unfold json.parse. intros H. bind_inv H.
  match type of H with
  | match ?x with EmptyString => _ | String _ _ => _ end = _ => destruct x; [|done]
  end.
  injection H as <-.
  by eapply (proj1 (parse_text_ok _)).
Qed.

Lemma decode_string_ok cur v x :
  utf8.ValidString cur = true -> text_ok v ->
  json.decode_string cur v = Ok x -> utf8.ValidString x = true.
Proof.
  intros Hc Hv H. destruct v; try done; injection H as <-; [done|].
  by apply ValidString_spec.
Qed.

Lemma ParseInt_int64 lit i : json.ParseInt lit = Some i -> is_int64 i = true.
Proof.
  unfold json.ParseInt. intros H.
  repeat match type of H with
  | (let '(_, _) := ?x in _) = _ => destruct x
  | match ?x with EmptyString => _ | String _ _ => _ end = _ => destruct x; [done|]
  end.
  bind_inv1 H. by destruct (is_int64 _) eqn:E'; [injection H as <-|].
Qed.

Lemma decode_int_ok cur v x :
  is_int64 cur = true -> json.decode_int cur v = Ok x -> is_int64 x = true.
Proof.
  intros Hc H. destruct v; try done; [by injection H as <-|].
  cbn in H. destruct (json.ParseInt lit) eqn:E; [|done]. injection H as <-.
  by eapply ParseInt_int64.
Qed.

Lemma find_field_In {T} (fields : list (json.Field T)) key dec :
  json.find_field fields key = Some dec -> exists name, In (name, dec) fields.
Proof.
  unfold json.find_field. intros H.
  match type of H with
  | match ?x with Some _ => _ | None => _ end = _ => destruct x as [[n d]|] eqn:E1
  end.
  - injection H as <-. apply find_some in E1 as [? _]. eauto.
  - match type of H with
    | match ?x with Some _ => _ | None => _ end = _ => destruct x as [[n d]|] eqn:E2
    end; [|done].
    injection H as <-. apply find_some in E2 as [? _]. eauto.
Qed.

(** A property of the struct that every field keeps is kept by decoding
    an object into it. *)
Lemma decode_struct_inv {T} (I : T -> Prop) (fields : list (json.Field T)) :
  (forall name dec, In (name, dec) fields ->
     forall cur v x, I cur -> text_ok v -> dec cur v = Ok x -> I x) ->
  forall cur v x, I cur -> text_ok v -> json.decode_struct fields cur v = Ok x -> I x.
Proof.
  intros Hfields cur v x Hc Hv H. destruct v as [| | | | |ms]; try done.
  { by injection H as <-. }
  cbn [json.decode_struct] in H. cbn [text_ok] in Hv.
  revert cur Hc H. induction ms as [|[key v] ms IH]; intros cur Hc H.
  { by injection H as <-. }
  cbn [json.decode_members] in H. destruct Hv as [Hv Hvs]. cbn [snd] in Hv.
  destruct (json.find_field fields key) as [dec|] eqn:Ef; [|by eapply IH].
  destruct (find_field_In _ _ _ Ef) as [name Hin].
  destruct (dec cur v) as [cur'|] eqn:Ed; [|done].
  cbn [mbind result_mbind result_bind] in H.
  eapply IH; [done | | exact H]. by eapply Hfields.
Qed.

Lemma decode_slice_inv {A} (I : A -> bool) dec zero :
  (forall cur v x, I cur = true -> text_ok v -> dec cur v = Ok x -> I x = true) ->
  I zero = true ->
  forall cur v x,
    forallb I (elems cur) = true -> text_ok v ->
    json.decode_slice dec zero cur v = Ok x -> forallb I (elems x) = true.
Proof.
  intros Hdec Hzero cur v x Hc Hv H. destruct v as [| | | |vs|]; try done.
  { by injection H as <-. }
  cbn [json.decode_slice] in H. cbn [text_ok] in Hv.
  destruct (json.decode_elems dec zero (elems cur) vs) as [xs|] eqn:E; [|done].
  injection H as <-. cbn [elems]. revert E Hc. generalize (elems cur). clear cur.
  revert xs. induction vs as [|v vs IH]; intros xs cur E Hc.
  { by injection E as <-. }
  cbn [json.decode_elems] in E. destruct Hv as [Hv Hvs].
  destruct (dec (hd zero cur) v) as [y|] eqn:Ey; [|done].
  cbn [mbind result_mbind result_bind] in E.
  destruct (json.decode_elems dec zero (tl cur) vs) as [ys|] eqn:Eys; [|done].
  injection E as <-. cbn [forallb]. apply andb_true_iff. split.
  - eapply Hdec; [|done|exact Ey]. destruct cur as [|a cur]; [done|].
    cbn in Hc |- *. by apply andb_true_iff in Hc as [? _].
  - eapply IH; [done | exact Eys |]. destruct cur as [|a cur]; [done|].
    cbn in Hc |- *. by apply andb_true_iff in Hc as [_ ?].
Qed.

Ltac field_case wf :=
  let cur := fresh "cur" in let v := fresh "v" in let x := fresh "x" in
  let Hc := fresh "Hc" in let Hv := fresh "Hv" in let H := fresh "H" in
  let E := fresh "E" in
  intros cur v x Hc Hv H; cbv beta in H;
  match type of H with
  | (?m ≫= _) = Ok _ => destruct m as [?|] eqn:E; [|discriminate H]
  end;
  cbn [mbind result_mbind result_bind] in H; injection H as <-;
  unfold wf in Hc |- *;
  cbn [YTDLP.FormatID YTDLP.Ext YTDLP.Format YTDLP.Width YTDLP.Height YTDLP.Acodec
       YTDLP.Vcodec YTDLP.FPS YTDLP.Filesize YTDLP.ID YTDLP.Title YTDLP.Uploader
       YTDLP.Thumbnail YTDLP.WebpageURL YTDLP.Formats];
  rewrite !andb_true_iff in Hc; rewrite !andb_true_iff;
  first [ apply decode_string_ok in E; [| tauto | done]
        | apply decode_int_ok in E; [| tauto] ];
  tauto.

Lemma format_fields_ok name dec :
  In (name, dec) YTDLP.format_fields ->
  forall cur v x,
    well_formed_Format cur = true -> text_ok v -> dec cur v = Ok x ->
    well_formed_Format x = true.
Proof.
  unfold YTDLP.format_fields. cbn [In].
  intros [[= <- <-] | [[= <- <-] | [[= <- <-] | [[= <- <-] | [[= <- <-] |
         [[= <- <-] | [[= <- <-] | [[= <- <-] | [[= <- <-] | []]]]]]]]]];
    field_case well_formed_Format.
Qed.

Lemma output_fields_ok name dec :
  In (name, dec) YTDLP.fields ->
  forall cur v x,
    well_formed_output cur = true -> text_ok v -> dec cur v = Ok x ->
    well_formed_output x = true.
Proof.
  unfold YTDLP.fields. cbn [In].
  intros [[= <- <-] | [[= <- <-] | [[= <- <-] | [[= <- <-] | [[= <- <-] |
         [[= <- <-] | []]]]]]]; try field_case well_formed_output.
  intros cur v x Hc Hv H. cbv beta in H.
  match type of H with
  | (?m ≫= _) = Ok _ => destruct m as [fs|] eqn:E; [|discriminate H]
  end.
  cbn [mbind result_mbind result_bind] in H. injection H as <-.
  unfold well_formed_output in Hc |- *.
  cbn [YTDLP.ID YTDLP.Title YTDLP.Uploader YTDLP.Thumbnail YTDLP.WebpageURL YTDLP.Formats].
  rewrite !andb_true_iff in Hc. rewrite !andb_true_iff.
  split; [tauto|].
  eapply (decode_slice_inv well_formed_Format); [| | | exact Hv | exact E].
  - intros c' v' x'. apply (decode_struct_inv (fun f => well_formed_Format f = true)).
    apply format_fields_ok.
  - reflexivity.
  - tauto.
Qed.

(** What decodes from the output of the tool is well formed. *)
Lemma YTDLP_Unmarshal_ok data y :
  YTDLP.Unmarshal data = Ok y -> well_formed_output y = true.
Proof.
  unfold YTDLP.Unmarshal. destruct (json.parse data) as [v|] eqn:E; [|done].
  apply parse_ok in E.
  apply (decode_struct_inv (fun y => well_formed_output y = true)); [|done|done].
  apply output_fields_ok.
Qed.

Lemma well_formed_appendMedia r f :
  well_formed r = true -> well_formed_Format f = true ->
  well_formed (appendMedia r f) = true.
Proof.
  intros Hr Hf. rewrite appendMedia_kept. destruct (kept f); [|done].
  unfold well_formed in *. cbn [setMedias URL Source ID Author Title Thumbnail Medias].
  rewrite !andb_true_iff in Hr. rewrite !andb_true_iff. split; [tauto|].
  cbn [append elems]. rewrite forallb_app, andb_true_iff. split; [tauto|].
  cbn [forallb]. rewrite andb_true_r.
  unfold well_formed_Format in Hf. unfold well_formed_Media, mediaOf.
  cbn [FormatID Quality Width Height Ext].
  rewrite !andb_true_iff in Hf. rewrite !andb_true_iff. tauto.
Qed.

Lemma well_formed_buildResponse y :
  well_formed_output y = true -> well_formed (buildResponse y) = true.
Proof.
  unfold well_formed_output, buildResponse. rewrite !andb_true_iff.
  intros (((((Hi & Ht) & Hu) & Hth) & Hw) & Hfs).
  set (r0 := {| URL := _ |}).
  assert (H0 : well_formed r0 = true).
  { unfold well_formed, r0. cbn [URL Source ID Author Title Thumbnail Medias elems forallb].
    rewrite Hw, Hi, Hu, Ht, Hth. reflexivity. }
  clearbody r0. revert r0 H0 Hfs. generalize (elems (YTDLP.Formats y)).
  induction l as [|f l IH]; intros r0 H0 Hfs; [done|].
  cbn [fold_left forallb] in *. apply andb_true_iff in Hfs as [Hf Hfs].
  apply IH; [|done]. by apply well_formed_appendMedia.
Qed.

(** ** The store holds what fetches wrote *)

(** What a fetch leaves in the store, and where a response it returns
    comes from. *)
Lemma fetch_cases env videoURL w :
  let '(w', (res, err)) := fetchVideoMetaData env videoURL w in
  (redis w' = redis w \/
   exists out y, YTDLP.Unmarshal out = Ok y /\
     redis w' = <[cacheKey videoURL := (Marshal (buildResponse y), 5 * Minute)]> (redis w)) /\
  (forall v, res = Some v ->
     (exists payload expiration,
        redis w !! cacheKey videoURL = Some (payload, expiration) /\
        Unmarshal payload = Ok v) \/
     (exists out y, YTDLP.Unmarshal out = Ok y /\ v = buildResponse y)).
Proof.
  unfold fetchVideoMetaData. fold (cacheKey videoURL).
  destruct (ParseRequestURI env videoURL) as [u | msg]; [|by split; [left|]].
  destruct (_ || _); [by split; [left|]|].
  unfold rdb_Get.
  set (w1 := log (RedisGet (cacheKey videoURL)) w).
  assert (Hfresh :
    let '(w', (res, err)) :=
      (let '(w2, (output, err)) := cmd_Output env "yt-dlp" ["-j"; videoURL] w1 in
       match err with
       | Some e => (w2, (None, Some e))
       | None =>
           match YTDLP.Unmarshal output with
           | Err e => (w2, (None, Some e))
           | Ok ytdlpData =>
               let videoResp := buildResponse ytdlpData in
               let cacheData := Marshal videoResp in
               let '(w3, _) := rdb_Set env (cacheKey videoURL) cacheData (5 * Minute) w2 in
               (w3, (Some videoResp, None))
           end
       end) in
    (redis w' = redis w \/
     exists out y, YTDLP.Unmarshal out = Ok y /\
       redis w' = <[cacheKey videoURL := (Marshal (buildResponse y), 5 * Minute)]> (redis w)) /\
    (forall v, res = Some v ->
       (exists payload expiration,
          redis w !! cacheKey videoURL = Some (payload, expiration) /\
          Unmarshal payload = Ok v) \/
       (exists out y, YTDLP.Unmarshal out = Ok y /\ v = buildResponse y))).
  { unfold cmd_Output. destruct (RunProcess env _ _) as [chunks [e|]]; cbn [fmap option_fmap option_map].
    { by split; [left|]. }
    destruct (YTDLP.Unmarshal _) as [y|e] eqn:Ey; [|by split; [left|]].
    cbv zeta. unfold rdb_Set. destruct (RedisSetErr env _).
    - split; [by left|]. intros v [= <-]. right. eauto.
    - split; [right; eauto|]. intros v [= <-]. right. eauto. }
  destruct (RedisGetErr env (cacheKey videoURL)); [exact Hfresh|].
  destruct (redis w !! cacheKey videoURL) as [[payload ex]|] eqn:El; [|exact Hfresh].
  destruct (Unmarshal payload) as [v|e] eqn:Ev; [|exact Hfresh].
  split; [by left|]. intros v' [= <-]. left. eauto.
Qed.

Lemma cache_inv_insert w key y out ex :
  cache_inv w -> YTDLP.Unmarshal out = Ok y ->
  forall w', redis w' = <[key := (Marshal (buildResponse y), ex)]> (redis w) -> cache_inv w'.
Proof.
  intros Hw Hy w' Hr k p e. rewrite Hr, lookup_insert.
  case_decide as Hk; [|apply Hw]. intros [= <- <-]. by exists out, y.
Qed.

Lemma cache_inv_same w w' : cache_inv w -> redis w' = redis w -> cache_inv w'.
Proof. intros Hw Hr k p e. rewrite Hr. apply Hw. Qed.

Lemma cache_inv_fetch env videoURL w :
  cache_inv w -> cache_inv (fst (fetchVideoMetaData env videoURL w)).
Proof.
  intros Hw. pose proof (fetch_cases env videoURL w) as H.
  destruct (fetchVideoMetaData env videoURL w) as [w' [res err]].
  destruct H as [[Hr | (out & y & Hy & Hr)] _]; cbn [fst].
  - by eapply cache_inv_same.
  - by eapply cache_inv_insert.
Qed.

Lemma submit_world env r rw w :
  fst (fst (submitHandler env r rw w)) = w \/
  fst (fst (submitHandler env r rw w)) =
  fst (fetchVideoMetaData env (FormValue r "videoURL") w).
Proof.
  unfold submitHandler. destruct (ParseFormErr r); [by left|].
  destruct (_ || _); [by left|].
  destruct (fetchVideoMetaData env _ w) as [w1 [videoData err]].
  right. destruct err; [done|]. destruct videoData as [v|]; [|done].
  by destruct (elems (Medias v)).
Qed.

Lemma download_redis env r rw w :
  redis (fst (fst (downloadHandler env r rw w))) = redis w.
Proof.
  unfold downloadHandler. destruct (String.eqb _ ""); [done|].
  destruct (negb _); [done|]. unfold cmd_Run.
  destruct (RunProcess env _ _) as [chunks [e|]]; reflexivity.
Qed.

Lemma reachable_cache_inv w : reachable w -> cache_inv w.
Proof.
  induction 1 as [| env videoURL w Hw IH | env r rw w Hw IH | env r rw w Hw IH | key w Hw IH].
  - intros k p e. cbn [redis]. by rewrite lookup_empty.
  - by apply cache_inv_fetch.
  - destruct (submit_world env r rw w) as [-> | ->]; [done | by apply cache_inv_fetch].
  - eapply cache_inv_same; [exact IH | apply download_redis].
  - intros k p e. cbn [redis]. rewrite lookup_delete.
    case_decide; [done | apply IH].
Qed.

Lemma buildResponse_medias y :
  Forall (fun m => FormatID m <> "" /\ has_stream y m) (elems (Medias (buildResponse y))).
Proof.
  rewrite buildResponse_elems.
  apply Forall_forall. intros m Hm. apply list_elem_of_In, in_map_iff in Hm.
  destruct Hm as (f & <- & Hf). apply filter_In in Hf as [Hin Hk].
  apply kept_spec in Hk as [Hid Hc]. split; [done|].
  exists f. split; [done|]. split; [done|].
  destruct (String.eqb_spec (YTDLP.Vcodec f) "none"); [|by left].
  right. intros Ha. by apply Hc.
Qed.

(** A response that a fetch returns in a world the server can reach is
    built from an output of the tool. *)
Lemma fetch_result_built env videoURL w w' v err :
  reachable w ->
  fetchVideoMetaData env videoURL w = (w', (Some v, err)) ->
  exists out ytdlpData, YTDLP.Unmarshal out = Ok ytdlpData /\ v = buildResponse ytdlpData.
Proof.
  intros Hw Hf. apply reachable_cache_inv in Hw.
  pose proof (fetch_cases env videoURL w) as H. rewrite Hf in H.
  destruct H as [_ H].
  destruct (H v eq_refl) as [(payload & ex & Hl & Hv) | (out & y & Hy & ->)].
  - destruct (Hw _ _ _ Hl) as (out & y & Hy & ->).
    rewrite Unmarshal_Marshal in Hv
      by (apply well_formed_buildResponse; by eapply YTDLP_Unmarshal_ok).
    injection Hv as <-. by exists out, y.
  - by exists out, y.
Qed.

(** So its strings are valid UTF-8, and it is decoded from its encoding
    as it is. *)
Lemma fetch_result_well_formed env videoURL w w' v err :
  reachable w ->
  fetchVideoMetaData env videoURL w = (w', (Some v, err)) ->
  well_formed v = true /\ Unmarshal (Marshal v) = Ok v.
Proof.
  intros Hw Hf. destruct (fetch_result_built _ _ _ _ _ _ Hw Hf) as (out & y & Hy & ->).
  assert (well_formed (buildResponse y) = true)
    by (apply well_formed_buildResponse; by eapply YTDLP_Unmarshal_ok).
  split; [done | by apply Unmarshal_Marshal].
Qed.

(** C7: in every world the server can reach, a response that
    [fetchVideoMetaData] returns, fresh or from the store, is the response
    built from an output of the tool, so every one of its formats has a
    format id that is not empty and stands for an entry of that output
    with a video codec or an audio codec (one that the tool does not
    report as [none]). *)
Theorem fetch_formats_invariant env videoURL w w' v err :
  reachable w ->
  fetchVideoMetaData env videoURL w = (w', (Some v, err)) ->
  exists out ytdlpData,
    YTDLP.Unmarshal out = Ok ytdlpData /\
    v = buildResponse ytdlpData /\
    Forall (fun m => FormatID m <> "" /\ has_stream ytdlpData m) (elems (Medias v)).
Proof.
  intros Hw Hf. destruct (fetch_result_built _ _ _ _ _ _ Hw Hf) as (out & y & Hy & ->).
  exists out, y. split; [done|]. split; [done|]. apply buildResponse_medias.
Qed.

(** ** The fuel of the scanner and of the parser is enough *)

Lemma len_drop_bytes n s : (len (drop_bytes n s) <= len s - Nat.min n (len s))%nat.
Proof.
  revert s. induction n as [|n IH]; intros [|c s]; cbn; try lia.
  specialize (IH s). lia.
Qed.

Lemma DecodeRune_size c s : (1 <= snd (utf8.DecodeRune (String c s)))%nat.
Proof.
  destruct (DecodeRune_cases c s) as [[_ ->] | [[_ ->] | (_ & r & t & Hs & _ & E)]];
    [done | done |].
  rewrite E. destruct (DecodeRune_EncodeRune r t Hs) as (-> & [? _] & _). done.
Qed.

Lemma scan_string_fuel f s : (len s <= f)%nat -> json.scan_string (S f) s = json.scan_string f s.
Proof.
  revert s. induction f as [|f IH]; intros s Hs.
  { destruct s; [done | cbn in Hs; lia]. }
  destruct s as [|c s]; [done|]. cbn [len] in Hs.
  assert (Hdrop : forall n, (1 <= n)%nat ->
    json.scan_string (S f) (drop_bytes n (String c s)) =
    json.scan_string f (drop_bytes n (String c s))).
  { intros n Hn. apply IH. pose proof (len_drop_bytes n (String c s)). cbn [len] in *. lia. }
  change (json.scan_string (S (S f)) (String c s)) with
    (let b := b2z c in
     if Ascii.eqb c json.dq then Some (EmptyString, s)
     else if Ascii.eqb c json.bsl then
       match s with
       | EmptyString => None
       | String e s'' =>
           if Ascii.eqb e "u" then
             let rr := json.getu4 (String c s) in
             if rr <? 0 then None
             else if json.IsSurrogate rr then
               let rr1 := json.getu4 (drop_bytes 6 (String c s)) in
               let dec := json.utf16_DecodeRune rr rr1 in
               if negb (dec =? utf8.RuneError) then
                 '(t, r) ← json.scan_string (S f) (drop_bytes 12 (String c s));
                 Some (utf8.EncodeRune dec +:+ t, r)
               else
                 '(t, r) ← json.scan_string (S f) (drop_bytes 6 (String c s));
                 Some (utf8.EncodeRune utf8.RuneError +:+ t, r)
             else
               '(t, r) ← json.scan_string (S f) (drop_bytes 6 (String c s));
               Some (utf8.EncodeRune rr +:+ t, r)
           else
             x ← json.simple_escape e;
             '(t, r) ← json.scan_string (S f) s'';
             Some (String x t, r)
       end
     else if b <? 0x20 then None
     else if b <? utf8.RuneSelf then
       '(t, r) ← json.scan_string (S f) s; Some (String c t, r)
     else
       let '(rr, size) := utf8.DecodeRune (String c s) in
       '(t, r) ← json.scan_string (S f) (drop_bytes size (String c s));
       Some (utf8.EncodeRune rr +:+ t, r)).
  change (json.scan_string (S f) (String c s)) with
    (let b := b2z c in
     if Ascii.eqb c json.dq then Some (EmptyString, s)
     else if Ascii.eqb c json.bsl then
       match s with
       | EmptyString => None
       | String e s'' =>
           if Ascii.eqb e "u" then
             let rr := json.getu4 (String c s) in
             if rr <? 0 then None
             else if json.IsSurrogate rr then
               let rr1 := json.getu4 (drop_bytes 6 (String c s)) in
               let dec := json.utf16_DecodeRune rr rr1 in
               if negb (dec =? utf8.RuneError) then
                 '(t, r) ← json.scan_string f (drop_bytes 12 (String c s));
                 Some (utf8.EncodeRune dec +:+ t, r)
               else
                 '(t, r) ← json.scan_string f (drop_bytes 6 (String c s));
                 Some (utf8.EncodeRune utf8.RuneError +:+ t, r)
             else
               '(t, r) ← json.scan_string f (drop_bytes 6 (String c s));
               Some (utf8.EncodeRune rr +:+ t, r)
           else
             x ← json.simple_escape e;
             '(t, r) ← json.scan_string f s'';
             Some (String x t, r)
       end
     else if b <? 0x20 then None
     else if b <? utf8.RuneSelf then
       '(t, r) ← json.scan_string f s; Some (String c t, r)
     else
       let '(rr, size) := utf8.DecodeRune (String c s) in
       '(t, r) ← json.scan_string f (drop_bytes size (String c s));
       Some (utf8.EncodeRune rr +:+ t, r)).
  cbv zeta.
  rewrite !Hdrop by lia. rewrite (IH s) by lia.
  pose proof (DecodeRune_size c s) as Hsize.
  destruct (utf8.DecodeRune (String c s)) as [rr size]. cbn [snd] in Hsize.
  rewrite (Hdrop size) by done.
  destruct s as [|e s'']; [done|]. cbn [len] in Hs. rewrite (IH s'') by lia. reflexivity.
Qed.

Lemma len_skip_space s : (len (json.skip_space s) <= len s)%nat.
Proof. induction s as [|c s IH]; cbn; [lia|]. destruct (json.isSpace c); cbn; lia. Qed.

Lemma len_strip_prefix p s r : json.strip_prefix p s = Some r -> (len r <= len s)%nat.
Proof.
  revert s. induction p as [|c p IH]; intros s H; [injection H as <-; lia|].
  destruct s as [|d s]; [done|]. cbn in H. destruct (Ascii.eqb c d); [|done].
  apply IH in H. cbn. lia.
Qed.

Lemma len_span_digits s : (len (snd (json.span_digits s)) <= len s)%nat.
Proof.
  induction s as [|c s IH]; cbn; [lia|]. destruct (json.isDigit c); [|cbn; lia].
  destruct (json.span_digits s). cbn in *. lia.
Qed.

Lemma len_scan_frac s lit r : json.scan_frac s = Some (lit, r) -> (len r <= len s)%nat.
Proof.
  destruct s as [|c s]; cbn; [intros [= <- <-]; cbn; lia|].
  destruct (Ascii.eqb c "."); [|intros [= <- <-]; cbn; lia].
  pose proof (len_span_digits s). destruct (json.span_digits s) as [[|d ds] r']; [done|].
  intros [= <- <-]. cbn in *. lia.
Qed.

Lemma len_scan_exp s lit r : json.scan_exp s = Some (lit, r) -> (len r <= len s)%nat.
Proof.
  destruct s as [|c s]; cbn; [intros [= <- <-]; cbn; lia|].
  destruct (_ || _); [|intros [= <- <-]; cbn; lia].
  destruct s as [|c' s2].
  - cbn. done.
  - destruct (_ || _).
    + pose proof (len_span_digits s2). destruct (json.span_digits s2) as [[|d ds] r']; [done|].
      intros [= <- <-]. cbn in *. lia.
    + pose proof (len_span_digits (String c' s2)).
      destruct (json.span_digits (String c' s2)) as [[|d ds] r']; [done|].
      intros [= <- <-]. cbn in *. lia.
Qed.

Lemma len_scan_number s lit r : json.scan_number s = Some (lit, r) -> (len r < len s)%nat.
Proof.
  unfold json.scan_number. intros H.
  assert (Hint : forall s1 i s2,
    match s1 with
    | String c s' =>
        if Ascii.eqb c "0" then Some (String c EmptyString, s')
        else if json.isDigit c then
          let '(ds, r) := json.span_digits s' in Some (String c ds, r)
        else None
    | EmptyString => None
    end = Some (i, s2) -> (len s2 < len s1)%nat).
  { intros [|c s'] i s2 Hi; [done|]. destruct (Ascii.eqb c "0").
    - injection Hi as <- <-. cbn. lia.
    - destruct (json.isDigit c); [|done]. pose proof (len_span_digits s').
      destruct (json.span_digits s'). injection Hi as <- <-. cbn in *. lia. }
  destruct s as [|c s]; [done|].
  destruct (Ascii.eqb c "-").
  - bind_inv H. apply Hint in E. bind_inv H. apply len_scan_frac in E0.
    bind_inv H. apply len_scan_exp in E1. injection H as <- <-. cbn. lia.
  - bind_inv H. apply (Hint (String c s)) in E. bind_inv H. apply len_scan_frac in E0.
    bind_inv H. apply len_scan_exp in E1. injection H as <- <-. lia.
Qed.

Lemma len_scan_string f s t r : json.scan_string f s = Some (t, r) -> (len r < len s)%nat.
Proof.
  revert s t r. induction f as [|f IH]; intros s t r H; [done|].
  cbn [json.scan_string] in H. destruct s as [|c s]; [done|].
  assert (Hdrop : forall n t' r', json.scan_string f (drop_bytes n (String c s)) = Some (t', r') ->
    (len r' < len (String c s))%nat).
  { intros n t' r' E. apply IH in E. pose proof (len_drop_bytes n (String c s)). lia. }
  destruct (Ascii.eqb c json.dq); [injection H as <- <-; cbn; lia|].
  destruct (Ascii.eqb c json.bsl).
  { destruct s as [|e s'']; [done|]. destruct (Ascii.eqb e "u").
    - destruct (_ <? 0); [done|].
      destruct (json.IsSurrogate _); [destruct (negb _)|];
        bind_inv H; injection H as _ <-; by eapply Hdrop.
    - destruct (json.simple_escape e) as [x|]; [|done].
      cbn [mbind option_bind] in H. bind_inv H. injection H as _ <-.
      apply IH in E. cbn. lia. }
  destruct (b2z c <? 32); [done|].
  destruct (b2z c <? utf8.RuneSelf).
  - bind_inv H. injection H as _ <-. apply IH in E. cbn. lia.
  - destruct (utf8.DecodeRune (String c s)) as [rr size].
    bind_inv H. injection H as _ <-. by eapply Hdrop.
Qed.

(** A value, a list of elements and a list of members take at least one
    character. *)
Lemma len_parse f :
  (forall d s v r, json.parse_value f d s = Some (v, r) -> (len r < len s)%nat) /\
  (forall d s vs r, json.parse_elements f d s = Some (vs, r) -> (len r < len s)%nat) /\
  (forall d s ms r, json.parse_members f d s = Some (ms, r) -> (len r < len s)%nat).
Proof.
  induction f as [|f (IHv & IHe & IHm)]; [by repeat split|].
  split; [|split].
  - intros d [|c s'] v r H; [done|]. rewrite parse_value_S in H. cbn [len].
    destruct (Ascii.eqb c "{").
    { destruct (_ <? _); [done|]. pose proof (len_skip_space s') as Hsk.
      string_inv H c1 s1. cbn [len] in Hsk.
      destruct (Ascii.eqb c1 "}"); [injection H as _ <-; lia|].
      bind_inv H. injection H as _ <-. apply IHm in E. cbn [len] in E. lia. }
    destruct (Ascii.eqb c "[").
    { destruct (_ <? _); [done|]. pose proof (len_skip_space s') as Hsk.
      string_inv H c1 s1. cbn [len] in Hsk.
      destruct (Ascii.eqb c1 "]"); [injection H as _ <-; lia|].
      bind_inv H. injection H as _ <-. apply IHe in E. cbn [len] in E. lia. }
    destruct (Ascii.eqb c json.dq).
    { bind_inv H. injection H as _ <-. apply len_scan_string in E. lia. }
    destruct (Ascii.eqb c "t");
      [bind_inv1 H; injection H as _ <-; apply len_strip_prefix in E; lia|].
    destruct (Ascii.eqb c "f");
      [bind_inv1 H; injection H as _ <-; apply len_strip_prefix in E; lia|].
    destruct (Ascii.eqb c "n");
      [bind_inv1 H; injection H as _ <-; apply len_strip_prefix in E; lia|].
    destruct (_ || _); [|done]. bind_inv H. injection H as _ <-.
    apply len_scan_number in E. cbn [len] in E. lia.
  - intros d s vs r H. rewrite parse_elements_S in H. bind_inv H. apply IHv in E.
    match type of H with
    | match json.skip_space ?x with _ => _ end = _ => pose proof (len_skip_space x) as Hsk
    end.
    string_inv H c1 r1. cbn [len] in Hsk.
    destruct (Ascii.eqb c1 ",").
    + bind_inv H. injection H as _ <-. apply IHe in E0.
      pose proof (len_skip_space r1). lia.
    + destruct (Ascii.eqb c1 "]"); [|done]. injection H as _ <-. lia.
  - intros d [|c s'] ms r H; [done|]. rewrite parse_members_S in H. cbn [len].
    destruct (Ascii.eqb c json.dq); [|done]. bind_inv H. apply len_scan_string in E.
    match type of H with
    | match json.skip_space ?x with _ => _ end = _ => pose proof (len_skip_space x) as Hsk
    end.
    string_inv H c1 r1. cbn [len] in Hsk.
    destruct (Ascii.eqb c1 ":"); [|done]. bind_inv H. apply IHv in E0.
    pose proof (len_skip_space r1) as Hsk1.
    match type of H with
    | match json.skip_space ?x with _ => _ end = _ => pose proof (len_skip_space x) as Hsk2
    end.
    string_inv H c2 r3. cbn [len] in Hsk2.
    destruct (Ascii.eqb c2 ",").
    + bind_inv H. injection H as _ <-. apply IHm in E1.
      pose proof (len_skip_space r3). lia.
    + destruct (Ascii.eqb c2 "}"); [|done]. injection H as _ <-. lia.
Qed.

(** One more unit of fuel changes nothing once the fuel is twice the
    length of the input. *)
Lemma parse_fuel_step f :
  (forall d s, (2 * len s <= f)%nat ->
     json.parse_value (S f) d s = json.parse_value f d s) /\
  (forall d s, (2 * len s + 1 <= f)%nat ->
     json.parse_elements (S f) d s = json.parse_elements f d s) /\
  (forall d s, (2 * len s + 1 <= f)%nat ->
     json.parse_members (S f) d s = json.parse_members f d s).
Proof.
  induction f as [|f (IHv & IHe & IHm)].
  { split; [|split]; intros d s Hs; try lia. destruct s; [done | cbn in Hs; lia]. }
  split; [|split].
  - intros d [|c s'] Hs; [done|]. cbn [len] in Hs. rewrite !parse_value_S.
    pose proof (len_skip_space s') as Hsk.
    destruct (json.skip_space s') as [|c1 s1]; [done|]. cbn [len] in Hsk.
    rewrite (IHm (d + 1) (String c1 s1)) by (cbn [len]; lia).
    rewrite (IHe (d + 1) (String c1 s1)) by (cbn [len]; lia).
    reflexivity.
  - intros d s Hs. rewrite !(parse_elements_S (S f)), (parse_elements_S f).
    rewrite (IHv d s) by lia.
    destruct (json.parse_value f d s) as [[v r]|] eqn:E; [|done].
    apply (proj1 (len_parse f)) in E. cbn [mbind option_bind].
    pose proof (len_skip_space r) as Hsk.
    destruct (json.skip_space r) as [|c1 r1]; [done|]. cbn [len] in Hsk.
    pose proof (len_skip_space r1) as Hsk1.
    rewrite (IHe d (json.skip_space r1)) by lia. reflexivity.
  - intros d [|c s'] Hs; [done|]. cbn [len] in Hs. rewrite !parse_members_S.
    destruct (Ascii.eqb c json.dq); [|done].
    destruct (json.scan_string (len s') s') as [[key r]|] eqn:E; [|done].
    apply len_scan_string in E. cbn [mbind option_bind].
    pose proof (len_skip_space r) as Hsk.
    destruct (json.skip_space r) as [|c1 r1]; [done|]. cbn [len] in Hsk.
    destruct (Ascii.eqb c1 ":"); [|done].
    pose proof (len_skip_space r1) as Hsk1.
    rewrite (IHv d (json.skip_space r1)) by lia.
    destruct (json.parse_value f d (json.skip_space r1)) as [[v r2]|] eqn:Ev; [|done].
    apply (proj1 (len_parse f)) in Ev. cbn [mbind option_bind].
    pose proof (len_skip_space r2) as Hsk2.
    destruct (json.skip_space r2) as [|c2 r3]; [done|]. cbn [len] in Hsk2.
    pose proof (len_skip_space r3) as Hsk3.
    rewrite (IHm d (json.skip_space r3)) by lia. reflexivity.
Qed.

(** The fuel [parse] gives is enough: with more, the result is the
    same. *)
Lemma parse_fuel data n :
  json.parse_value (n + S (2 * len data)) 0 (json.skip_space data) =
  json.parse_value (S (2 * len data)) 0 (json.skip_space data).
Proof.
  induction n as [|n IH]; [done|]. rewrite <- IH. cbn [Nat.add].
  apply (proj1 (parse_fuel_step _)). pose proof (len_skip_space data). lia.
Qed.

Lemma appendString_loop_S f c s k :
  json.appendString_loop (S f) (String c s) k =
  if b2z c <? utf8.RuneSelf then
    if json.htmlSafeSet (b2z c) then String c (json.appendString_loop f s k)
    else json.escape c (json.appendString_loop f s k)
  else
    let '(r, size) := utf8.DecodeRune (String c s) in
    if (r =? utf8.RuneError) && (size =? 1)%nat then
      String json.bsl (String "u" (String "f" (String "f" (String "f" (String "d"
        (json.appendString_loop f s k))))))
    else if (r =? 0x2028) || (r =? 0x2029) then
      String json.bsl (String "u" (String "2" (String "0" (String "2"
        (String (json.hex (Z.land r 0xF))
           (json.appendString_loop f (drop_bytes size (String c s)) k))))))
    else
      take_bytes size (String c s) +:+
      json.appendString_loop f (drop_bytes size (String c s)) k.
Proof. reflexivity. Qed.

(** The same for the loops over the runes of a string. *)
Lemma appendString_loop_fuel f s k :
  (len s <= f)%nat -> json.appendString_loop (S f) s k = json.appendString_loop f s k.
Proof.
  revert s. induction f as [|f IH]; intros s Hs.
  { destruct s; [done | cbn in Hs; lia]. }
  destruct s as [|c s]; [done|]. cbn [len] in Hs.
  pose proof (DecodeRune_size c s) as Hsize.
  rewrite (appendString_loop_S (S f)), (appendString_loop_S f).
  destruct (utf8.DecodeRune (String c s)) as [r size]. cbn [snd] in Hsize.
  rewrite (IH s) by lia. rewrite (IH (drop_bytes size (String c s))); [done|].
  pose proof (len_drop_bytes size (String c s)). cbn [len] in *. lia.
Qed.

Lemma valid_fuel_S f c s :
  utf8.valid_fuel (S f) (String c s) =
  let '(r, size) := utf8.DecodeRune (String c s) in
  if (r =? utf8.RuneError) && (size =? 1)%nat then false
  else utf8.valid_fuel f (drop_bytes size (String c s)).
Proof. reflexivity. Qed.

Lemma valid_fuel_fuel f s : (len s <= f)%nat -> utf8.valid_fuel (S f) s = utf8.valid_fuel f s.
Proof.
  revert s. induction f as [|f IH]; intros s Hs.
  { destruct s; [done | cbn in Hs; lia]. }
  destruct s as [|c s]; [done|]. cbn [len] in Hs.
  pose proof (DecodeRune_size c s) as Hsize.
  rewrite (valid_fuel_S (S f)), (valid_fuel_S f).
  destruct (utf8.DecodeRune (String c s)) as [r size]. cbn [snd] in Hsize.
  rewrite IH; [done|]. pose proof (len_drop_bytes size (String c s)). cbn [len] in *. lia.
Qed.

(** ** The claims at the examples *)

Lemma demo_decodes : YTDLP.Unmarshal Example.demo = Ok Example.demo_output.
Proof. vm_compute. reflexivity. Qed.

Lemma no_stream_decodes : YTDLP.Unmarshal Example.no_stream = Ok Example.no_stream_output.
Proof. vm_compute. reflexivity. Qed.

Lemma download_invalid_format_witness :
  isValidFormatID "18; evil" = false /\
  exists rw',
    downloadHandler (Example.env [] None) (Example.download_request Example.page "18; evil")
      newResponseWriter Example.init = (Example.init, rw', Returned) /\
    (Example.page <> "" -> rw' = http_Error "Invalid format" StatusBadRequest newResponseWriter) /\
    (Example.page = "" ->
       rw' = http_Error "Missing video page URL" StatusBadRequest newResponseWriter).
Proof.
  split; [reflexivity|].
  apply (download_invalid_format (Example.env [] None)
           (Example.download_request Example.page "18; evil") newResponseWriter Example.init).
  reflexivity.
Defined.

(** C1, the counterexample: with an empty page URL the handler answers
    [Missing video page URL], not [Invalid format], to a format id that
    fails the check. *)
Lemma download_missing_url_counterexample :
  isValidFormatID "18; evil" = false /\
  snd (fst (downloadHandler (Example.env [] None) (Example.download_request "" "18; evil")
              newResponseWriter Example.init)) =
  http_Error "Missing video page URL" StatusBadRequest newResponseWriter /\
  snd (fst (downloadHandler (Example.env [] None) (Example.download_request "" "18; evil")
              newResponseWriter Example.init)) <>
  http_Error "Invalid format" StatusBadRequest newResponseWriter.
Proof.
  split; [reflexivity|]. split; [reflexivity|].
  intros H. apply (f_equal body) in H. vm_compute in H. discriminate H.
Qed.

Lemma isValidFormatID_pattern_witness :
  matches_pattern "18" /\ isValidFormatID "18" = true /\
  Exists (fun c => ~ pattern_char c) (bytes "18; rm -rf /") /\
  isValidFormatID "18; rm -rf /" = false.
Proof.
  assert (H18 : matches_pattern "18").
  { split; [discriminate|]. repeat constructor; unfold pattern_char; cbn; lia. }
  assert (Hrm : Exists (fun c => ~ pattern_char c) (bytes "18; rm -rf /")).
  { apply Exists_cons_tl, Exists_cons_tl, Exists_cons_hd.
    unfold pattern_char. cbn. intros [?|[?|[?|[?|[?|?]]]]]; (lia || discriminate). }
  destruct isValidFormatID_pattern as (Hyes & Hno & _).
  split; [exact H18|]. split; [exact (Hyes _ H18)|]. split; [exact Hrm|].
  exact (Hno _ Hrm).
Defined.

Lemma buildResponse_formats_witness :
  elems (Medias (buildResponse Example.demo_output)) = elems (Medias Example.demo_response).
Proof. exact (proj1 (buildResponse_formats Example.demo_output)). Defined.

Lemma fetch_cache_hit_witness :
  exists w w' v,
    fetchVideoMetaData (Example.env [] None) Example.page w = (w', (Some v, None)) /\
    trace w' = trace w ++ [RedisGet ("video_meta:" +:+ Example.page)] /\
    redis w' = redis w.
Proof.
  pose (w := {| redis := {[ cacheKey Example.page :=
                              (Marshal Example.demo_response, 5 * Minute) ]};
                trace := [] |}).
  assert (Hh : cache_hit (Example.env [] None) w Example.page Example.demo_response).
  { split; [reflexivity|]. exists (Marshal Example.demo_response), (5 * Minute).
    split; [apply lookup_singleton_eq | by vm_compute]. }
  destruct (fetch_cache_hit (Example.env [] None) Example.page w Example.demo_response
              (page_accepted [] None) Hh) as (w' & H).
  exists w, w', Example.demo_response. exact H.
Defined.

Lemma fetch_rejected_url_witness :
  ParseRequestURI (Example.env [] None) "/watch" = inl {| Scheme := ""; Host := "" |} /\
  fetchVideoMetaData (Example.env [] None) "/watch" Example.init =
  (Example.init, (None, None)).
Proof.
  split; [reflexivity|].
  exact (proj2 (fetch_rejected_url (Example.env [] None) "/watch" Example.init)
           {| Scheme := ""; Host := "" |} eq_refl (or_introl eq_refl)).
Defined.

Lemma fetch_tool_failure_witness :
  (exists w',
     fetchVideoMetaData (Example.env [] (Some (ExitStatus 1))) Example.page Example.init =
     (w', (None, Some (ExitError 1)))) /\
  (exists w',
     fetchVideoMetaData (Example.env [] None) Example.page Example.init =
     (w', (None, Some SyntaxError))).
Proof.
  split.
  - destruct (proj1 (fetch_tool_failure (Example.env [] (Some (ExitStatus 1))) Example.page
                       Example.init (page_accepted _ _) (init_miss _ _))
                "" (ExitStatus 1) eq_refl) as (w' & H & _).
    by exists w'.
  - destruct (proj2 (fetch_tool_failure (Example.env [] None) Example.page
                       Example.init (page_accepted _ _) (init_miss _ _)) eq_refl)
      as (w' & H & _).
    by exists w'.
Defined.

(** C6, the counterexample: the tool exits with status zero and writes
    nothing; the fetch fails with the syntax error of the decoder, which
    is not an error of running the tool. *)
Lemma empty_output_counterexample :
  cache_miss (Example.env [] None) Example.init Example.page /\
  tool_output (Example.env [] None) Example.page = (EmptyString, None) /\
  snd (fetchVideoMetaData (Example.env [] None) Example.page Example.init) =
  (None, Some SyntaxError) /\
  ~ ExtractionFailed SyntaxError.
Proof.
  split; [apply init_miss|]. split; [reflexivity|]. split; [by vm_compute|]. intros [].
Qed.

Lemma fetch_formats_invariant_witness :
  exists out ytdlpData,
    YTDLP.Unmarshal out = Ok ytdlpData /\
    Example.demo_response = buildResponse ytdlpData /\
    Forall (fun m => FormatID m <> "" /\ has_stream ytdlpData m)
      (elems (Medias Example.demo_response)).
Proof.
  eapply (fetch_formats_invariant (Example.env [Example.demo] None) Example.page
            Example.init _ Example.demo_response None reachable_init).
  vm_compute. reflexivity.
Defined.

Lemma fresh_fetch_writes_cache_witness :
  exists w',
    fetchVideoMetaData (Example.env_no_write [Example.demo] None) Example.page Example.init =
    (w', (Some Example.demo_response, None)) /\
    redis w' = redis Example.init.
Proof.
  destruct (fresh_fetch_writes_cache (Example.env_no_write [Example.demo] None) Example.page
              Example.init Example.demo Example.demo_output
              (page_accepted_no_write _ _) (init_miss _ _) eq_refl demo_decodes)
    as (w' & Hf & _ & _ & Hfail).
  exists w'. split; [exact Hf|]. exact (Hfail "connection refused" eq_refl).
Defined.

Lemma marshal_unmarshal_roundtrip_witness :
  well_formed Example.demo_response = true /\
  Unmarshal (Marshal Example.demo_response) = Ok Example.demo_response.
Proof.
  split; [reflexivity|]. apply (marshal_unmarshal_roundtrip Example.demo_response).
  reflexivity.
Defined.

(** C9, the counterexample: a title that holds the byte 0xFF is written
    as the escape of U+FFFD and comes back as the three bytes of U+FFFD. *)
Lemma roundtrip_invalid_utf8_counterexample :
  Title <$> (match Unmarshal (Marshal Example.bad_title) with
             | Ok r => Some r
             | Err _ => None
             end) = Some (String "239" (String "191" (String "189" EmptyString))) /\
  Unmarshal (Marshal Example.bad_title) <> Ok Example.bad_title.
Proof.
  split; [by vm_compute|]. intros H. vm_compute in H. discriminate H.
Qed.

Lemma submit_index_out_of_range_witness :
  exists w' videoData,
    fetchVideoMetaData (Example.env [Example.no_stream] None) Example.page Example.init =
    (w', (Some videoData, None)) /\
    elems (Medias videoData) = [] /\
    submitHandler (Example.env [Example.no_stream] None) (Example.submit_request Example.page)
      newResponseWriter Example.init =
    (w', newResponseWriter, Panicked "index out of range [0] with length 0").
Proof.
  apply (submit_index_out_of_range (Example.env [Example.no_stream] None)
           (Example.submit_request Example.page) newResponseWriter Example.init
           Example.page Example.no_stream Example.no_stream_output);
    [ reflexivity | reflexivity | discriminate | reflexivity | apply page_accepted
    | apply init_miss | reflexivity | apply no_stream_decodes | reflexivity ].
Defined.

(** * Further properties *)

(** ** The fetcher, whatever the input *)

Lemma cacheKey_inj a b : cacheKey a = cacheKey b -> a = b.
Proof. unfold cacheKey. cbn. by intros [= ->]. Qed.

(** The input is refused with the error of the parser, refused with no
    error, or accepted. *)
Lemma url_cases env videoURL :
  (exists msg, ParseRequestURI env videoURL = inr msg) \/
  (exists u, ParseRequestURI env videoURL = inl u /\ (Scheme u = "" \/ Host u = "")) \/
  accepted_url env videoURL.
Proof.
  unfold accepted_url. destruct (ParseRequestURI env videoURL) as [u|msg]; [|by left; eauto].
  right. destruct (String.eqb_spec (Scheme u) ""); [by left; eauto|].
  destruct (String.eqb_spec (Host u) ""); [by left; eauto|].
  right. eauto.
Qed.

(** A lookup is a hit or a miss. *)
Lemma hit_or_miss env w videoURL :
  (exists v, cache_hit env w videoURL v) \/ cache_miss env w videoURL.
Proof.
  unfold cache_hit, cache_miss.
  destruct (RedisGetErr env (cacheKey videoURL)) as [msg|]; [by right; left; eauto|].
  destruct (redis w !! cacheKey videoURL) as [[payload ex]|]; [|by right; right; left].
  destruct (Unmarshal payload) as [v|e] eqn:Ev.
  - left. exists v. split; [done|]. eauto.
  - right. right. right. eauto.
Qed.

Lemma after_miss_cases env videoURL w :
  let w2 := log (Exec "yt-dlp" ["-j"; videoURL]) (log (RedisGet (cacheKey videoURL)) w) in
  (exists e, after_miss env videoURL w = (w2, (None, Some e))) \/
  (exists out y,
     tool_output env videoURL = (out, None) /\ YTDLP.Unmarshal out = Ok y /\
     after_miss env videoURL w =
     (fst (rdb_Set env (cacheKey videoURL) (Marshal (buildResponse y)) (5 * Minute) w2),
      (Some (buildResponse y), None))).
Proof.
  unfold after_miss. destruct (tool_output env videoURL) as [out [e|]]; [by left; eauto|].
  destruct (YTDLP.Unmarshal out) as [y|e] eqn:Ey; [|by left; eauto].
  right. by exists out, y.
Qed.

(** X1: a call of [fetchVideoMetaData] does one of four things and
    nothing else: it refuses the URL and touches nothing; it reads the
    store and returns the hit; it reads the store, runs the tool once, on
    [-j] and the URL, and fails, with the store as it was; or it reads,
    runs the tool and writes the encoded response under the key it read.
    A call that returns no response has left the store as it was. *)
Theorem fetch_events env videoURL w :
  let '(w', (res, err)) := fetchVideoMetaData env videoURL w in
  let key := cacheKey videoURL in
  let run := Exec "yt-dlp" ["-j"; videoURL] in
  (w' = w /\ res = None) \/
  (trace w' = trace w ++ [RedisGet key] /\ redis w' = redis w /\
   (exists v, res = Some v) /\ err = None) \/
  (trace w' = trace w ++ [RedisGet key; run] /\ redis w' = redis w /\
   res = None /\ exists e, err = Some e) \/
  (exists v,
     trace w' = trace w ++ [RedisGet key; run; RedisSet key (Marshal v) (5 * Minute)] /\
     res = Some v /\ err = None).
Proof.
  destruct (url_cases env videoURL) as [(msg & Hp) | [(u & Hp & Hu) | Ha]].
  - rewrite (fetch_unparsed _ _ _ _ Hp). by left.
  - rewrite (fetch_no_scheme_or_host _ _ _ _ Hp Hu). by left.
  - destruct (hit_or_miss env w videoURL) as [(v & Hh) | Hm].
    + rewrite (fetch_hit _ _ _ _ Ha Hh). cbv zeta. right. left.
      split; [done|]. split; [done|]. split; [by exists v | done].
    + rewrite (fetch_miss _ _ _ Ha Hm).
      destruct (after_miss_cases env videoURL w) as [(e & ->) | (out & y & _ & _ & ->)]; cbv zeta.
      * right. right. left. cbn. rewrite <- app_assoc.
        split; [done|]. split; [done|]. split; [done | by exists e].
      * right. right. right. exists (buildResponse y). split; [|done].
        unfold rdb_Set. destruct (RedisSetErr env (cacheKey videoURL)); cbn;
          by rewrite <- !app_assoc.
Qed.

(** What a fetch does to the store. *)
Lemma fetch_store env videoURL w :
  redis (fst (fetchVideoMetaData env videoURL w)) = redis w \/
  exists out y,
    YTDLP.Unmarshal out = Ok y /\
    redis (fst (fetchVideoMetaData env videoURL w)) =
    <[cacheKey videoURL := (Marshal (buildResponse y), 5 * Minute)]> (redis w).
Proof.
  pose proof (fetch_cases env videoURL w) as H.
  destruct (fetchVideoMetaData env videoURL w) as [w' [res err]]. by destruct H as [H _].
Qed.

(** X2: a fetch for one page leaves the entries of the other pages as
    they are: two pages never share a key. *)
Theorem fetch_keeps_other_pages env videoURL other w :
  other <> videoURL ->
  cacheKey other <> cacheKey videoURL /\
  redis (fst (fetchVideoMetaData env videoURL w)) !! cacheKey other =
  redis w !! cacheKey other.
Proof.
  intros Hne.
  assert (Hk : cacheKey other <> cacheKey videoURL) by (by intros ?%cacheKey_inj).
  split; [done|].
  destruct (fetch_store env videoURL w) as [-> | (out & y & _ & ->)]; [done|].
  by rewrite lookup_insert_ne.
Qed.

(** X3: a fetch that returned a response is followed, while the entry is
    there and Redis works, by fetches that return the same response from
    the store: the tool is not run again. *)
Theorem fetch_again env videoURL w w1 v :
  RedisGetErr env (cacheKey videoURL) = None ->
  RedisSetErr env (cacheKey videoURL) = None ->
  fetchVideoMetaData env videoURL w = (w1, (Some v, None)) ->
  fetchVideoMetaData env videoURL w1 =
  (log (RedisGet (cacheKey videoURL)) w1, (Some v, None)).
Proof.
  intros Hg Hs Hf.
  destruct (url_cases env videoURL) as [(msg & Hp) | [(u & Hp & Hu) | Ha]].
  { by rewrite (fetch_unparsed _ _ _ _ Hp) in Hf. }
  { by rewrite (fetch_no_scheme_or_host _ _ _ _ Hp Hu) in Hf. }
  apply fetch_hit; [done|]. split; [done|].
  destruct (hit_or_miss env w videoURL) as [(v' & Hh) | Hm].
  - rewrite (fetch_hit _ _ _ _ Ha Hh) in Hf. injection Hf as <- <-.
    destruct Hh as (_ & payload & ex & Hl & Hv). by exists payload, ex.
  - rewrite (fetch_miss _ _ _ Ha Hm) in Hf.
    destruct (after_miss_cases env videoURL w) as [(e & He) | (out & y & _ & Hy & He)];
      rewrite He in Hf; [done|].
    injection Hf as <- <-. unfold rdb_Set. rewrite Hs. cbn [fst redis].
    exists (Marshal (buildResponse y)), (5 * Minute). split; [by rewrite lookup_insert_eq|].
    apply Unmarshal_Marshal, well_formed_buildResponse. by eapply YTDLP_Unmarshal_ok.
Qed.

(** ** What holds in every world the server can reach *)

Lemma fetch_expected env videoURL w :
  exists es,
    trace (fst (fetchVideoMetaData env videoURL w)) = trace w ++ es /\
    Forall expected_event es.
Proof.
  destruct (url_cases env videoURL) as [(msg & Hp) | [(u & Hp & Hu) | Ha]].
  - rewrite (fetch_unparsed _ _ _ _ Hp). exists []. by rewrite app_nil_r.
  - rewrite (fetch_no_scheme_or_host _ _ _ _ Hp Hu). exists []. by rewrite app_nil_r.
  - assert (Hget : expected_event (RedisGet (cacheKey videoURL))) by (by exists videoURL).
    assert (Hrun : expected_event (Exec "yt-dlp" ["-j"; videoURL])).
    { split; [done|]. left. by exists videoURL. }
    destruct (hit_or_miss env w videoURL) as [(v & Hh) | Hm].
    + rewrite (fetch_hit _ _ _ _ Ha Hh). exists [RedisGet (cacheKey videoURL)].
      split; [done|]. constructor; [done | constructor].
    + rewrite (fetch_miss _ _ _ Ha Hm).
      destruct (after_miss_cases env videoURL w) as [(e & ->) | (out & y & _ & Hy & ->)].
      * exists [RedisGet (cacheKey videoURL); Exec "yt-dlp" ["-j"; videoURL]].
        split; [cbn; by rewrite <- app_assoc|].
        constructor; [done|]. constructor; [done | constructor].
      * exists [RedisGet (cacheKey videoURL); Exec "yt-dlp" ["-j"; videoURL];
                RedisSet (cacheKey videoURL) (Marshal (buildResponse y)) (5 * Minute)].
        split.
        { unfold rdb_Set. destruct (RedisSetErr env (cacheKey videoURL)); cbn;
            by rewrite <- !app_assoc. }
        constructor; [done|]. constructor; [done|]. constructor; [|constructor].
        split; [by exists videoURL|]. split; [by exists out, y | done].
Qed.

(** The world after a download: as it was, or with one run of the tool
    behind the two checks. *)
Lemma download_world env r rw w :
  let pageURL := Get (Query r) "url" in
  let formatID := Get (Query r) "format" in
  fst (fst (downloadHandler env r rw w)) = w \/
  (pageURL <> "" /\ isValidFormatID formatID = true /\
   fst (fst (downloadHandler env r rw w)) = log (Exec "yt-dlp" (downloadArgs formatID pageURL)) w).
Proof.
  cbv zeta. unfold downloadHandler.
  destruct (String.eqb_spec (Get (Query r) "url") "") as [|Hu]; [by left|].
  destruct (isValidFormatID (Get (Query r) "format")) eqn:Hv; [|by left].
  right. split; [done|]. split; [done|]. cbn [negb]. unfold cmd_Run, downloadArgs.
  destruct (RunProcess env _ _) as [chunks [e|]]; reflexivity.
Qed.

Lemma download_expected env r rw w :
  exists es,
    trace (fst (fst (downloadHandler env r rw w))) = trace w ++ es /\
    Forall expected_event es.
Proof.
  destruct (download_world env r rw w) as [-> | (Hu & Hv & ->)].
  - exists []. by rewrite app_nil_r.
  - eexists [_]. split; [reflexivity|]. constructor; [|constructor].
    split; [done|]. right. eauto.
Qed.

(** X4: in every world the server can reach, each event of the trace is
    one the program is expected to make: the store is read and written
    under keys [video_meta:URL] only, what is written is the encoding of
    a response built from an output of the tool and is kept five minutes,
    and the only program that is run is [yt-dlp], with [-j] and a URL or
    with the arguments of a download whose format id passed the check. *)
Theorem reachable_events w : reachable w -> Forall expected_event (trace w).
Proof.
  induction 1 as [| env videoURL w Hw IH | env r rw w Hw IH | env r rw w Hw IH | key w Hw IH].
  - constructor.
  - destruct (fetch_expected env videoURL w) as (es & -> & He). by apply Forall_app.
  - destruct (submit_world env r rw w) as [-> | ->]; [done|].
    destruct (fetch_expected env (FormValue r "videoURL") w) as (es & -> & He).
    by apply Forall_app.
  - destruct (download_expected env r rw w) as (es & -> & He). by apply Forall_app.
  - exact IH.
Qed.

Lemma store_inv_fetch env videoURL w :
  store_inv w -> store_inv (fst (fetchVideoMetaData env videoURL w)).
Proof.
  intros IH k p e.
  destruct (fetch_store env videoURL w) as [-> | (out & y & Hy & ->)]; [apply IH|].
  rewrite lookup_insert. case_decide as Hk; [|apply IH].
  intros [= <- <-]. split; [by exists videoURL|]. split; [done|].
  exists (buildResponse y). split; [|done].
  apply Unmarshal_Marshal, well_formed_buildResponse. by eapply YTDLP_Unmarshal_ok.
Qed.

(** X5: in every world the server can reach, each entry of the store is
    under a key [video_meta:URL], is kept five minutes, and decodes: the
    payload is the encoding of the response it decodes to.  So a lookup
    that finds an entry never falls through to the tool. *)
Theorem reachable_store w : reachable w -> store_inv w.
Proof.
  induction 1 as [| env videoURL w Hw IH | env r rw w Hw IH | env r rw w Hw IH | key w Hw IH].
  - intros k p e. cbn [redis]. by rewrite lookup_empty.
  - by apply store_inv_fetch.
  - destruct (submit_world env r rw w) as [-> | ->]; [done | by apply store_inv_fetch].
  - intros k p e. rewrite download_redis. apply IH.
  - intros k p e. cbn [redis]. rewrite lookup_delete. case_decide; [done | apply IH].
Qed.

Lemma fold_appendMedia_fields fs r :
  Source (fold_left appendMedia fs r) = Source r /\
  Error (fold_left appendMedia fs r) = Error r /\
  URL (fold_left appendMedia fs r) = URL r /\
  ID (fold_left appendMedia fs r) = ID r /\
  Author (fold_left appendMedia fs r) = Author r /\
  Title (fold_left appendMedia fs r) = Title r /\
  Thumbnail (fold_left appendMedia fs r) = Thumbnail r.
Proof.
  revert r. induction fs as [|f fs IH]; intros r; [done|]. cbn [fold_left].
  destruct (IH (appendMedia r f)) as (-> & -> & -> & -> & -> & -> & ->).
  unfold appendMedia. destruct (String.eqb _ ""); [done|]. by destruct (_ && _).
Qed.

(** X6: in every world the server can reach, a response that the fetcher
    returns, fresh or from the store, has an empty [source] and a false
    [error]: nothing in the program fills these two fields.  The other
    fields are those of the output of the tool it was built from, the
    author being the [uploader] and the URL the [webpage_url]. *)
Theorem fetch_response_fields env videoURL w w' v err :
  reachable w ->
  fetchVideoMetaData env videoURL w = (w', (Some v, err)) ->
  Source v = "" /\ Error v = false /\
  (exists out ytdlpData,
     YTDLP.Unmarshal out = Ok ytdlpData /\
     URL v = YTDLP.WebpageURL ytdlpData /\ ID v = YTDLP.ID ytdlpData /\
     Author v = YTDLP.Uploader ytdlpData /\ Title v = YTDLP.Title ytdlpData /\
     Thumbnail v = YTDLP.Thumbnail ytdlpData).
Proof.
  intros Hw Hf. destruct (fetch_result_built _ _ _ _ _ _ Hw Hf) as (out & y & Hy & ->).
  unfold buildResponse.
  match goal with
  | |- context [fold_left appendMedia ?fs ?r] =>
      destruct (fold_appendMedia_fields fs r) as (-> & -> & -> & -> & -> & -> & ->)
  end.
  split; [done|]. split; [done|]. by exists out, y.
Qed.

(** ** The response writer *)

Lemma Write_spec c rw :
  body (Write c rw) = body rw ++ [c] /\
  header (Write c rw) = header rw /\
  sent (Write c rw) = Some (default (200, header rw) (sent rw)).
Proof. unfold Write, WriteHeader. destruct (sent rw) eqn:E; cbn; rewrite ?E; done. Qed.

Lemma fold_Write {A} (f : A -> chunk) l rw :
  let rw' := fold_left (fun rw a => Write (f a) rw) l rw in
  body rw' = body rw ++ map f l /\
  header rw' = header rw /\
  sent rw' = match l with
             | [] => sent rw
             | _ => Some (default (200, header rw) (sent rw))
             end.
Proof.
  cbv zeta. revert rw. induction l as [|a l IH]; intros rw.
  - cbn. by rewrite app_nil_r.
  - cbn [fold_left map]. destruct (IH (Write (f a) rw)) as (-> & -> & ->).
    destruct (Write_spec (f a) rw) as (-> & -> & ->).
    rewrite <- app_assoc. split; [done|]. split; [done|]. by destruct l.
Qed.

Lemma http_Error_spec msg code rw :
  body (http_Error msg code rw) = body rw ++ [errorLine msg] /\
  header (http_Error msg code rw) = errorHeader (header rw) /\
  sent (http_Error msg code rw) = Some (default (code, errorHeader (header rw)) (sent rw)).
Proof.
  unfold http_Error, Write, WriteHeader, Header_Set, Header_Del, errorHeader. cbn.
  by destruct (sent rw).
Qed.

(** ** The handler of [/submit] *)

Lemma Get_missing vs key : ~ In key (map fst vs) -> Get vs key = "".
Proof.
  induction vs as [|[k v] vs IH]; [done|]. cbn. intros Hn.
  destruct (String.eqb_spec k key) as [->|]; [|apply IH]; tauto.
Qed.

(** X7: the [/submit] handler refuses a request before it looks
    anything up or runs anything: a form that does not parse gets
    [Error Parsing Form], and a form without a [videoURL], with an empty
    one, or with one that [utils.ValidateURL] refuses gets
    [Invalid or unsupported video URL], both with status 400 and with the
    world as it was. *)
Theorem submit_refused env r rw w :
  (forall e, ParseFormErr r = Some e ->
     submitHandler env r rw w = (w, http_Error "Error Parsing Form" 400 rw, Returned)) /\
  (ParseFormErr r = None ->
   ~ In "videoURL" (map fst (Form r)) \/ FormValue r "videoURL" = "" \/
   ValidateURL env (FormValue r "videoURL") = false ->
   submitHandler env r rw w =
   (w, http_Error "Invalid or unsupported video URL" 400 rw, Returned)) /\
  (forall msg, sent rw = None ->
     sent (http_Error msg 400 rw) = Some (400, errorHeader (header rw)) /\
     body (http_Error msg 400 rw) = body rw ++ [errorLine msg]).
Proof.
  split; [|split].
  - intros e He. unfold submitHandler. by rewrite He.
  - intros Hp H. unfold submitHandler. rewrite Hp.
    assert (Hc : String.eqb (FormValue r "videoURL") "" ||
                 negb (ValidateURL env (FormValue r "videoURL")) = true).
    { destruct H as [H | [H | H]].
      - unfold FormValue. by rewrite Get_missing.
      - by rewrite H.
      - rewrite H. apply orb_true_r. }
    by rewrite Hc.
  - intros msg Hs. destruct (http_Error_spec msg 400 rw) as (-> & _ & ->). by rewrite Hs.
Qed.

Lemma submit_checked env r rw w :
  ParseFormErr r = None ->
  FormValue r "videoURL" <> "" ->
  ValidateURL env (FormValue r "videoURL") = true ->
  submitHandler env r rw w =
  (let videoURL := FormValue r "videoURL" in
   let '(w1, (videoData, err)) := fetchVideoMetaData env videoURL w in
   match err with
   | Some e =>
       (w1, http_Error ("Error fetching video meta data: " +:+ ErrorText env e)
              StatusInternalServerError rw, Returned)
   | None =>
       match videoData with
       | None => (w1, rw, Panicked "invalid memory address or nil pointer dereference")
       | Some videoData =>
           match elems (Medias videoData) with
           | [] => (w1, rw, Panicked "index out of range [0] with length 0")
           | media0 :: _ =>
               (w1,
                Write (Printf submitTail [strings.ReplaceAll (Title videoData) "/" "-"])
                  (fold_left (fun rw media => Write (optionOf media) rw)
                     (elems (Medias videoData))
                     (Write (Printf submitHead
                               [FormatID media0; URL videoData; Thumbnail videoData;
                                Title videoData; Author videoData]) rw)),
                Returned)
           end
       end
   end).
Proof.
  intros Hp Hne Hv. unfold submitHandler. rewrite Hp, Hv.
  apply String.eqb_neq in Hne. rewrite Hne. reflexivity.
Qed.

(** X8: when the tool cannot be run, exits non-zero, or writes what does
    not decode, the [/submit] handler answers with status 500 and the
    line [Error fetching video meta data: ] followed by the text of the
    error, and the store is as it was. *)
Theorem submit_fetch_failure env r rw w out err :
  let videoURL := FormValue r "videoURL" in
  ParseFormErr r = None ->
  videoURL <> "" ->
  ValidateURL env videoURL = true ->
  accepted_url env videoURL ->
  cache_miss env w videoURL ->
  tool_output env videoURL = (out, err) ->
  err <> None \/ (exists e, YTDLP.Unmarshal out = Err e) ->
  exists w' e,
    fetchVideoMetaData env videoURL w = (w', (None, Some e)) /\
    (ExtractionFailed e \/ YTDLP.Unmarshal out = Err e) /\
    submitHandler env r rw w =
    (w', http_Error ("Error fetching video meta data: " +:+ ErrorText env e) 500 rw,
     Returned) /\
    redis w' = redis w /\
    (sent rw = None ->
     fst <$> sent (http_Error ("Error fetching video meta data: " +:+ ErrorText env e) 500 rw)
     = Some 500).
Proof.
  intros videoURL Hp Hne Hv Ha Hm Ht Hbad.
  assert (Hf : exists e,
    fetchVideoMetaData env videoURL w =
    (log (Exec "yt-dlp" ["-j"; videoURL]) (log (RedisGet (cacheKey videoURL)) w),
     (None, Some e)) /\
    (ExtractionFailed e \/ YTDLP.Unmarshal out = Err e)).
  { rewrite (fetch_miss _ _ _ Ha Hm). unfold after_miss. rewrite Ht.
    destruct err as [pe|].
    - exists (exec_error pe). split; [done|]. left. by destruct pe.
    - destruct Hbad as [? | (e & He)]; [done|]. rewrite He. exists e. by split; [|right]. }
  destruct Hf as (e & Hf & He). eexists _, e. split; [exact Hf|]. split; [exact He|].
  split; [|split; [done|]].
  - rewrite submit_checked by done. fold videoURL. cbv zeta. by rewrite Hf.
  - intros Hs. destruct (http_Error_spec ("Error fetching video meta data: " +:+ ErrorText env e)
                           500 rw) as (_ & _ & ->). by rewrite Hs.
Qed.

(** X9: a URL that [utils.ValidateURL] lets through and that
    [url.ParseRequestURI] reads with an empty scheme or an empty host
    makes the [/submit] handler panic: the fetcher returns a nil response
    with a nil error, and the handler reads the title through the nil
    pointer.  Nothing is written to the response and the world is as it
    was. *)
Theorem submit_nil_response env r rw w u :
  let videoURL := FormValue r "videoURL" in
  ParseFormErr r = None ->
  videoURL <> "" ->
  ValidateURL env videoURL = true ->
  ParseRequestURI env videoURL = inl u ->
  Scheme u = "" \/ Host u = "" ->
  submitHandler env r rw w =
  (w, rw, Panicked "invalid memory address or nil pointer dereference").
Proof.
  intros videoURL Hp Hne Hv Hu He.
  rewrite submit_checked by done. fold videoURL. cbv zeta.
  by rewrite (fetch_no_scheme_or_host _ _ _ _ Hu He).
Qed.

(** X10: when the fetcher returns a response with at least one format,
    the [/submit] handler writes, after what the body held: the head,
    with the id of the first format as the selected one, then one option
    for each format, in the order of the response, with the format id as
    its value, then the tail with the title in which each slash is a
    dash.  The status is 200, unless one was sent before, and the header
    is as it was. *)
Theorem submit_renders env r rw w w1 v media0 medias :
  let videoURL := FormValue r "videoURL" in
  ParseFormErr r = None ->
  videoURL <> "" ->
  ValidateURL env videoURL = true ->
  fetchVideoMetaData env videoURL w = (w1, (Some v, None)) ->
  elems (Medias v) = media0 :: medias ->
  exists rw',
    submitHandler env r rw w = (w1, rw', Returned) /\
    body rw' =
      body rw ++
      Printf submitHead [FormatID media0; URL v; Thumbnail v; Title v; Author v] ::
      map (fun media => Printf submitOption [FormatID media; optionLabel media])
        (media0 :: medias) ++
      [Printf submitTail [strings.ReplaceAll (Title v) "/" "-"]] /\
    header rw' = header rw /\
    sent rw' = Some (default (200, header rw) (sent rw)).
Proof.
  intros videoURL Hp Hne Hv Hf Hm.
  rewrite submit_checked by done. fold videoURL. cbv zeta. rewrite Hf, Hm.
  eexists. split; [reflexivity|].
  match goal with |- context [Write ?c (fold_left ?f ?l ?rw0)] =>
    destruct (Write_spec c (fold_left f l rw0)) as (-> & -> & ->);
    destruct (fold_Write optionOf l rw0) as (Hb & Hh & Hs)
  end.
  cbv zeta in Hb, Hh, Hs. rewrite Hb, Hh, Hs.
  match goal with |- context [Write ?c rw] =>
    destruct (Write_spec c rw) as (-> & -> & ->)
  end.
  split; [by rewrite <- !app_assoc|]. split; [done|].
  cbn [default from_option id option_rect]. by destruct (sent rw).
Qed.

(** ** The handler of [/download] *)

Lemma download_checked env r rw w :
  let pageURL := Get (Query r) "url" in
  let formatID := Get (Query r) "format" in
  let fileName :=
    if String.eqb (Get (Query r) "filename") "" then "video.mp4"
    else Get (Query r) "filename" in
  pageURL <> "" ->
  isValidFormatID formatID = true ->
  downloadHandler env r rw w =
  (let rw2 := {| header := downloadHeader fileName (header rw);
                 sent := sent rw; body := body rw |} in
   let rw3 :=
     fold_left (fun rw c => Write (Bytes c) rw)
       (fst (RunProcess env "yt-dlp" (downloadArgs formatID pageURL))) rw2 in
   (log (Exec "yt-dlp" (downloadArgs formatID pageURL)) w,
    match snd (RunProcess env "yt-dlp" (downloadArgs formatID pageURL)) with
    | Some _ => http_Error "Failed to download video" StatusInternalServerError rw3
    | None => rw3
    end,
    Returned)).
Proof.
  intros pageURL formatID fileName Hu Hv. unfold downloadHandler.
  fold pageURL formatID. apply String.eqb_neq in Hu. rewrite Hu, Hv. cbn [negb].
  unfold cmd_Run, downloadArgs. fold fileName.
  destruct (RunProcess env _ _) as [chunks [e|]]; reflexivity.
Qed.

(** X11: a request of [/download] with a page URL that is not empty and
    a format id that passes the check runs the tool once, with the
    arguments of lines 186 to 194: the format id after [-f] and the page
    URL, as it came, last.  When the tool succeeds the body is what the
    tool wrote, chunk by chunk; the header names the file of the
    [filename] parameter, or [video.mp4] when there is none, and the type
    [video/mp4]; the status is 200 as soon as there is a chunk. *)
Theorem download_streams env r rw w chunks :
  let pageURL := Get (Query r) "url" in
  let formatID := Get (Query r) "format" in
  let fileName :=
    if String.eqb (Get (Query r) "filename") "" then "video.mp4"
    else Get (Query r) "filename" in
  pageURL <> "" ->
  isValidFormatID formatID = true ->
  RunProcess env "yt-dlp" (downloadArgs formatID pageURL) = (chunks, None) ->
  exists rw',
    downloadHandler env r rw w =
    (log (Exec "yt-dlp" (downloadArgs formatID pageURL)) w, rw', Returned) /\
    body rw' = body rw ++ map Bytes chunks /\
    header rw' = downloadHeader fileName (header rw) /\
    (sent rw = None ->
     sent rw' = match chunks with
                | [] => None
                | _ => Some (200, downloadHeader fileName (header rw))
                end).
Proof.
  intros pageURL formatID fileName Hu Hv Hrun.
  rewrite download_checked by done. fold pageURL formatID fileName. cbv zeta.
  rewrite Hrun. cbn [fst snd]. eexists. split; [reflexivity|].
  match goal with |- context [fold_left ?f chunks ?rw0] =>
    destruct (fold_Write Bytes chunks rw0) as (-> & -> & ->)
  end.
  cbn [body header sent]. split; [done|]. split; [done|].
  intros ->. by destruct chunks.
Qed.

(** X12: when the tool fails, the [/download] handler adds the line
    [Failed to download video] after what the tool wrote.  If the tool
    wrote nothing the status is 500 and the header that is sent still has
    the [Content-Disposition] of the download, with the type of a text;
    if the tool wrote a chunk, status 200 and the header of the download
    were sent with it and stay. *)
Theorem download_failure env r rw w chunks e :
  let pageURL := Get (Query r) "url" in
  let formatID := Get (Query r) "format" in
  let fileName :=
    if String.eqb (Get (Query r) "filename") "" then "video.mp4"
    else Get (Query r) "filename" in
  pageURL <> "" ->
  isValidFormatID formatID = true ->
  RunProcess env "yt-dlp" (downloadArgs formatID pageURL) = (chunks, Some e) ->
  exists rw',
    downloadHandler env r rw w =
    (log (Exec "yt-dlp" (downloadArgs formatID pageURL)) w, rw', Returned) /\
    body rw' = body rw ++ map Bytes chunks ++ [errorLine "Failed to download video"] /\
    (sent rw = None ->
     sent rw' = match chunks with
                | [] => Some (500, errorHeader (downloadHeader fileName (header rw)))
                | _ => Some (200, downloadHeader fileName (header rw))
                end) /\
    errorHeader (downloadHeader fileName (header rw)) !! "Content-Disposition" =
      Some ("attachment; filename=" +:+
            String json.dq (fileName +:+ String json.dq EmptyString)) /\
    errorHeader (downloadHeader fileName (header rw)) !! "Content-Type" =
      Some "text/plain; charset=utf-8".
Proof.
  intros pageURL formatID fileName Hu Hv Hrun.
  rewrite download_checked by done. fold pageURL formatID fileName. cbv zeta.
  rewrite Hrun. cbn [fst snd]. eexists. split; [reflexivity|].
  match goal with |- context [http_Error ?m ?c ?rw0] =>
    destruct (http_Error_spec m c rw0) as (-> & _ & ->)
  end.
  match goal with |- context [fold_left ?f chunks ?rw0] =>
    destruct (fold_Write Bytes chunks rw0) as (-> & -> & ->)
  end.
  cbn [body header sent]. split; [by rewrite <- app_assoc|]. split; [|split].
  - intros ->. by destruct chunks.
  - unfold errorHeader, downloadHeader.
    rewrite lookup_insert_ne by done. rewrite lookup_insert_ne by done.
    rewrite lookup_delete_ne by done. rewrite lookup_insert_ne by done.
    by rewrite lookup_insert_eq.
  - unfold errorHeader. rewrite lookup_insert_ne by done. by rewrite lookup_insert_eq.
Qed.

(** X13: whatever the request, the [/download] handler returns (it has
    no panic), leaves the store as it was and makes no Redis call, and
    adds to the trace nothing, or one run of [yt-dlp] whose format id
    passed the check and whose page URL is not empty.  The page URL is
    not looked at beyond that: neither [utils.ValidateURL] nor the URL
    parser is asked. *)
Theorem download_effects env r rw w :
  let '(w', _, o) := downloadHandler env r rw w in
  let pageURL := Get (Query r) "url" in
  let formatID := Get (Query r) "format" in
  o = Returned /\ redis w' = redis w /\
  (trace w' = trace w /\ (pageURL = "" \/ isValidFormatID formatID = false) \/
   trace w' = trace w ++ [Exec "yt-dlp" (downloadArgs formatID pageURL)] /\
   pageURL <> "" /\ isValidFormatID formatID = true).
Proof.
  destruct (String.eqb_spec (Get (Query r) "url") "") as [Hu|Hu].
  { unfold downloadHandler. rewrite Hu. cbn. split; [done|]. split; [done|]. left. eauto. }
  destruct (isValidFormatID (Get (Query r) "format")) eqn:Hv.
  - rewrite download_checked by done. cbv zeta.
    split; [done|]. split; [done|]. by right.
  - rewrite downloadHandler_invalid by done. cbv zeta.
    split; [done|]. split; [done|]. left. eauto.
Qed.

(** X14: the two handlers do not agree on format ids.  A format that the
    fetcher returns with an id that does not pass the check of
    [/download] is still listed by [/submit] as an option, with that id
    as its value, and a request of [/download] for that id is refused
    with [Invalid format], whatever the page. *)
Theorem listed_format_refused env r rw w w1 v media :
  let videoURL := FormValue r "videoURL" in
  ParseFormErr r = None ->
  videoURL <> "" ->
  ValidateURL env videoURL = true ->
  fetchVideoMetaData env videoURL w = (w1, (Some v, None)) ->
  In media (elems (Medias v)) ->
  isValidFormatID (FormatID media) = false ->
  In (Printf submitOption [FormatID media; optionLabel media])
     (body (snd (fst (submitHandler env r rw w)))) /\
  (forall env' r' rw' w',
     Get (Query r') "url" <> "" ->
     Get (Query r') "format" = FormatID media ->
     downloadHandler env' r' rw' w' =
     (w', http_Error "Invalid format" StatusBadRequest rw', Returned)).
Proof.
  intros videoURL Hp Hne Hv Hf Hin Hbad. split.
  - rewrite submit_checked by done. fold videoURL. cbv zeta. rewrite Hf.
    destruct (elems (Medias v)) as [|media0 medias] eqn:Em; [done|]. cbn [fst snd].
    match goal with |- context [Write ?c (fold_left ?f ?l ?rw0)] =>
      destruct (Write_spec c (fold_left f l rw0)) as (-> & _ & _);
      destruct (fold_Write optionOf l rw0) as (Hb & _ & _)
    end.
    cbv zeta in Hb. rewrite Hb.
    apply in_or_app. left. apply in_or_app. right.
    apply (in_map optionOf) in Hin. exact Hin.
  - intros env' r' rw' w' Hu Hfmt. rewrite downloadHandler_invalid by (by rewrite Hfmt).
    apply String.eqb_neq in Hu. by rewrite Hu.
Qed.

(** ** The texts of the page *)

Lemma strip_prefix_spec p s r : json.strip_prefix p s = Some r <-> s = p +:+ r.
Proof.
  revert s. induction p as [|c p IH]; intros s; cbn.
  - split; [by intros [= ->] | by intros ->].
  - destruct s as [|d s]; [done|].
    destruct (Ascii.eqb_spec c d) as [->|Hn].
    + rewrite IH. split; [by intros -> | by intros [= ->]].
    + split; [done | intros [= -> _]; done].
Qed.

Lemma Contains_spec s sub : strings.Contains s sub = true <-> substring sub s.
Proof.
  unfold substring. induction s as [|c s IH]; cbn.
  - destruct (json.strip_prefix sub "") as [r|] eqn:E.
    + apply strip_prefix_spec in E. split; [|done]. intros _. by exists "", r.
    + split; [done|]. intros (a & b & Hs). destruct a; [|done].
      cbn in Hs. apply strip_prefix_spec in Hs. congruence.
  - destruct (json.strip_prefix sub (String c s)) as [r|] eqn:E.
    + apply strip_prefix_spec in E. split; [|done]. intros _. by exists "", r.
    + rewrite IH. split.
      * intros (a & b & ->). by exists (String c a), b.
      * intros (a & b & Hs). destruct a as [|c' a].
        { cbn in Hs. apply strip_prefix_spec in Hs. congruence. }
        injection Hs as -> ->. by exists a, b.
Qed.

Lemma ReplaceAll_loop_byte f s a b :
  (len s < f)%nat ->
  bytes (strings.ReplaceAll_loop f s (String a "") (String b "")) =
  map (fun c => if Ascii.eqb c a then b else c) (bytes s).
Proof.
  revert s. induction f as [|f IH]; intros s Hf; [lia|].
  destruct s as [|c s]; [done|]. cbn [strings.ReplaceAll_loop json.strip_prefix].
  cbn in Hf. cbn [bytes map]. rewrite (Ascii.eqb_sym c a).
  destruct (Ascii.eqb a c); cbn [String.append bytes]; f_equal; apply IH; lia.
Qed.

(** X15: the file name that the [/submit] handler puts in the download
    link is the title with a dash for each slash: byte for byte the
    title elsewhere, so of the same length, and without any slash. *)
Theorem sanitizedTitle_spec title :
  let sanitizedTitle := strings.ReplaceAll title "/" "-" in
  bytes sanitizedTitle =
    map (fun c => if Ascii.eqb c "/" then "-"%char else c) (bytes title) /\
  len sanitizedTitle = len title /\
  ~ In "/"%char (bytes sanitizedTitle).
Proof.
  cbv zeta.
  assert (H : bytes (strings.ReplaceAll title "/" "-") =
              map (fun c => if Ascii.eqb c "/" then "-"%char else c) (bytes title)).
  { unfold strings.ReplaceAll. apply ReplaceAll_loop_byte. lia. }
  split; [exact H|]. split.
  - assert (Hl : forall s, len s = length (bytes s)) by (induction s; cbn; congruence).
    by rewrite !Hl, H, length_map.
  - rewrite H. intros (c & Hc & _)%in_map_iff.
    destruct (Ascii.eqb_spec c "/"); [discriminate | done].
Qed.

Lemma append_not_empty (s t : string) : t <> "" -> s +:+ t <> "".
Proof.
  intros Ht H. apply (f_equal len) in H. rewrite len_app in H.
  destruct t; [done|]. cbn in H. lia.
Qed.

(** X16: the label of an option is empty only when the quality of the
    format is: a quality with one of the two marks gets [Audio only], a
    word of the quality, or the height followed by [p]. *)
Theorem optionLabel_empty media : optionLabel media = "" <-> Quality media = "".
Proof.
  unfold optionLabel. split.
  - destruct (_ || _) eqn:Em; [|done].
    destruct (strings.Contains (Quality media) "audio only"); [done|].
    destruct (find _ _) as [p|] eqn:Ef.
    + apply find_some in Ef as [_ Hp]. destruct p; [done|]. cbn [String.eqb]. done.
    + cbn [String.eqb]. intros H. by apply append_not_empty in H.
  - by intros ->.
Qed.

(** X17: a quality that has [audio only] in it is labelled
    [Audio only], also when it has [video only] in it as well; a quality
    that has neither of the two marks is its own label. *)
Theorem optionLabel_marks media :
  (substring "audio only" (Quality media) -> optionLabel media = "Audio only") /\
  (~ substring "video only" (Quality media) -> ~ substring "audio only" (Quality media) ->
   optionLabel media = Quality media).
Proof.
  unfold optionLabel. split.
  - intros Ha%Contains_spec. rewrite Ha, orb_true_r. reflexivity.
  - intros Hv Ha.
    destruct (strings.Contains (Quality media) "video only") eqn:Ev;
      [by apply Contains_spec in Ev|].
    destruct (strings.Contains (Quality media) "audio only") eqn:Ea;
      [by apply Contains_spec in Ea|].
    reflexivity.
Qed.

(** X18: the two handlers do not agree on page URLs either.  A URL that
    [utils.ValidateURL] refuses is refused by [/submit], with nothing
    run; the same URL in a request of [/download], with a format id that
    passes the check, is handed to the tool as it is. *)
Theorem refused_url_downloaded env r r' rw rw' w pageURL :
  ParseFormErr r = None ->
  FormValue r "videoURL" = pageURL ->
  Get (Query r') "url" = pageURL ->
  pageURL <> "" ->
  isValidFormatID (Get (Query r') "format") = true ->
  ValidateURL env pageURL = false ->
  submitHandler env r rw w =
  (w, http_Error "Invalid or unsupported video URL" StatusBadRequest rw, Returned) /\
  fst (fst (downloadHandler env r' rw' w)) =
  log (Exec "yt-dlp" (downloadArgs (Get (Query r') "format") pageURL)) w.
Proof.
  intros Hp Hform Hq Hne Hv Hval. split.
  - unfold submitHandler. rewrite Hp, Hform, Hval. cbn [negb]. by rewrite orb_true_r.
  - rewrite download_checked by (by rewrite ?Hq). by rewrite Hq.
Qed.

(** ** The errors of a fetch *)

Lemma decode_string_err cur v e : json.decode_string cur v = Err e -> MalformedMetadata e.
Proof. destruct v; try done; by intros [= <-]. Qed.

Lemma decode_int_err cur v e : json.decode_int cur v = Err e -> MalformedMetadata e.
Proof.
  destruct v; try done; try (by intros [= <-]).
  cbn. destruct (json.ParseInt lit); [done|]. by intros [= <-].
Qed.

Lemma decode_struct_err {T} (fields : list (json.Field T)) :
  (forall name dec, In (name, dec) fields ->
     forall cur v e, dec cur v = Err e -> MalformedMetadata e) ->
  forall cur v e, json.decode_struct fields cur v = Err e -> MalformedMetadata e.
Proof.
  intros Hfields cur v e H. destruct v as [| | | | |ms]; try done; try (by injection H as <-).
  cbn [json.decode_struct] in H.
  revert cur H. induction ms as [|[key v] ms IH]; intros cur H; [done|].
  cbn [json.decode_members] in H.
  destruct (json.find_field fields key) as [dec|] eqn:Ef; [|by eapply IH].
  destruct (find_field_In _ _ _ Ef) as [name Hin].
  destruct (dec cur v) as [cur'|e'] eqn:Ed; cbn [mbind result_mbind result_bind] in H.
  - by eapply IH.
  - injection H as <-. by eapply Hfields.
Qed.

Lemma decode_slice_err {A} (dec : A -> json.Value -> result A) zero :
  (forall cur v e, dec cur v = Err e -> MalformedMetadata e) ->
  forall cur v e, json.decode_slice dec zero cur v = Err e -> MalformedMetadata e.
Proof.
  intros Hdec cur v e H. destruct v as [| | | |vs|]; try done; try (by injection H as <-).
  cbn [json.decode_slice] in H.
  destruct (json.decode_elems dec zero (elems cur) vs) as [xs|e'] eqn:E; [done|].
  cbn [mbind result_mbind result_bind] in H. injection H as <-.
  revert E. generalize (elems cur). clear cur.
  induction vs as [|v vs IH]; intros cur E; [done|].
  cbn [json.decode_elems] in E.
  destruct (dec (hd zero cur) v) as [y|e1] eqn:Ey; cbn [mbind result_mbind result_bind] in E.
  - destruct (json.decode_elems dec zero (tl cur) vs) as [ys|e2] eqn:Eys;
      cbn [mbind result_mbind result_bind] in E; [done|].
    injection E as <-. by eapply IH.
  - injection E as <-. by eapply Hdec.
Qed.

Ltac field_err :=
  let cur := fresh "cur" in let v := fresh "v" in let e := fresh "e" in
  let H := fresh "H" in let E := fresh "E" in
  intros cur v e H; cbv beta in H;
  match type of H with
  | (?m ≫= _) = Err _ => destruct m as [?|?] eqn:E; [discriminate H|]
  end;
  cbn [mbind result_mbind result_bind] in H; injection H as <-;
  first [ by eapply decode_string_err | by eapply decode_int_err ].

Lemma format_fields_err name dec :
  In (name, dec) YTDLP.format_fields ->
  forall cur v e, dec cur v = Err e -> MalformedMetadata e.
Proof.
  unfold YTDLP.format_fields. cbn [In].
  intros [[= <- <-] | [[= <- <-] | [[= <- <-] | [[= <- <-] | [[= <- <-] |
         [[= <- <-] | [[= <- <-] | [[= <- <-] | [[= <- <-] | []]]]]]]]]]; field_err.
Qed.

Lemma output_fields_err name dec :
  In (name, dec) YTDLP.fields ->
  forall cur v e, dec cur v = Err e -> MalformedMetadata e.
Proof.
  unfold YTDLP.fields. cbn [In].
  intros [[= <- <-] | [[= <- <-] | [[= <- <-] | [[= <- <-] | [[= <- <-] |
         [[= <- <-] | []]]]]]]; try field_err.
  intros cur v e H. cbv beta in H.
  match type of H with
  | (?m ≫= _) = Err _ => destruct m as [fs|e'] eqn:E; [discriminate H|]
  end.
  cbn [mbind result_mbind result_bind] in H. injection H as <-.
  eapply decode_slice_err; [|exact E].
  intros c' v' e''. apply decode_struct_err, format_fields_err.
Qed.

Lemma YTDLP_Unmarshal_err data e : YTDLP.Unmarshal data = Err e -> MalformedMetadata e.
Proof.
  unfold YTDLP.Unmarshal. destruct (json.parse data) as [v|]; [|by intros [= <-]].
  apply decode_struct_err, output_fields_err.
Qed.

(** X19: an error that [fetchVideoMetaData] returns comes with no
    response, and is the error of the URL parser, with the world as it
    was, the error of running the tool, or a syntax or type error of
    decoding its output.  A failure of Redis, on the read or on the write,
    is never returned. *)
Theorem fetch_errors env videoURL w w' res e :
  fetchVideoMetaData env videoURL w = (w', (res, Some e)) ->
  res = None /\
  (InvalidURL e /\ w' = w \/ ExtractionFailed e \/ MalformedMetadata e) /\
  e <> RedisNil /\ (forall msg, e <> RedisError msg).
Proof.
  intros Hf.
  assert (H : res = None /\
              (InvalidURL e /\ w' = w \/ ExtractionFailed e \/ MalformedMetadata e)).
  { destruct (url_cases env videoURL) as [(msg & Hp) | [(u & Hp & Hu) | Ha]].
    - rewrite (fetch_unparsed _ _ _ _ Hp) in Hf. injection Hf as <- <- <-.
      split; [done|]. by left.
    - by rewrite (fetch_no_scheme_or_host _ _ _ _ Hp Hu) in Hf.
    - destruct (hit_or_miss env w videoURL) as [(v & Hh) | Hm].
      { by rewrite (fetch_hit _ _ _ _ Ha Hh) in Hf. }
      rewrite (fetch_miss _ _ _ Ha Hm) in Hf. unfold after_miss in Hf.
      destruct (tool_output env videoURL) as [out [pe|]].
      + injection Hf as <- <- <-. split; [done|]. right. left. by destruct pe.
      + destruct (YTDLP.Unmarshal out) as [y|e'] eqn:Ey; [done|].
        injection Hf as <- <- <-. split; [done|]. right. right.
        by eapply YTDLP_Unmarshal_err. }
  destruct H as [Hres Hk]. split; [done|]. split; [done|].
  split; [|intros msg]; intros ->; by destruct Hk as [[[] _] | [[] | []]].
Qed.

(** X20: the [/submit] handler panics in two cases only, both after a
    fetch that returned no error: the response is nil, or it has no
    format.  In both it has written nothing to the response. *)
Theorem submit_panics env r rw w w' rw' msg :
  submitHandler env r rw w = (w', rw', Panicked msg) ->
  rw' = rw /\
  exists res,
    fetchVideoMetaData env (FormValue r "videoURL") w = (w', (res, None)) /\
    (res = None /\ msg = "invalid memory address or nil pointer dereference" \/
     (exists v, res = Some v /\ elems (Medias v) = []) /\
     msg = "index out of range [0] with length 0").
Proof.
  unfold submitHandler. destruct (ParseFormErr r); [done|].
  destruct (_ || _); [done|].
  destruct (fetchVideoMetaData env _ w) as [w1 [videoData [e|]]]; [done|].
  destruct videoData as [v|].
  - destruct (elems (Medias v)) eqn:Em; [|done].
    intros [= <- <- <-]. split; [done|]. exists (Some v). split; [done|]. right. eauto.
  - intros [= <- <- <-]. split; [done|]. exists None. split; [done|]. by left.
Qed.

(** ** The words of a quality *)

Lemma Split_loop_word c w : ~ In c (bytes w) ->
  forall f r cur, (len w <= f)%nat ->
  strings.Split_loop f (w +:+ r) (String c "") cur =
  strings.Split_loop (f - len w) r (String c "") (cur +:+ w).
Proof.
  induction w as [|d w IH]; intros Hn f r cur Hf.
  - cbn. by rewrite Nat.sub_0_r, app_nil_r_s.
  - cbn in Hf. destruct f as [|f]; [lia|].
    cbn [String.append strings.Split_loop json.strip_prefix len Nat.sub].
    destruct (Ascii.eqb_spec c d) as [->|Hd]; [exfalso; apply Hn; by left|].
    rewrite IH by (try lia; intros ?; apply Hn; by right).
    by rewrite app_assoc_s.
Qed.

Lemma len_Join_cons w ws sep : (len w <= len (Join (w :: ws) sep))%nat.
Proof. destruct ws; cbn [Join]; rewrite ?len_app; lia. Qed.

Lemma Split_loop_Join c ws :
  Forall (fun w => ~ In c (bytes w)) ws ->
  forall f cur w0, (len (Join (w0 :: ws) (String c "")) < f)%nat ->
  ~ In c (bytes w0) ->
  strings.Split_loop f (Join (w0 :: ws) (String c "")) (String c "") cur =
  (cur +:+ w0) :: ws.
Proof.
  induction 1 as [|w ws Hw Hws IH]; intros f cur w0 Hf Hw0.
  - cbn [Join] in *. rewrite <- (app_nil_r_s w0) at 1.
    rewrite Split_loop_word by (done || lia).
    destruct (f - len w0)%nat eqn:E; [lia|]. reflexivity.
  - change (Join (w0 :: w :: ws) (String c ""))
      with (w0 +:+ String c (Join (w :: ws) (String c ""))) in *.
    rewrite len_app in Hf. cbn [len] in Hf.
    rewrite Split_loop_word by (done || lia).
    destruct (f - len w0)%nat as [|f'] eqn:E; [lia|].
    cbn [strings.Split_loop json.strip_prefix]. rewrite Ascii.eqb_refl.
    rewrite IH by (done || lia). reflexivity.
Qed.

(** X21: for a quality made of words with one space between them, with
    [video only] in it and without [audio only], the label of the option
    is the first word that ends in [p] or has an [x] in it, and the
    height followed by [p] when there is no such word. *)
Theorem optionLabel_video_only media w0 ws :
  Forall (fun w => ~ In " "%char (bytes w)) (w0 :: ws) ->
  Quality media = Join (w0 :: ws) " " ->
  substring "video only" (Quality media) ->
  ~ substring "audio only" (Quality media) ->
  optionLabel media =
  match find (fun p => strings.HasSuffix p "p" || strings.Contains p "x") (w0 :: ws) with
  | Some p => p
  | None => json.FormatInt (Height media) +:+ "p"
  end.
Proof.
  intros Hws Hq Hv%Contains_spec Ha. unfold optionLabel. rewrite Hv. cbn [orb].
  destruct (strings.Contains (Quality media) "audio only") eqn:Ea;
    [by apply Contains_spec in Ea|].
  assert (Hs : strings.Split (Quality media) " " = w0 :: ws).
  { unfold strings.Split. rewrite Hq. apply Forall_cons in Hws as [H0 Hws].
    rewrite Split_loop_Join by (done || lia). reflexivity. }
  rewrite Hs. destruct (find _ (w0 :: ws)) as [p|] eqn:Ef; [|reflexivity].
  apply find_some in Ef as [_ Hp]. by destruct p.
Qed.

(** ** The further properties at the examples *)

Lemma demo_fetch :
  snd (fetchVideoMetaData (Example.env [Example.demo] None) Example.page Example.init) =
  (Some Example.demo_response, None).
Proof. vm_compute. reflexivity. Qed.

Lemma dash_fetch :
  snd (fetchVideoMetaData (Example.env [Scenario.dash] None) Example.page Example.init) =
  (Some Scenario.dash_response, None).
Proof. vm_compute. reflexivity. Qed.

Lemma fetch_keeps_other_pages_witness :
  cacheKey Example.page <> cacheKey "https://example.com/other" /\
  redis (fst (fetchVideoMetaData (Example.env [Example.demo] None)
                "https://example.com/other" Scenario.cached)) !! cacheKey Example.page =
  redis Scenario.cached !! cacheKey Example.page.
Proof.
  apply (fetch_keeps_other_pages (Example.env [Example.demo] None)
           "https://example.com/other" Example.page Scenario.cached).
  apply String.eqb_neq. reflexivity.
Defined.

Lemma fetch_again_witness :
  exists w1,
    fetchVideoMetaData (Example.env [Example.demo] None) Example.page Example.init =
    (w1, (Some Example.demo_response, None)) /\
    fetchVideoMetaData (Example.env [Example.demo] None) Example.page w1 =
    (log (RedisGet (cacheKey Example.page)) w1, (Some Example.demo_response, None)).
Proof.
  exists (fst (fetchVideoMetaData (Example.env [Example.demo] None) Example.page
                 Example.init)).
  assert (Hf : fetchVideoMetaData (Example.env [Example.demo] None) Example.page
                 Example.init =
               (fst (fetchVideoMetaData (Example.env [Example.demo] None) Example.page
                       Example.init), (Some Example.demo_response, None))).
  { rewrite <- demo_fetch. apply surjective_pairing. }
  split; [exact Hf|].
  exact (fetch_again (Example.env [Example.demo] None) Example.page Example.init _
           Example.demo_response eq_refl eq_refl Hf).
Defined.

Lemma reachable_events_witness :
  Forall expected_event
    (trace (fst (fetchVideoMetaData (Example.env [Example.demo] None) Example.page
                   Example.init))).
Proof.
  apply reachable_events.
  exact (reachable_fetch (Example.env [Example.demo] None) Example.page _ reachable_init).
Defined.

Lemma reachable_store_witness :
  store_inv (fst (fetchVideoMetaData (Example.env [Example.demo] None) Example.page
                    Example.init)).
Proof.
  apply reachable_store.
  exact (reachable_fetch (Example.env [Example.demo] None) Example.page _ reachable_init).
Defined.

Lemma fetch_response_fields_witness :
  Source Example.demo_response = "" /\ Error Example.demo_response = false /\
  (exists out ytdlpData,
     YTDLP.Unmarshal out = Ok ytdlpData /\
     URL Example.demo_response = YTDLP.WebpageURL ytdlpData /\
     ID Example.demo_response = YTDLP.ID ytdlpData /\
     Author Example.demo_response = YTDLP.Uploader ytdlpData /\
     Title Example.demo_response = YTDLP.Title ytdlpData /\
     Thumbnail Example.demo_response = YTDLP.Thumbnail ytdlpData).
Proof.
  eapply (fetch_response_fields (Example.env [Example.demo] None) Example.page
            Example.init _ Example.demo_response None reachable_init).
  rewrite <- demo_fetch. apply surjective_pairing.
Defined.

Lemma submit_refused_witness :
  submitHandler (Example.env [] None) {| ParseFormErr := Some "EOF"; Form := []; Query := [] |}
    newResponseWriter Example.init =
  (Example.init, http_Error "Error Parsing Form" 400 newResponseWriter, Returned) /\
  submitHandler (Example.env [] None) {| ParseFormErr := None; Form := []; Query := [] |}
    newResponseWriter Example.init =
  (Example.init, http_Error "Invalid or unsupported video URL" 400 newResponseWriter,
   Returned) /\
  sent (http_Error "Error Parsing Form" 400 newResponseWriter) =
  Some (400, errorHeader ∅).
Proof.
  split; [|split].
  - exact (proj1 (submit_refused (Example.env [] None)
                    {| ParseFormErr := Some "EOF"; Form := []; Query := [] |}
                    newResponseWriter Example.init) "EOF" eq_refl).
  - exact (proj1 (proj2 (submit_refused (Example.env [] None)
                           {| ParseFormErr := None; Form := []; Query := [] |}
                           newResponseWriter Example.init))
             eq_refl (or_introl (fun H : False => H))).
  - exact (proj1 (proj2 (proj2 (submit_refused (Example.env [] None)
                                  {| ParseFormErr := None; Form := []; Query := [] |}
                                  newResponseWriter Example.init))
                    "Error Parsing Form" eq_refl)).
Defined.

Lemma submit_fetch_failure_witness :
  exists w' e,
    fetchVideoMetaData (Example.env [] (Some (ExitStatus 1))) Example.page Example.init =
    (w', (None, Some e)) /\
    submitHandler (Example.env [] (Some (ExitStatus 1))) (Example.submit_request Example.page)
      newResponseWriter Example.init =
    (w', http_Error ("Error fetching video meta data: " +:+ "error") 500 newResponseWriter,
     Returned).
Proof.
  destruct (submit_fetch_failure (Example.env [] (Some (ExitStatus 1)))
              (Example.submit_request Example.page) newResponseWriter Example.init
              "" (Some (ExitStatus 1)))
    as (w' & e & Hf & _ & Hs & _);
    [ reflexivity | discriminate | reflexivity | apply page_accepted | apply init_miss
    | reflexivity | left; discriminate | ].
  exists w', e. split; [exact Hf | exact Hs].
Defined.

Lemma submit_nil_response_witness :
  submitHandler (Example.env [] None) (Example.submit_request "/watch") newResponseWriter
    Example.init =
  (Example.init, newResponseWriter,
   Panicked "invalid memory address or nil pointer dereference").
Proof.
  apply (submit_nil_response (Example.env [] None) (Example.submit_request "/watch")
           newResponseWriter Example.init {| Scheme := ""; Host := "" |});
    [ reflexivity | discriminate | reflexivity | reflexivity | left; reflexivity ].
Defined.

Lemma submit_renders_witness :
  exists w1 rw',
    submitHandler (Example.env [Example.demo] None) (Example.submit_request Example.page)
      newResponseWriter Example.init = (w1, rw', Returned) /\
    body rw' =
      [ Printf submitHead ["18"; "https://example.com/watch?v=abc"; "http://x/img.jpg";
                           "Demo"; "Me"];
        Printf submitOption ["18"; "360p"];
        Printf submitTail ["Demo"] ] /\
    sent rw' = Some (200, ∅).
Proof.
  destruct (submit_renders (Example.env [Example.demo] None)
              (Example.submit_request Example.page) newResponseWriter Example.init
              (fst (fetchVideoMetaData (Example.env [Example.demo] None) Example.page
                      Example.init))
              Example.demo_response
              {| FormatID := "18"; Quality := "360p"; Width := 640; Height := 360;
                 Ext := "mp4" |} [])
    as (rw' & Hs & Hb & _ & Hsent);
    [ reflexivity | discriminate | reflexivity
    | rewrite <- demo_fetch; apply surjective_pairing | reflexivity | ].
  eexists _, rw'. split; [exact Hs|]. split; [exact Hb | exact Hsent].
Defined.

Lemma download_streams_witness :
  exists rw',
    downloadHandler (Example.env ["ab"; "cd"] None)
      (Scenario.download_request Example.page "18" "") newResponseWriter Example.init =
    ({| redis := ∅; trace := [Exec "yt-dlp" (downloadArgs "18" Example.page)] |}, rw', Returned) /\
    body rw' = [Bytes "ab"; Bytes "cd"] /\
    sent rw' = Some (200, downloadHeader "video.mp4" ∅).
Proof.
  destruct (download_streams (Example.env ["ab"; "cd"] None)
              (Scenario.download_request Example.page "18" "") newResponseWriter
              Example.init ["ab"; "cd"])
    as (rw' & Hd & Hb & _ & Hs); [ discriminate | reflexivity | reflexivity | ].
  exists rw'. split; [exact Hd|]. split; [exact Hb | exact (Hs eq_refl)].
Defined.

Lemma download_failure_witness :
  exists rw',
    downloadHandler (Example.env [] (Some (ExitStatus 1)))
      (Scenario.download_request Example.page "18" "a.mp4") newResponseWriter Example.init =
    ({| redis := ∅; trace := [Exec "yt-dlp" (downloadArgs "18" Example.page)] |}, rw', Returned) /\
    body rw' = [errorLine "Failed to download video"] /\
    sent rw' = Some (500, errorHeader (downloadHeader "a.mp4" ∅)).
Proof.
  destruct (download_failure (Example.env [] (Some (ExitStatus 1)))
              (Scenario.download_request Example.page "18" "a.mp4") newResponseWriter
              Example.init [] (ExitStatus 1))
    as (rw' & Hd & Hb & Hs & _); [ discriminate | reflexivity | reflexivity | ].
  exists rw'. split; [exact Hd|]. split; [exact Hb | exact (Hs eq_refl)].
Defined.

Lemma listed_format_refused_witness :
  isValidFormatID "dash=1" = false /\
  In (Printf submitOption ["dash=1"; "1920x1080"])
     (body (snd (fst (submitHandler (Example.env [Scenario.dash] None)
                        (Example.submit_request Example.page) newResponseWriter
                        Example.init)))) /\
  downloadHandler (Example.env [] None) (Example.download_request Example.page "dash=1")
    newResponseWriter Example.init =
  (Example.init, http_Error "Invalid format" StatusBadRequest newResponseWriter, Returned).
Proof.
  split; [reflexivity|].
  destruct (listed_format_refused (Example.env [Scenario.dash] None)
              (Example.submit_request Example.page) newResponseWriter Example.init
              (fst (fetchVideoMetaData (Example.env [Scenario.dash] None) Example.page
                      Example.init))
              Scenario.dash_response Scenario.dash_media)
    as (Hin & Hd);
    [ reflexivity | discriminate | reflexivity
    | rewrite <- dash_fetch; apply surjective_pairing | left; reflexivity | reflexivity | ].
  split; [exact Hin|].
  apply Hd; [discriminate | reflexivity].
Defined.

Lemma optionLabel_marks_witness :
  optionLabel {| FormatID := "251"; Quality := "251 - audio only (medium)"; Width := 0;
                 Height := 0; Ext := "webm" |} = "Audio only" /\
  optionLabel {| FormatID := "18"; Quality := "360p"; Width := 640; Height := 360;
                 Ext := "mp4" |} = "360p".
Proof.
  split.
  - refine (proj1 (optionLabel_marks
                     {| FormatID := "251"; Quality := "251 - audio only (medium)";
                        Width := 0; Height := 0; Ext := "webm" |}) _).
    by exists "251 - ", " (medium)".
  - refine (proj2 (optionLabel_marks
                     {| FormatID := "18"; Quality := "360p"; Width := 640; Height := 360;
                        Ext := "mp4" |}) _ _); by intros H%Contains_spec.
Defined.

Lemma refused_url_downloaded_witness :
  submitHandler (Scenario.env_strict [] None) (Example.submit_request "--version")
    newResponseWriter Example.init =
  (Example.init,
   http_Error "Invalid or unsupported video URL" StatusBadRequest newResponseWriter,
   Returned) /\
  fst (fst (downloadHandler (Scenario.env_strict [] None)
              (Example.download_request "--version" "18") newResponseWriter Example.init)) =
  log (Exec "yt-dlp" (downloadArgs "18" "--version")) Example.init.
Proof.
  apply (refused_url_downloaded (Scenario.env_strict [] None)
           (Example.submit_request "--version")
           (Example.download_request "--version" "18")
           newResponseWriter newResponseWriter Example.init "--version");
    [ reflexivity | reflexivity | reflexivity | discriminate | reflexivity | reflexivity ].
Defined.

Lemma fetch_errors_witness :
  snd (fetchVideoMetaData (Example.env [] (Some (ExitStatus 1))) Example.page Example.init) =
  (None, Some (ExitError 1)) /\
  (InvalidURL (ExitError 1) /\
   fst (fetchVideoMetaData (Example.env [] (Some (ExitStatus 1))) Example.page Example.init) =
   Example.init \/
   ExtractionFailed (ExitError 1) \/ MalformedMetadata (ExitError 1)) /\
  ExitError 1 <> RedisNil.
Proof.
  assert (Hf : fetchVideoMetaData (Example.env [] (Some (ExitStatus 1))) Example.page
                 Example.init =
               (fst (fetchVideoMetaData (Example.env [] (Some (ExitStatus 1))) Example.page
                       Example.init), (None, Some (ExitError 1)))).
  { apply injective_projections; reflexivity. }
  destruct (fetch_errors _ _ _ _ _ _ Hf) as (_ & Hk & Hn & _).
  split; [reflexivity|]. split; [exact Hk | exact Hn].
Defined.

Lemma submit_panics_witness :
  exists res,
    snd (fetchVideoMetaData (Example.env [Example.no_stream] None) Example.page
           Example.init) = (res, None) /\
    (res = None \/ exists v, res = Some v /\ elems (Medias v) = []).
Proof.
  assert (Hs : submitHandler (Example.env [Example.no_stream] None)
                 (Example.submit_request Example.page) newResponseWriter Example.init =
               (fst (fetchVideoMetaData (Example.env [Example.no_stream] None) Example.page
                       Example.init), newResponseWriter,
                Panicked "index out of range [0] with length 0")).
  { vm_compute. reflexivity. }
  destruct (submit_panics _ _ _ _ _ _ _ Hs) as (_ & res & Hf & Hc).
  exists res. split; [exact (f_equal snd Hf)|].
  destruct Hc as [[-> _] | [Hv _]]; [by left | by right].
Defined.

Lemma fetch_events_witness :
  let '(w', (res, err)) :=
    fetchVideoMetaData (Example.env [Example.demo] None) Example.page Example.init in
  let key := cacheKey Example.page in
  let run := Exec "yt-dlp" ["-j"; Example.page] in
  (w' = Example.init /\ res = None) \/
  (trace w' = trace Example.init ++ [RedisGet key] /\ redis w' = redis Example.init /\
   (exists v, res = Some v) /\ err = None) \/
  (trace w' = trace Example.init ++ [RedisGet key; run] /\ redis w' = redis Example.init /\
   res = None /\ exists e, err = Some e) \/
  (exists v,
     trace w' = trace Example.init ++
                [RedisGet key; run; RedisSet key (Marshal v) (5 * Minute)] /\
     res = Some v /\ err = None).
Proof.
  exact (fetch_events (Example.env [Example.demo] None) Example.page Example.init).
Defined.

Lemma download_effects_witness :
  let '(w', _, o) :=
    downloadHandler (Example.env ["ab"] None) (Example.download_request Example.page "18")
      newResponseWriter Example.init in
  let pageURL := Example.page in
  let formatID := "18" in
  o = Returned /\ redis w' = redis Example.init /\
  (trace w' = trace Example.init /\ (pageURL = "" \/ isValidFormatID formatID = false) \/
   trace w' = trace Example.init ++ [Exec "yt-dlp" (downloadArgs formatID pageURL)] /\
   pageURL <> "" /\ isValidFormatID formatID = true).
Proof.
  exact (download_effects (Example.env ["ab"] None)
           (Example.download_request Example.page "18") newResponseWriter Example.init).
Defined.

Lemma sanitizedTitle_spec_witness :
  strings.ReplaceAll "A/B" "/" "-" = "A-B" /\
  len (strings.ReplaceAll "A/B" "/" "-") = len "A/B" /\
  ~ In "/"%char (bytes (strings.ReplaceAll "A/B" "/" "-")).
Proof.
  destruct (sanitizedTitle_spec "A/B") as (_ & Hl & Hn).
  split; [reflexivity|]. split; [exact Hl | exact Hn].
Defined.

Lemma optionLabel_empty_witness :
  optionLabel {| FormatID := "18"; Quality := ""; Width := 640; Height := 360;
                 Ext := "mp4" |} = "" /\
  Quality {| FormatID := "sb0"; Quality := "video only"; Width := 0; Height := 0;
             Ext := "mhtml" |} <> "" /\
  optionLabel {| FormatID := "sb0"; Quality := "video only"; Width := 0; Height := 0;
                 Ext := "mhtml" |} = "0p".
Proof.
  split; [|split].
  - refine (proj2 (optionLabel_empty
                     {| FormatID := "18"; Quality := ""; Width := 640; Height := 360;
                        Ext := "mp4" |}) _).
    reflexivity.
  - intros H.
    apply (proj2 (optionLabel_empty
                    {| FormatID := "sb0"; Quality := "video only"; Width := 0; Height := 0;
                       Ext := "mhtml" |})) in H.
    discriminate H.
  - reflexivity.
Defined.

Lemma optionLabel_video_only_witness :
  optionLabel Scenario.dash_media = "1920x1080".
Proof.
  refine (optionLabel_video_only Scenario.dash_media "137"
            ["-"; "1920x1080"; "(video"; "only)"] _ eq_refl _ _).
  - repeat (apply Forall_cons_2; [cbn; intuition discriminate|]). apply Forall_nil_2.
  - by exists "137 - 1920x1080 (", ")".
  - by intros H%Contains_spec.
Defined.
